(** * weaviate_cli: a shallow embedding of [weaviate_cli.py]

    The command-line tool is a single Python module.  Everything it does is
    sequencing: merge the connection settings, open one client connection,
    run one handler that calls methods of the database client library, print,
    close.  The embedding therefore consists of

    - Python values, strings and exceptions as far as the module inspects them;
    - the outside world (the client library, [urlparse], the YAML file, the
      process environment, the terminal) as a record of oracles, [Env];
    - a small state-and-exception monad [M] over the module-level [client]
      handle and a trace of observable events (calls into the client library,
      terminal reads, printed lines);
    - the module's functions, written in that monad with the source's names. *)

From Stdlib Require Import Ascii String.
From stdpp Require Import gmap strings pretty list.

Set Warnings "-register-all".

(** ** Strings

    Python [str] values are modelled by Rocq strings.  [str.lower] and
    [str.upper] are modelled on the ASCII letters; every literal the module
    compares against (['yes'], ["not found"], the data type names, the
    vectoriser names) is ASCII. *)

Definition ascii_lower (c : ascii) : ascii :=
  let n := nat_of_ascii c in
  if (65 <=? n)%nat && (n <=? 90)%nat then ascii_of_nat (n + 32) else c.

Definition ascii_upper (c : ascii) : ascii :=
  let n := nat_of_ascii c in
  if (97 <=? n)%nat && (n <=? 122)%nat then ascii_of_nat (n - 32) else c.

Fixpoint str_map (f : ascii -> ascii) (s : string) : string :=
  match s with
  | EmptyString => EmptyString
  | String c r => String (f c) (str_map f r)
  end.

Definition lower : string -> string := str_map ascii_lower.
Definition upper : string -> string := str_map ascii_upper.

(** [needle in hay] for strings. *)
Fixpoint str_in (needle hay : string) : bool :=
  String.prefix needle hay ||
  match hay with
  | EmptyString => false
  | String _ r => str_in needle r
  end.

(** [s.split(sep, 1)]: a list of one string when [sep] does not occur in [s],
    otherwise the part before the first [sep] and the part after it. *)
Fixpoint split1 (sep : ascii) (s : string) : list string :=
  match s with
  | EmptyString => [EmptyString]
  | String c r =>
      if Ascii.eqb c sep then [EmptyString; r]
      else match split1 sep r with
           | h :: t => String c h :: t
           | [] => []
           end
  end.

Fixpoint join (sep : string) (l : list string) : string :=
  match l with
  | [] => EmptyString
  | [x] => x
  | x :: r => x +:+ sep +:+ join sep r
  end.

Definition colon : ascii := ":"%char.

(** ** Python values

    The values that reach the module from the YAML file, from [json.loads]
    and from attributes of library objects. *)

Inductive pyval : Type :=
| PNone
| PBool (b : bool)
| PInt (z : Z)
| PFloat (m e : Z)                   (* the float m * 2^e *)
| PStr (s : string)
| PList (l : list pyval)
| PDict (d : list (string * pyval))  (* keys in insertion order *)
| PObj (repr : string).              (* any other object *)

(** Truth value of [v] in a condition ([if v], [not v], [v if v else w]). *)
Definition truthy (v : pyval) : bool :=
  match v with
  | PNone => false
  | PBool b => b
  | PInt z => negb (z =? 0)%Z
  | PFloat m _ => negb (m =? 0)%Z
  | PStr s => negb (String.eqb s EmptyString)
  | PList l => match l with [] => false | _ => true end
  | PDict d => match d with [] => false | _ => true end
  | PObj _ => true
  end.

Definition is_None (v : pyval) : bool :=
  match v with PNone => true | _ => false end.

(** [v == z] for an integer literal [z]. *)
Definition eq_int (v : pyval) (z : Z) : bool :=
  match v with
  | PInt x => (x =? z)%Z
  | PBool b => ((if b then 1 else 0) =? z)%Z
  | PFloat m e =>
      if (0 <=? e)%Z then (m * 2 ^ e =? z)%Z else (m =? z * 2 ^ (- e))%Z
  | _ => false
  end.

Definition of_opt_str (o : option string) : pyval :=
  match o with Some s => PStr s | None => PNone end.

Definition of_opt_int (o : option Z) : pyval :=
  match o with Some z => PInt z | None => PNone end.

Definition py_bool (b : bool) : string := if b then "True" else "False".

(** [repr] of a string whose characters need no escape. *)
Definition repr_str (s : string) : string := "'" +:+ s +:+ "'".

Section render.
(** Python's rendering of floats is not modelled. *)
Variable float_str : Z -> Z -> string.

Fixpoint py_repr (v : pyval) : string :=
  match v with
  | PNone => "None"
  | PBool b => py_bool b
  | PInt z => pretty z
  | PFloat m e => float_str m e
  | PStr s => repr_str s
  | PList l => "[" +:+ join ", " (map py_repr l) +:+ "]"
  | PDict d =>
      "{" +:+ join ", " (map (fun kv => repr_str (fst kv) +:+ ": " +:+ py_repr (snd kv)) d)
          +:+ "}"
  | PObj r => r
  end.

Definition py_str (v : pyval) : string :=
  match v with
  | PStr s => s
  | _ => py_repr v
  end.
End render.

(** [d.get(k)] on a dictionary value. *)
Fixpoint assoc_get (k : string) (d : list (string * pyval)) : option pyval :=
  match d with
  | [] => None
  | (k', v) :: r => if String.eqb k k' then Some v else assoc_get k r
  end.

(** What [json.dumps] accepts: no foreign object anywhere inside. *)
Fixpoint json_serializable (v : pyval) : bool :=
  match v with
  | PObj _ => false
  | PList l => forallb json_serializable l
  | PDict d => forallb (fun kv => json_serializable (snd kv)) d
  | _ => true
  end.

(** ** Exceptions

    Only subclasses of [Exception] are modelled; [exn_kind] is the class as far
    as the module's [except] clauses tell classes apart. *)

Inductive exn_kind : Type :=
| WeaviateQueryException
| WeaviateConnectionError
| WeaviateStartUpError
| ValueError
| FileNotFoundError
| YAMLError
| OtherException.

Record exn : Type := mk_exn {
  exn_class : exn_kind;
  exn_type_name : string;                 (* type(e).__name__ *)
  exn_repr : string;                      (* repr(e) *)
  exn_str : string;                       (* str(e) *)
  exn_message : string;                   (* e.message, set by the library's base error *)
  exn_original_exception : option string  (* repr of e.original_exception when set *)
}.

Definition exn_kind_eqb (a b : exn_kind) : bool :=
  match a, b with
  | WeaviateQueryException, WeaviateQueryException
  | WeaviateConnectionError, WeaviateConnectionError
  | WeaviateStartUpError, WeaviateStartUpError
  | ValueError, ValueError
  | FileNotFoundError, FileNotFoundError
  | YAMLError, YAMLError
  | OtherException, OtherException => true
  | _, _ => false
  end.

(** [isinstance(e, (k1, k2, ...))] *)
Definition isinstance (e : exn) (ks : list exn_kind) : bool :=
  existsb (exn_kind_eqb (exn_class e)) ks.

(** An exception raised by the interpreter or by the module itself. *)
Definition py_error (k : exn_kind) (type_name msg : string) : exn :=
  mk_exn k type_name (type_name +:+ "(" +:+ repr_str msg +:+ ")") msg msg None.

Inductive result (A : Type) : Type :=
| Ok (a : A)
| Raise (e : exn).
Arguments Ok {A} a.
Arguments Raise {A} e.

(** ** Objects of the client library

    The library is not part of the repository.  Its objects are modelled by the
    attributes the module reads, its constructors by data constructors, and its
    methods by the oracle [sdk] of [Env]. *)

(** [wvc.DataType]: the members the module names, and any other member. *)
Module DataType.
Inductive t : Type :=
| TEXT | INT | NUMBER | BOOL | DATE | UUID
| TEXT_ARRAY | INT_ARRAY | NUMBER_ARRAY | BOOL_ARRAY | DATE_ARRAY | UUID_ARRAY
| GEO_COORDINATES | PHONE_NUMBER | BLOB
| member (name : string).
End DataType.

(** [wvc.Property(name=..., data_type=...)] *)
Record Property : Type := mk_Property {
  prop_name : string;
  prop_data_type : DataType.t
}.

(** [wvc.Configure.Vectorizer.*] *)
Inductive VectorizerConfig : Type :=
| text2vec_openai (model type_ vectorize_collection_name : pyval)
| text2vec_cohere (model truncate vectorize_collection_name : pyval)
| text2vec_huggingface (model passage_model query_model : pyval)
    (source_properties : option (list string)) (options vectorize_collection_name : pyval)
| vectorizer_none.

(** [Permissions.collections(...)] and [Permissions.data(...)] *)
Inductive Permission : Type :=
| Permissions_collections (collection : list string)
    (create_collection read_config update_config delete_collection : bool)
| Permissions_data (collection : list string) (create read update delete : bool).

Record WeaviateClient : Type := mk_client { client_id : nat }.

Record AdditionalConfig : Type := mk_AdditionalConfig {
  timeout : Z * Z;
  startup_period : Z
}.

(** The keyword arguments of [weaviate.connect_to_custom]. *)
Record ConnectParams : Type := mk_ConnectParams {
  http_host : string;
  http_port : Z;
  http_secure : bool;
  grpc_host : pyval;
  grpc_port : pyval;
  grpc_secure : bool;
  auth_credentials : option pyval;   (* AuthApiKey(api_key=...) or None *)
  additional_config : AdditionalConfig
}.

(** The keyword arguments of [client.collections.create]. *)
Record CreateParams : Type := mk_CreateParams {
  cp_name : string;
  cp_description : string;
  cp_properties : option (list Property);
  cp_vectorizer_config : option VectorizerConfig;
  cp_replication_config : option Z;     (* Configure.replication(factor=...) *)
  cp_sharding_config : option Z;        (* Configure.sharding(desired_count=...) *)
  cp_inverted_index_config : option pyval
}.

Record ShardingConfig : Type := mk_ShardingConfig {
  desired_count : pyval;
  actual_count : pyval;
  desired_virtual_count : pyval;
  actual_virtual_count : pyval;
  sharding_vars : pyval                 (* vars(sharding_config) *)
}.

(** A property of a collection configuration, as read back. *)
Record PropertyConfig : Type := mk_PropertyConfig {
  pc_name : string;
  pc_data_type : string + list string;  (* str(dt), or the str of each when a list *)
  pc_data_type_repr : string;           (* repr(data_type) *)
  pc_description : pyval;
  pc_index_filterable : pyval;
  pc_index_searchable : pyval;
  pc_tokenization : option string;      (* str(tokenization) when present and true *)
  pc_vectorizer_config : option (string * pyval)
    (* (str(vectorizer), vectorize_property_name) when present and true *)
}.

(** The result of [collection.config.get()]. *)
Record CollectionConfig : Type := mk_CollectionConfig {
  cc_to_dict : result pyval;            (* collection_config.to_dict() *)
  cc_name : string;
  cc_description : pyval;
  cc_vectorizer : string;               (* str(vectorizer) *)
  cc_vector_index_type : string;        (* str(vector_index_type) *)
  cc_properties : list PropertyConfig;
  cc_replication_factor : option pyval; (* replication_config.factor when set *)
  cc_sharding_config : option ShardingConfig;
  cc_inverted_index_vars : option pyval (* vars(inverted_index_config) when set *)
}.

(** What [client.collections.get] and the values of [list_all] stand for. *)
Record Collection : Type := mk_Collection { coll_id : string }.

(** A record of [client.users.db.list_all()]. *)
Record UserDB : Type := mk_UserDB { db_user_id : string }.   (* key.user_id *)

(** The value of [client.users.db.create]. *)
Record NewApiKey : Type := mk_NewApiKey {
  key : option string;                  (* the attribute [key], when there is one *)
  key_str : string                      (* str(obj) *)
}.

Record Role : Type := mk_Role {
  role_name : string;
  role_permissions : option (list string);  (* the str of each permission; None: no such attribute *)
  role_str : string
}.

(** An element of a role listing: a role object, a role name, or something else. *)
Inductive RoleItem : Type :=
| ItemRole (r : Role)
| ItemStr (s : string)
| ItemOther (repr : string).

Record RolesData : Type := mk_RolesData {
  rd_items : list RoleItem;
  rd_repr : string
}.

(** Methods of the library, indexed by the type of their value. *)
Inductive sdk_call : Type -> Type :=
| connect_to_custom (p : ConnectParams) : sdk_call WeaviateClient
| is_connected (c : WeaviateClient) : sdk_call bool
| is_ready (c : WeaviateClient) : sdk_call bool
| is_live (c : WeaviateClient) : sdk_call bool
| close (c : WeaviateClient) : sdk_call unit
| collections_exists (c : WeaviateClient) (name : string) : sdk_call bool
| collections_create (c : WeaviateClient) (p : CreateParams) : sdk_call unit
| collections_delete (c : WeaviateClient) (name : string) : sdk_call unit
| collections_list_all (c : WeaviateClient) (simple : bool)
    : sdk_call (list (string * Collection))
| collections_get (c : WeaviateClient) (name : string) : sdk_call Collection
| config_get (col : Collection) : sdk_call CollectionConfig
| users_db_list_all (c : WeaviateClient) : sdk_call (list UserDB)
| users_db_delete (c : WeaviateClient) (uid : string) : sdk_call unit
| users_db_create (c : WeaviateClient) (uid : string) : sdk_call NewApiKey
| users_db_assign_roles (c : WeaviateClient) (uid : string) (role_names : list string)
    : sdk_call unit
| users_db_get_assigned_roles (c : WeaviateClient) (uid : string) : sdk_call RolesData
| roles_exists (c : WeaviateClient) (name : string) : sdk_call bool
| roles_create (c : WeaviateClient) (name : string) (permissions : list Permission)
    : sdk_call unit
| roles_delete (c : WeaviateClient) (name : string) : sdk_call unit
| roles_get (c : WeaviateClient) (name : string) : sdk_call (option Role)
| roles_list_all (c : WeaviateClient) : sdk_call (list RoleItem).

(** The value of [urlparse], as far as [parse_http_url_details] reads it. *)
Record ParseResult : Type := mk_ParseResult {
  scheme : string;
  hostname : option string;
  port : result (option Z)              (* the property raises on a bad port *)
}.

(** ** The outside world *)

Record Env : Type := mk_Env {
  (** a library call issued when [n] events have happened so far *)
  sdk : forall R : Type, nat -> sdk_call R -> result R;
  (** reading [weaviate.__version__] *)
  weaviate_version : result string;
  urlparse : string -> result ParseResult;
  (** [getattr(wvc.DataType, name)] for a name the module does not list *)
  DataType_getattr : string -> option DataType.t;
  (** [open] and [yaml.safe_load] on a path *)
  yaml_safe_load : string -> result pyval;
  environ : gmap string string;
  input : nat -> string -> result string;
  getpass : nat -> string -> result string;
  float_str : Z -> Z -> string;
  permission_str : Permission -> string
}.

(** ** Events, state and the monad *)

Inductive event : Type :=
| Call {R : Type} (c : sdk_call R)
| Input (prompt : string)
| Getpass (prompt : string)
| Print (line : string)
| PrintJson (doc : pyval)                  (* print(json.dumps(doc, indent=2)) *)
| Assign (v : option WeaviateClient).      (* client = v, the module-level handle *)

Record world : Type := mk_world {
  client : option WeaviateClient;
  trace : list event
}.

(** How a computation ends: with a value, with an exception in flight, or with
    [exit(code)]. *)
Inductive outcome (A : Type) : Type :=
| Normal (a : A)
| Raised (e : exn)
| Exited (code : Z).
Arguments Normal {A} a.
Arguments Raised {A} e.
Arguments Exited {A} code.

Definition M (A : Type) : Type := world -> outcome A * world.

Definition ret {A} (a : A) : M A := fun w => (Normal a, w).

Definition bind {A B} (m : M A) (k : A -> M B) : M B :=
  fun w =>
    match m w with
    | (Normal a, w') => k a w'
    | (Raised e, w') => (Raised e, w')
    | (Exited c, w') => (Exited c, w')
    end.

Declare Scope M_scope.
Delimit Scope M_scope with M.
Notation "x ← m ; k" := (bind m (fun x => k))
  (at level 20, m at level 100, k at level 200, only parsing) : M_scope.
Notation "' x ← m ; k" := (bind m (fun x => k))
  (at level 20, x pattern, m at level 100, k at level 200, only parsing) : M_scope.
Notation "m ;; k" := (bind m (fun _ => k))
  (at level 100, k at level 200, only parsing, right associativity) : M_scope.
Open Scope M_scope.

Definition raise {A} (e : exn) : M A := fun w => (Raised e, w).
Definition exit {A} (code : Z) : M A := fun w => (Exited code, w).

Definition emit (ev : event) : M unit :=
  fun w => (Normal tt, mk_world (client w) (trace w ++ [ev])).

Definition print (line : string) : M unit := emit (Print line).

Definition get_client : M (option WeaviateClient) := fun w => (Normal (client w), w).

Definition set_client (v : option WeaviateClient) : M unit :=
  fun w => (Normal tt, mk_world v (trace w ++ [Assign v])).

Definition lift {A} (r : result A) : M A :=
  match r with Ok a => ret a | Raise e => raise e end.

(** [try: body / except ...: handler]; [handler e = None] when no clause
    matches [e]. *)
Definition try_except {A} (body : M A) (handler : exn -> option (M A)) : M A :=
  fun w =>
    match body w with
    | (Raised e, w') =>
        match handler e with
        | Some h => h w'
        | None => (Raised e, w')
        end
    | r => r
    end.

(** [try: body / finally: fin] *)
Definition try_finally {A} (body : M A) (fin : M unit) : M A :=
  fun w =>
    let '(r, w') := body w in
    match fin w' with
    | (Normal _, w'') => (r, w'')
    | (Raised e, w'') => (Raised e, w'')
    | (Exited c, w'') => (Exited c, w'')
    end.

(** The clauses of an [except] chain, tried in order. *)
Fixpoint except {A} (clauses : list (list exn_kind * (exn -> M A))) (e : exn)
  : option (M A) :=
  match clauses with
  | [] => None
  | (ks, h) :: r => if isinstance e ks then Some (h e) else except r e
  end.

(** [except Exception] *)
Definition Exception : list exn_kind :=
  [WeaviateQueryException; WeaviateConnectionError; WeaviateStartUpError;
   ValueError; FileNotFoundError; YAMLError; OtherException].

Definition when (b : bool) (m : M unit) : M unit := if b then m else ret tt.

(** ** The parsed command line

    [parser.parse_args()] either leaves the process with status 2 or yields a
    namespace.  Every sub-parser is required and sets [func], so a namespace
    always names one of the twelve handlers; the [print_help] branches of
    [main] are not reached. *)

Inductive command : Type :=
| Collection_create | Collection_delete | Collection_list | Collection_describe
| User_create | User_delete | User_list | User_update_roles
| Role_create | Role_delete | Role_get | Role_list.

Module args.
Record t : Type := mk {
  config_file : option string;
  url : pyval;
  root_key : pyval;
  grpc_host : pyval;
  grpc_port : pyval;
  recreate_api_key : bool;
  func : command;
  (* collection create / delete / describe *)
  name : string;
  description : string;
  property : option (list string);
  vectorizer : option string;
  vectorizer_options : pyval;           (* json.loads of the option, default None *)
  vectorizer_source_properties : option (list string);
  replication_factor : option Z;
  shards : option Z;
  (* collection list, role list *)
  detailed : bool;
  (* user create / delete / update-roles *)
  user_id : string;
  role : option (list string);
  (* role create / delete / get *)
  role_name : string;
  collection_pattern : list string;
  allow_data_create : bool;
  allow_data_read : bool;
  allow_data_update : bool;
  allow_data_delete : bool;
  allow_collection_create : bool;
  allow_collection_read_config : bool;
  allow_collection_update_config : bool;
  allow_collection_delete : bool
}.

(** The four assignments [args.url = final_url], ... of [main]. *)
Definition with_connection (a : t) (u k h p : pyval) : t :=
  mk (config_file a) u k h p (recreate_api_key a) (func a)
     (name a) (description a) (property a) (vectorizer a) (vectorizer_options a)
     (vectorizer_source_properties a) (replication_factor a) (shards a)
     (detailed a) (user_id a) (role a) (role_name a) (collection_pattern a)
     (allow_data_create a) (allow_data_read a) (allow_data_update a) (allow_data_delete a)
     (allow_collection_create a) (allow_collection_read_config a)
     (allow_collection_update_config a) (allow_collection_delete a).

(** [args.root_key = k] *)
Definition with_root_key (a : t) (k : pyval) : t :=
  with_connection a (url a) k (grpc_host a) (grpc_port a).
End args.

Definition nl : string := String (ascii_of_nat 10) EmptyString.

(** [l if l else []] for an optional list *)
Definition or_empty {A} (l : option (list A)) : list A :=
  match l with Some l => l | None => [] end.

Definition str_truthy (s : option string) : bool :=
  match s with
  | Some s => negb (String.eqb s EmptyString)
  | None => false
  end.

(** ** The module *)

Section program.
Context (env : Env).

(** A method call on a library object: logged, answered by the oracle. *)
Definition call {R : Type} (c : sdk_call R) : M R :=
  fun w =>
    let w' := mk_world (client w) (trace w ++ [Call c]) in
    match sdk env R (length (trace w)) c with
    | Ok r => (Normal r, w')
    | Raise e => (Raised e, w')
    end.

Definition str_of (v : pyval) : string := py_str (float_str env) v.
Definition repr_of (v : pyval) : string := py_repr (float_str env) v.

(** *** parse_properties_v4 *)

(** [name, data_type_str = parts] *)
Definition unpack2 (parts : list string) : result (string * string) :=
  match parts with
  | [a; b] => Ok (a, b)
  | _ => Raise (py_error ValueError "ValueError"
                  "not enough values to unpack (expected 2, got 1)")
  end.

(** The [if]/[elif] chain on [data_type_str_upper]; [None] stands for the
    [AttributeError] of the final [getattr]. *)
Definition data_type_enum (data_type_str_upper : string) : option DataType.t :=
  if String.eqb data_type_str_upper "TEXT" then Some DataType.TEXT
  else if String.eqb data_type_str_upper "INT" then Some DataType.INT
  else if String.eqb data_type_str_upper "NUMBER" then Some DataType.NUMBER
  else if String.eqb data_type_str_upper "BOOL" then Some DataType.BOOL
  else if String.eqb data_type_str_upper "DATE" then Some DataType.DATE
  else if String.eqb data_type_str_upper "UUID" then Some DataType.UUID
  else if String.eqb data_type_str_upper "TEXT_ARRAY" then Some DataType.TEXT_ARRAY
  else if String.eqb data_type_str_upper "INT_ARRAY" then Some DataType.INT_ARRAY
  else if String.eqb data_type_str_upper "NUMBER_ARRAY" then Some DataType.NUMBER_ARRAY
  else if String.eqb data_type_str_upper "BOOL_ARRAY" then Some DataType.BOOL_ARRAY
  else if String.eqb data_type_str_upper "DATE_ARRAY" then Some DataType.DATE_ARRAY
  else if String.eqb data_type_str_upper "UUID_ARRAY" then Some DataType.UUID_ARRAY
  else if String.eqb data_type_str_upper "GEO_COORDINATES"
       then Some DataType.GEO_COORDINATES
  else if String.eqb data_type_str_upper "PHONE_NUMBER" then Some DataType.PHONE_NUMBER
  else if String.eqb data_type_str_upper "BLOB" then Some DataType.BLOB
  else DataType_getattr env data_type_str_upper.

Definition unknown_type_warning (data_type_str name : string) : string :=
  "Warning: Unsupported or unknown dataType '" +:+ data_type_str +:+
  "' for property '" +:+ name +:+ "'. Skipping this property.".

Definition invalid_format_warning (prop_str : string) : string :=
  "Warning: Invalid property format '" +:+ prop_str +:+
  "'. Expected 'name:dataType'. Skipping.".

(** One turn of the [for] loop; the value is [properties] afterwards. *)
Definition parse_property (properties : list Property) (prop_str : string)
  : M (list Property) :=
  try_except
    ('(name, data_type_str) ← lift (unpack2 (split1 colon prop_str));
     let data_type_str_upper := upper data_type_str in
     match data_type_enum data_type_str_upper with
     | Some dt => ret (properties ++ [mk_Property name dt])
     | None =>
         print (unknown_type_warning data_type_str name);;
         ret properties
     end)
    (except [([ValueError], fun _ =>
                print (invalid_format_warning prop_str);;
                ret properties)]).

Fixpoint parse_properties_loop (props : list string) (properties : list Property)
  : M (list Property) :=
  match props with
  | [] => ret properties
  | prop_str :: rest =>
      properties' ← parse_property properties prop_str;
      parse_properties_loop rest properties'
  end.

Definition parse_properties_v4 (props_str_list : option (list string))
  : M (option (list Property)) :=
  match props_str_list with
  | None | Some [] => ret None
  | Some l =>
      properties ← parse_properties_loop l [];
      ret (match properties with [] => None | _ => Some properties end)
  end.

(** *** parse_http_url_details *)

(** [urlparse] on whatever [url] holds: a string is parsed; another false
    value parses like the empty string; any other value has no [decode]. *)
Definition py_urlparse (url : pyval) : result ParseResult :=
  match url with
  | PStr s => urlparse env s
  | _ =>
      if truthy url
      then Raise (py_error OtherException "AttributeError"
                    "object has no attribute 'decode'")
      else Ok (mk_ParseResult EmptyString None (Ok None))
  end.

Definition parse_http_url_details (url_str : pyval) : M (string * Z * bool) :=
  parsed_url ← lift (py_urlparse url_str);
  let http_scheme := lower (scheme parsed_url) in
  if negb (String.eqb http_scheme "http" || String.eqb http_scheme "https") then
    raise (py_error ValueError "ValueError"
             ("Invalid URL scheme: " +:+ scheme parsed_url +:+
              ". Must be 'http' or 'https'."))
  else
    let http_secure := String.eqb http_scheme "https" in
    match hostname parsed_url with
    | None | Some EmptyString =>
        raise (py_error ValueError "ValueError"
                 ("Could not determine host from URL: " +:+ str_of url_str))
    | Some http_host =>
        p ← lift (port parsed_url);
        let http_port :=
          match p with
          | Some n => if (n =? 0)%Z then (if http_secure then 443 else 80)%Z else n
          | None => (if http_secure then 443 else 80)%Z
          end in
        ret (http_host, http_port, http_secure)
    end.

(** *** connect_to_weaviate *)

(** The local variables the [except] clauses of [connect_to_weaviate] print. *)
Record locals : Type := mk_locals {
  l_http_host : string;
  l_http_port : Z;
  l_http_secure : bool;
  l_grpc_host_to_use : pyval;
  l_grpc_port_to_use : pyval;
  l_grpc_secure_to_use : bool
}.

Definition initial_locals : locals :=
  mk_locals EmptyString 0 false (PStr EmptyString) (PInt 0) false.

(** [if client: client.close()] followed by [client = None] and [exit(1)] *)
Definition fail_connection : M WeaviateClient :=
  c ← get_client;
  match c with Some c => call (close c) | None => ret tt end;;
  set_client None;;
  exit 1.

Definition print_original_exception (e : exn) : M unit :=
  match exn_original_exception e with
  | Some r => print ("  Original Underlying Exception: " +:+ r)
  | None => ret tt
  end.

Definition connect_handlers (l : locals) : exn -> option (M WeaviateClient) :=
  except
    [ ([ValueError], fun ve =>
         print ("Error parsing URL or parameters for custom connection: " +:+ exn_repr ve);;
         fail_connection);
      ([WeaviateConnectionError], fun wce =>
         print ("WeaviateConnectionError: Could not connect to Weaviate. " +:+
                "Please check network, firewall, and server status.");;
         print ("  Raw Exception Details: " +:+ exn_repr wce);;
         print_original_exception wce;;
         print ("  Attempted HTTP: " +:+ l_http_host l +:+ ":" +:+ pretty (l_http_port l) +:+
                " (secure: " +:+ py_bool (l_http_secure l) +:+ ")");;
         print ("  Attempted gRPC: " +:+ str_of (l_grpc_host_to_use l) +:+ ":" +:+
                str_of (l_grpc_port_to_use l) +:+
                " (secure: " +:+ py_bool (l_grpc_secure_to_use l) +:+ ")");;
         fail_connection);
      ([WeaviateStartUpError], fun wse =>
         print ("WeaviateStartUpError: Problem during Weaviate startup " +:+
                "or client initialization.");;
         print ("  Raw Exception Details: " +:+ exn_repr wse);;
         print_original_exception wse;;
         fail_connection);
      (Exception, fun e =>
         print ("An unexpected error occurred during Weaviate connection: " +:+
                exn_type_name e +:+ " - " +:+ exn_repr e);;
         fail_connection) ].

Definition the_additional_config : AdditionalConfig :=
  mk_AdditionalConfig (20, 120)%Z 30%Z.

(** The [try] body up to the point where the six locals are assigned. *)
Definition connect_prepare (url cli_grpc_host cli_grpc_port : pyval) : M locals :=
  c ← get_client;
  match c with
  | Some c =>
      print "Closing pre-existing client instance.";;
      call (close c);;
      set_client None
  | None => ret tt
  end;;
  '(http_host, http_port, http_secure) ← parse_http_url_details url;
  let grpc_host_to_use := if truthy cli_grpc_host then cli_grpc_host else PStr http_host in
  let grpc_port_to_use := if negb (is_None cli_grpc_port) then cli_grpc_port else PInt 50051 in
  let grpc_secure_to_use :=
    if negb (is_None cli_grpc_port) then
      if eq_int cli_grpc_port 443 then true
      else if eq_int cli_grpc_port 80 then false
      else http_secure
    else http_secure in
  ret (mk_locals http_host http_port http_secure
                  grpc_host_to_use grpc_port_to_use grpc_secure_to_use).

(** The rest of the [try] body. *)
Definition connect_open (auth : option pyval) (l : locals) : M WeaviateClient :=
  print ("  HTTP connection: host='" +:+ l_http_host l +:+ "', port=" +:+
         pretty (l_http_port l) +:+ ", secure=" +:+ py_bool (l_http_secure l));;
  print ("  gRPC connection: host='" +:+ str_of (l_grpc_host_to_use l) +:+ "', port=" +:+
         str_of (l_grpc_port_to_use l) +:+ ", secure=" +:+
         py_bool (l_grpc_secure_to_use l));;
  let additional_config := the_additional_config in
  new_client ← call (connect_to_custom
                       (mk_ConnectParams (l_http_host l) (l_http_port l) (l_http_secure l)
                          (l_grpc_host_to_use l) (l_grpc_port_to_use l)
                          (l_grpc_secure_to_use l) auth additional_config));
  ready ← call (is_ready new_client);
  if negb ready then
    print ("Error: Weaviate client object created, but instance is not ready. " +:+
           "Check Weaviate server logs and network.");;
    try_except
      (live_status ← call (is_live new_client);
       print ("  Instance live status: " +:+ py_bool live_status))
      (except [(Exception, fun live_err =>
                  print ("  Could not get live status: " +:+ exn_repr live_err))]);;
    call (close new_client);;
    exit 1
  else
    set_client (Some new_client);;
    print "Successfully connected to Weaviate.";;
    ret new_client.

(** The source has one [try] around [connect_prepare] followed by
    [connect_open]; its [except] clauses print the locals as they are when
    the exception arrives, and every clause ends in [exit(1)].  The two
    halves are therefore guarded separately, each with the locals it sees. *)
Definition connect_to_weaviate (url api_key cli_grpc_host cli_grpc_port : pyval)
  : M WeaviateClient :=
  c0 ← get_client;
  healthy ←
    match c0 with
    | Some c =>
        connected ← call (is_connected c);
        if connected then call (is_ready c) else ret false
    | None => ret false
    end;
  match c0, healthy with
  | Some c, true =>
      print "Using existing healthy Weaviate connection.";;
      ret c
  | _, _ =>
      print ("Attempting to connect to Weaviate at " +:+ str_of url +:+
             " (client v4.x) using custom connection parameters...");;
      let auth_credentials := if truthy api_key then Some api_key else None in
      l ← try_except (connect_prepare url cli_grpc_host cli_grpc_port)
            (fun e => match connect_handlers initial_locals e with
                      | Some h => Some (h;; ret initial_locals)
                      | None => None
                      end);
      try_except (connect_open auth_credentials l) (connect_handlers l)
  end.

(** *** close_connection *)

Definition close_connection : M unit :=
  c ← get_client;
  match c with
  | Some c =>
      try_finally
        (try_except
           (call (close c);;
            print "Weaviate client connection closed.")
           (except [(Exception, fun e =>
                       print ("Error closing Weaviate client connection: " +:+ exn_repr e))]))
        (set_client None)
  | None => ret tt
  end.

(** *** The handlers *)

(** The module-level [client], as the handlers use it after connecting. *)
Definition the_client : M WeaviateClient :=
  c ← get_client;
  match c with
  | Some c => ret c
  | None => raise (py_error OtherException "AttributeError"
                     "'NoneType' object has no attribute")
  end.

Definition client_call {R : Type} (f : WeaviateClient -> sdk_call R) : M R :=
  c ← the_client;
  call (f c).

(** [input(prompt)] *)
Definition read_input (prompt : string) : M string :=
  fun w =>
    let w' := mk_world (client w) (trace w ++ [Input prompt]) in
    match input env (length (trace w)) prompt with
    | Ok s => (Normal s, w')
    | Raise e => (Raised e, w')
    end.

(** [getpass.getpass(prompt)] *)
Definition read_getpass (prompt : string) : M string :=
  fun w =>
    let w' := mk_world (client w) (trace w ++ [Getpass prompt]) in
    match getpass env (length (trace w)) prompt with
    | Ok s => (Normal s, w')
    | Raise e => (Raised e, w')
    end.

(** [d.get(k, default)]; only a dictionary has [get]. *)
Definition dict_get (d : pyval) (k : string) (default : pyval) : M pyval :=
  match d with
  | PDict items => ret (match assoc_get k items with Some v => v | None => default end)
  | _ => raise (py_error OtherException "AttributeError"
                  "object has no attribute 'get'")
  end.

(** [print(json.dumps(doc, indent=2))] *)
Definition print_json (doc : pyval) : M unit :=
  if json_serializable doc then emit (PrintJson doc)
  else raise (py_error OtherException "TypeError"
                "Object is not JSON serializable").

Definition connect (a : args.t) : M WeaviateClient :=
  connect_to_weaviate (args.url a) (args.root_key a) (args.grpc_host a) (args.grpc_port a).

Definition unexpected (e : exn) : M unit :=
  print ("An unexpected error occurred: " +:+ exn_repr e).

(** The [if args.vectorizer:] block of [handle_collection_create]. *)
Definition vectorizer_config_of (a : args.t) : M (option VectorizerConfig) :=
  if str_truthy (args.vectorizer a) then
    let vectorizer_name := lower (default EmptyString (args.vectorizer a)) in
    let v_options :=
      if truthy (args.vectorizer_options a) then args.vectorizer_options a else PDict [] in
    if String.eqb vectorizer_name "text2vec-openai" then
      model ← dict_get v_options "model" PNone;
      type_ ← dict_get v_options "type" PNone;
      vcn ← dict_get v_options "vectorizeClassName" (PBool true);
      ret (Some (text2vec_openai model type_ vcn))
    else if String.eqb vectorizer_name "text2vec-cohere" then
      model ← dict_get v_options "model" PNone;
      truncate ← dict_get v_options "truncate" PNone;
      vcn ← dict_get v_options "vectorizeClassName" (PBool true);
      ret (Some (text2vec_cohere model truncate vcn))
    else if String.eqb vectorizer_name "text2vec-huggingface" then
      model ← dict_get v_options "model" PNone;
      passage_model ← dict_get v_options "passageModel" PNone;
      query_model ← dict_get v_options "queryModel" PNone;
      options ← dict_get v_options "options" PNone;
      vcn ← dict_get v_options "vectorizeClassName" (PBool true);
      ret (Some (text2vec_huggingface model passage_model query_model
                   (args.vectorizer_source_properties a) options vcn))
    else if String.eqb vectorizer_name "none" then
      ret (Some vectorizer_none)
    else
      print ("Warning: Unknown or unsupported vectorizer '" +:+
             default EmptyString (args.vectorizer a) +:+
             "'. No vectorizer will be configured.");;
      ret None
  else ret None.

Definition handle_collection_create (a : args.t) : M unit :=
  connect a;;
  print ("Attempting to create collection '" +:+ args.name a +:+ "'...");;
  already ← client_call (fun c => collections_exists c (args.name a));
  if already then
    print ("Collection '" +:+ args.name a +:+ "' already exists. Skipping creation.")
  else
    properties ← parse_properties_v4 (args.property a);
    vectorizer_config ← vectorizer_config_of a;
    let replication_config := args.replication_factor a in
    let sharding_config := args.shards a in
    let inverted_index_config := None in
    try_except
      (client_call (fun c => collections_create c
                      (mk_CreateParams (args.name a) (args.description a) properties
                         vectorizer_config replication_config sharding_config
                         inverted_index_config));;
       print ("Collection '" +:+ args.name a +:+ "' created successfully."))
      (except
         [ ([WeaviateQueryException; WeaviateConnectionError], fun e =>
              print ("Error creating collection '" +:+ args.name a +:+ "': " +:+ exn_repr e));
           (Exception, unexpected) ]).

Definition handle_collection_delete (a : args.t) : M unit :=
  connect a;;
  confirm ← read_input ("Are you sure you want to delete collection '" +:+ args.name a +:+
                        "'? This cannot be undone. (yes/no): ");
  if negb (String.eqb (lower confirm) "yes") then
    print "Collection deletion cancelled."
  else
    print ("Attempting to delete collection '" +:+ args.name a +:+ "'...");;
    try_except
      (client_call (fun c => collections_delete c (args.name a));;
       print ("Collection '" +:+ args.name a +:+ "' deleted successfully."))
      (except
         [ ([WeaviateQueryException], fun e =>
              print ("Error deleting collection '" +:+ args.name a +:+ "': " +:+ exn_repr e));
           (Exception, unexpected) ]).

Definition property_triple (p : PropertyConfig) : string :=
  "(" +:+ repr_str (pc_name p) +:+ ", " +:+ pc_data_type_repr p +:+ ", " +:+
  repr_of (pc_description p) +:+ ")".

(** The body of the loop of [handle_collection_list] for one collection. *)
Definition list_collection (detailed : bool) (item : string * Collection) : M unit :=
  let '(name, coll_data) := item in
  if detailed then
    print (nl +:+ "  Name: " +:+ name);;
    try_except
      (config ← call (config_get coll_data);
       print ("    Description: " +:+ str_of (cc_description config));;
       print ("    Properties: " +:+
              match cc_properties config with
              | [] => "None"
              | ps => "[" +:+ join ", " (map property_triple ps) +:+ "]"
              end);;
       print ("    Vectorizer: " +:+ cc_vectorizer config);;
       match cc_replication_factor config with
       | Some f => print ("    Replication Factor: " +:+ str_of f)
       | None => ret tt
       end;;
       match cc_sharding_config config with
       | Some s_config =>
           print ("    Sharding: Desired=" +:+ str_of (desired_count s_config) +:+
                  ", Actual=" +:+ str_of (actual_count s_config) +:+
                  ", VirtualDesired=" +:+ str_of (desired_virtual_count s_config) +:+
                  ", VirtualActual=" +:+ str_of (actual_virtual_count s_config))
       | None => ret tt
       end)
      (except [(Exception, fun detail_err =>
                  print ("    Could not fetch full details for " +:+ name +:+ ": " +:+
                         exn_repr detail_err))])
  else
    print ("  - " +:+ name).

(** [for x in l: body x] *)
Fixpoint for_each {A : Type} (l : list A) (body : A -> M unit) : M unit :=
  match l with
  | [] => ret tt
  | x :: r => body x;; for_each r body
  end.

Definition handle_collection_list (a : args.t) : M unit :=
  connect a;;
  print "Fetching list of collections...";;
  try_except
    (collections_dict ← client_call (fun c => collections_list_all c (negb (args.detailed a)));
     match collections_dict with
     | _ :: _ =>
         print "Collections:";;
         for_each collections_dict (list_collection (args.detailed a))
     | [] => print "No collections found."
     end)
    (except
       [ ([WeaviateQueryException; WeaviateConnectionError], fun e =>
            print ("Error listing collections: " +:+ exn_repr e));
         (Exception, unexpected) ]).

Definition opt_str (o : option string) : pyval := of_opt_str o.

(** The dictionary built when [to_dict] fails. *)
Definition fallback_property (prop : PropertyConfig) : pyval :=
  PDict
    [ ("name", PStr (pc_name prop));
      ("dataType", match pc_data_type prop with
                   | inl dt => PStr dt
                   | inr dts => PList (map PStr dts)
                   end);
      ("description", pc_description prop);
      ("indexFilterable", pc_index_filterable prop);
      ("indexSearchable", pc_index_searchable prop);
      ("tokenization", opt_str (pc_tokenization prop));
      ("vectorizer_module", match pc_vectorizer_config prop with
                            | Some (v, _) => PStr v
                            | None => PStr "default"
                            end);
      ("vectorize_property_name", match pc_vectorizer_config prop with
                                  | Some (_, n) => n
                                  | None => PBool false
                                  end) ].

Definition fallback_dict (collection_config : CollectionConfig) : pyval :=
  PDict
    [ ("name", PStr (cc_name collection_config));
      ("description", cc_description collection_config);
      ("vectorizer", PStr (cc_vectorizer collection_config));
      ("vector_index_type", PStr (cc_vector_index_type collection_config));
      ("properties", PList (map fallback_property (cc_properties collection_config)));
      ("replication_config", match cc_replication_factor collection_config with
                             | Some f => PDict [("factor", f)]
                             | None => PNone
                             end);
      ("sharding_config", match cc_sharding_config collection_config with
                          | Some s => sharding_vars s
                          | None => PNone
                          end);
      ("inverted_index_config", default PNone (cc_inverted_index_vars collection_config)) ].

Definition config_dict_of (collection_config : CollectionConfig) : pyval :=
  match cc_to_dict collection_config with
  | Ok d => d
  | Raise _ => fallback_dict collection_config
  end.

Definition handle_collection_describe (a : args.t) : M unit :=
  connect a;;
  print ("Fetching details for collection '" +:+ args.name a +:+ "'...");;
  try_except
    (present ← client_call (fun c => collections_exists c (args.name a));
     if negb present then
       print ("Collection '" +:+ args.name a +:+ "' does not exist.")
     else
       collection_instance ← client_call (fun c => collections_get c (args.name a));
       collection_config ← call (config_get collection_instance);
       let config_dict := config_dict_of collection_config in
       print_json config_dict)
    (except
       [ ([WeaviateQueryException; WeaviateConnectionError], fun e =>
            print ("Error describing collection '" +:+ args.name a +:+ "': " +:+ exn_repr e));
         (Exception, fun e =>
            print ("An unexpected error occurred while describing collection '" +:+
                   args.name a +:+ "': " +:+ exn_type_name e +:+ " - " +:+ exn_repr e)) ]).

(** *** User (API key user_id) management *)

Definition repr_str_list (l : list string) : string :=
  repr_of (PList (map PStr l)).

Definition handle_user_create (a : args.t) : M unit :=
  connect a;;
  let user_id_to_create := args.user_id a in
  let roles_to_assign := or_empty (args.role a) in
  print ("Attempting to create API key for user_id '" +:+ user_id_to_create +:+ "'...");;
  try_except
    (existing_keys ← client_call users_db_list_all;
     let user_id_exists :=
       existsb (fun key => String.eqb (db_user_id key) user_id_to_create) existing_keys in
     (if user_id_exists && negb (args.recreate_api_key a) then
        print ("User_id '" +:+ user_id_to_create +:+
               "' already has an API key. Use --recreate-api-key to force.")
      else
        (if user_id_exists && args.recreate_api_key a then
           print ("  --recreate-api-key: Deleting existing API key for '" +:+
                  user_id_to_create +:+ "'...");;
           try_except
             (client_call (fun c => users_db_delete c user_id_to_create);;
              print ("  Deleted existing API key for '" +:+ user_id_to_create +:+ "'."))
             (except [(Exception, fun del_err =>
                         print ("  Warning: Failed to delete existing API key for '" +:+
                                user_id_to_create +:+ "': " +:+ exn_repr del_err))])
         else ret tt);;
        new_api_key_obj ← client_call (fun c => users_db_create c user_id_to_create);
        let key_str := default (key_str new_api_key_obj) (key new_api_key_obj) in
        print ("  SUCCESS: API key generated for user_id '" +:+ user_id_to_create +:+ "'.");;
        print ("  IMPORTANT: Store this API key securely: " +:+ key_str +:+
               " (This key is shown only once)."));;
     match roles_to_assign with
     | _ :: _ =>
         print ("  Assigning roles " +:+ repr_str_list roles_to_assign +:+
                " to user_id '" +:+ user_id_to_create +:+ "'...");;
         client_call (fun c => users_db_assign_roles c user_id_to_create roles_to_assign);;
         print ("  Successfully assigned roles to '" +:+ user_id_to_create +:+ "'.")
     | [] =>
         print ("  No roles specified to assign to user_id '" +:+ user_id_to_create +:+ "'.")
     end)
    (except
       [ ([WeaviateQueryException], fun e =>
            print ("Error processing user_id '" +:+ user_id_to_create +:+ "': " +:+
                   exn_repr e));
         (Exception, fun e =>
            print ("An unexpected error occurred while processing user_id '" +:+
                   user_id_to_create +:+ "': " +:+ exn_repr e)) ]).

Definition handle_user_delete (a : args.t) : M unit :=
  connect a;;
  let user_id_to_delete := args.user_id a in
  confirm ← read_input ("Are you sure you want to delete user_id '" +:+ user_id_to_delete +:+
                        "' and its API key(s)? This cannot be undone. (yes/no): ");
  if negb (String.eqb (lower confirm) "yes") then
    print "User_id deletion cancelled."
  else
    print ("Attempting to delete user_id '" +:+ user_id_to_delete +:+
           "' and its API key(s)...");;
    try_except
      (client_call (fun c => users_db_delete c user_id_to_delete);;
       print ("User_id '" +:+ user_id_to_delete +:+
              "' and associated API key(s) deleted successfully."))
      (except
         [ ([WeaviateQueryException], fun e =>
              if str_in "not found" (lower (exn_str e)) ||
                 str_in "not found" (lower (exn_message e))
              then print ("User_id '" +:+ user_id_to_delete +:+
                          "' not found. Nothing to delete.")
              else print ("Error deleting user_id '" +:+ user_id_to_delete +:+ "': " +:+
                          exn_repr e));
           (Exception, unexpected) ]).

Definition is_ItemStr (r : RoleItem) : bool :=
  match r with ItemStr _ => true | _ => false end.

(** [hasattr(r, 'name')] *)
Definition has_name (r : RoleItem) : bool :=
  match r with ItemRole _ => true | _ => false end.

Definition item_name (r : RoleItem) : string :=
  match r with ItemRole x => role_name x | ItemStr s => s | ItemOther s => s end.

(** [str(r)] *)
Definition item_str (r : RoleItem) : string :=
  match r with ItemRole x => role_str x | ItemStr s => s | ItemOther s => s end.

(** The body of the loop of [handle_user_list] for one key record. *)
Definition list_user (key_obj : UserDB) : M unit :=
  let user_id := db_user_id key_obj in
  assigned_roles ←
    try_except
      (roles_data ← client_call (fun c => users_db_get_assigned_roles c user_id);
       match rd_items roles_data with
       | [] => ret None
       | items =>
           if forallb is_ItemStr items then ret (Some (rd_repr roles_data))
           else if forallb has_name items then
             ret (Some (repr_str_list (map item_name items)))
           else
             print ("    Warning: Unexpected format for roles_data for user_id '" +:+
                    user_id +:+ "': " +:+ rd_repr roles_data +:+
                    ". Displaying as strings.");;
             ret (Some (repr_str_list (map item_str items)))
       end)
      (except [(Exception, fun role_err =>
                  print ("    Could not fetch roles for user_id '" +:+ user_id +:+ "': " +:+
                         exn_repr role_err);;
                  ret None)]);
  print ("  - User ID: " +:+ user_id +:+ ", Roles: " +:+ default "None" assigned_roles).

Definition handle_user_list (a : args.t) : M unit :=
  connect a;;
  print "Fetching list of user_ids with API keys and their assigned roles...";;
  try_except
    (api_keys_list ← client_call users_db_list_all;
     match api_keys_list with
     | _ :: _ =>
         print "User_IDs with API Keys:";;
         for_each api_keys_list list_user
     | [] => print "No user_ids with API keys found."
     end)
    (except
       [ ([WeaviateQueryException; WeaviateConnectionError], fun e =>
            print ("Error listing user_ids: " +:+ exn_repr e));
         (Exception, unexpected) ]).

Definition handle_user_update_roles (a : args.t) : M unit :=
  connect a;;
  let user_id_to_update := args.user_id a in
  let new_roles := or_empty (args.role a) in
  print ("Attempting to set roles for user_id '" +:+ user_id_to_update +:+ "' to: " +:+
         repr_str_list new_roles +:+ "...");;
  try_except
    (client_call (fun c => users_db_assign_roles c user_id_to_update new_roles);;
     print ("Roles for user_id '" +:+ user_id_to_update +:+ "' set successfully to: " +:+
            match new_roles with
            | [] => "None (all removed)"
            | _ => repr_str_list new_roles
            end +:+ "."))
    (except
       [ ([WeaviateQueryException], fun e =>
            print ("Error setting roles for user_id '" +:+ user_id_to_update +:+ "': " +:+
                   exn_repr e +:+ "."));
         (Exception, unexpected) ]).

(** *** Role management *)

Definition handle_role_create (a : args.t) : M unit :=
  connect a;;
  print ("Attempting to create role '" +:+ args.role_name a +:+ "'...");;
  try_except
    (already ← client_call (fun c => roles_exists c (args.role_name a));
     if already then
       print ("Role '" +:+ args.role_name a +:+ "' already exists. Skipping creation.")
     else
       let collection_patterns := args.collection_pattern a in
       let permissions_list :=
         [ Permissions_collections collection_patterns
             (args.allow_collection_create a) (args.allow_collection_read_config a)
             (args.allow_collection_update_config a) (args.allow_collection_delete a);
           Permissions_data collection_patterns
             (args.allow_data_create a) (args.allow_data_read a)
             (args.allow_data_update a) (args.allow_data_delete a) ] in
       print ("  Constructed permissions for role '" +:+ args.role_name a +:+ "':");;
       for_each permissions_list
         (fun p_obj => print ("    - " +:+ permission_str env p_obj));;
       client_call (fun c => roles_create c (args.role_name a) permissions_list);;
       print ("Role '" +:+ args.role_name a +:+ "' created successfully."))
    (except
       [ ([WeaviateQueryException], fun e =>
            print ("Error creating role '" +:+ args.role_name a +:+ "': " +:+ exn_message e));
         (Exception, fun e =>
            print ("An unexpected error occurred while creating role '" +:+
                   args.role_name a +:+ "': " +:+ exn_repr e)) ]).

Definition handle_role_delete (a : args.t) : M unit :=
  connect a;;
  confirm ← read_input ("Are you sure you want to delete role '" +:+ args.role_name a +:+
                        "'? This cannot be undone. (yes/no): ");
  if negb (String.eqb (lower confirm) "yes") then
    print "Role deletion cancelled."
  else
    print ("Attempting to delete role '" +:+ args.role_name a +:+ "'...");;
    try_except
      (client_call (fun c => roles_delete c (args.role_name a));;
       print ("Role '" +:+ args.role_name a +:+ "' deleted successfully."))
      (except
         [ ([WeaviateQueryException], fun e =>
              if str_in "not found" (lower (exn_message e))
              then print ("Role '" +:+ args.role_name a +:+ "' not found. Nothing to delete.")
              else print ("Error deleting role '" +:+ args.role_name a +:+ "': " +:+
                          exn_message e));
           (Exception, unexpected) ]).

(** [role.permissions]; a role object without the attribute raises. *)
Definition permissions_of (r : Role) : M (list string) :=
  match role_permissions r with
  | Some ps => ret ps
  | None => raise (py_error OtherException "AttributeError"
                     "object has no attribute 'permissions'")
  end.

Definition handle_role_get (a : args.t) : M unit :=
  connect a;;
  print ("Fetching details for role '" +:+ args.role_name a +:+ "'...");;
  try_except
    (role ← client_call (fun c => roles_get c (args.role_name a));
     match role with
     | Some role =>
         print ("Role Name: " +:+ role_name role);;
         print "Permissions:";;
         permissions ← permissions_of role;
         match permissions with
         | _ :: _ => for_each permissions (fun perm => print ("  - " +:+ perm))
         | [] => print "  - No permissions defined for this role."
         end
     | None => print ("Role '" +:+ args.role_name a +:+ "' not found.")
     end)
    (except
       [ ([WeaviateQueryException], fun e =>
            if str_in "not found" (lower (exn_message e))
            then print ("Role '" +:+ args.role_name a +:+ "' not found.")
            else print ("Error fetching role '" +:+ args.role_name a +:+ "': " +:+
                        exn_message e));
         (Exception, unexpected) ]).

Definition print_permissions (detailed : bool) (permissions_to_display : list string)
  : M unit :=
  if detailed then
    match permissions_to_display with
    | _ :: _ =>
        print "    Permissions:";;
        for_each permissions_to_display (fun perm => print ("      - " +:+ perm))
    | [] => print "    Permissions: None defined or could not be fetched."
    end
  else ret tt.

(** The body of the loop of [handle_role_list] for one item. *)
Definition list_role (detailed : bool) (role_item : RoleItem) : M unit :=
  match role_item with
  | ItemRole r =>
      let role_name_to_display := role_name r in
      let permissions_to_display := default [] (role_permissions r) in
      print (nl +:+ "  Role Name: " +:+ role_name_to_display);;
      print_permissions detailed permissions_to_display
  | ItemStr role_name_to_display =>
      permissions_to_display ←
        (if detailed then
           try_except
             (detailed_role ← client_call (fun c => roles_get c role_name_to_display);
              ret (match detailed_role with
                   | Some r => default [] (role_permissions r)
                   | None => []
                   end))
             (except [(Exception, fun detail_err =>
                         print ("    Could not fetch details for role '" +:+
                                role_name_to_display +:+ "': " +:+ exn_repr detail_err);;
                         ret [])])
         else ret []);
      print (nl +:+ "  Role Name: " +:+ role_name_to_display);;
      print_permissions detailed permissions_to_display
  | ItemOther r =>
      print ("  Unrecognized role item format: " +:+ r)
  end.

Definition handle_role_list (a : args.t) : M unit :=
  connect a;;
  print "Fetching all defined roles...";;
  try_except
    (all_roles_data ← client_call roles_list_all;
     match all_roles_data with
     | _ :: _ =>
         print "Defined Roles:";;
         for_each all_roles_data (list_role (args.detailed a))
     | [] => print "No roles defined on the server."
     end)
    (except
       [ ([WeaviateQueryException; WeaviateConnectionError], fun e =>
            print ("Error listing roles: " +:+ exn_repr e));
         (Exception, unexpected) ]).

(** *** main *)

Definition print_client_version : M unit :=
  try_except
    (v ← lift (weaviate_version env);
     print ("Using weaviate-client version: " +:+ v);;
     if negb (String.prefix "4." v)
     then print "WARNING: This script is designed for weaviate-client v4.x."
     else ret tt)
    (except [(Exception, fun e =>
                print ("Could not determine weaviate-client version: " +:+ exn_repr e))]).

Definition load_config_from_yaml (file_path : string) : M pyval :=
  try_except
    (config ← lift (yaml_safe_load env file_path);
     print ("Loaded configuration from " +:+ file_path);;
     ret (if truthy config then config else PDict []))
    (except
       [ ([FileNotFoundError], fun _ =>
            print ("Warning: Config file not found at " +:+ file_path +:+
                   ". Proceeding without it.");;
            ret (PDict []));
         ([YAMLError], fun e =>
            print ("Error parsing YAML config file " +:+ file_path +:+ ": " +:+
                   exn_repr e +:+ ". Proceeding without it.");;
            ret (PDict []));
         (Exception, fun e =>
            print ("Error loading config file " +:+ file_path +:+ ": " +:+
                   exn_repr e +:+ ". Proceeding without it.");;
            ret (PDict [])) ]).

(** [args.func(args)] *)
Definition dispatch (f : command) : args.t -> M unit :=
  match f with
  | Collection_create => handle_collection_create
  | Collection_delete => handle_collection_delete
  | Collection_list => handle_collection_list
  | Collection_describe => handle_collection_describe
  | User_create => handle_user_create
  | User_delete => handle_user_delete
  | User_list => handle_user_list
  | User_update_roles => handle_user_update_roles
  | Role_create => handle_role_create
  | Role_delete => handle_role_delete
  | Role_get => handle_role_get
  | Role_list => handle_role_list
  end.

(** [cli if cli is not None else config_from_file.get(key)] *)
Definition flag_or_config (cli config_from_file : pyval) (key : string) : M pyval :=
  if negb (is_None cli) then ret cli else dict_get config_from_file key PNone.

(** [os.environ.get("WEAVIATE_API_KEY", os.environ.get("WEAVIATE_ROOT_KEY"))] *)
Definition environ_api_key : pyval :=
  match environ env !! "WEAVIATE_API_KEY" with
  | Some k => PStr k
  | None => of_opt_str (environ env !! "WEAVIATE_ROOT_KEY")
  end.

(** The block [if not args.root_key: ...] of [main]; the value is the
    namespace afterwards. *)
Definition require_root_key (a : args.t) : M args.t :=
  if negb (truthy (args.root_key a)) then
    let a := args.with_root_key a environ_api_key in
    if negb (truthy (args.root_key a)) then
      print "Weaviate API key not provided via CLI, config file, or environment variables.";;
      k ← try_except (read_getpass "Enter Weaviate Admin API Key: ")
            (except [(Exception, fun e =>
                        print ("Error reading API key: " +:+ exn_repr e);;
                        close_connection;;
                        exit 1)]);
      let a := args.with_root_key a (PStr k) in
      if negb (truthy (args.root_key a)) then
        print "Error: Admin API Key is required for this command.";;
        close_connection;;
        exit 1
      else ret a
    else ret a
  else ret a.

(** The merge of the command line with the configuration file. *)
Definition merge_config (a : args.t) : M args.t :=
  config_from_file ←
    (if str_truthy (args.config_file a)
     then load_config_from_yaml (default EmptyString (args.config_file a))
     else ret (PDict []));
  final_url ← flag_or_config (args.url a) config_from_file "weaviate_url";
  final_api_key ←
    (if negb (is_None (args.root_key a)) then ret (args.root_key a)
     else
       root_key ← dict_get config_from_file "root_key" PNone;
       dict_get config_from_file "api_key" root_key);
  final_grpc_host ← flag_or_config (args.grpc_host a) config_from_file "grpc_host";
  final_grpc_port ← flag_or_config (args.grpc_port a) config_from_file "grpc_port";
  ret (args.with_connection a final_url final_api_key final_grpc_host final_grpc_port).

Definition main (a : args.t) : M unit :=
  print_client_version;;
  a ← merge_config a;
  a ← require_root_key a;
  try_finally (dispatch (args.func a) a) close_connection.

End program.

(** ** Running the process *)

(** The state of a fresh interpreter: [client = None], nothing has happened. *)
Definition initial_world : world := mk_world None [].

Definition run (env : Env) (a : args.t) : outcome unit * world :=
  main env a initial_world.

(** The exit status of the process: 0 when [main] returns, the argument of
    [exit], and 1 when an exception reaches the top level. *)
Definition exit_status {A : Type} (o : outcome A) : Z :=
  match o with
  | Normal _ => 0
  | Raised _ => 1
  | Exited code => code
  end.

(** ** The property parser, in the words of its description

    An entry is valid when it contains a [':'] and the part after the first
    [':'], uppercased, names a known data type; the parser yields the valid
    entries in input order, or [None] when there is none, and warns once for
    each other entry. *)

Section parse_properties_spec.
Context (env : Env).

(** The data types the module names. *)
Definition listed_data_types : list (string * DataType.t) :=
  [ ("TEXT", DataType.TEXT); ("INT", DataType.INT); ("NUMBER", DataType.NUMBER);
    ("BOOL", DataType.BOOL); ("DATE", DataType.DATE); ("UUID", DataType.UUID);
    ("TEXT_ARRAY", DataType.TEXT_ARRAY); ("INT_ARRAY", DataType.INT_ARRAY);
    ("NUMBER_ARRAY", DataType.NUMBER_ARRAY); ("BOOL_ARRAY", DataType.BOOL_ARRAY);
    ("DATE_ARRAY", DataType.DATE_ARRAY); ("UUID_ARRAY", DataType.UUID_ARRAY);
    ("GEO_COORDINATES", DataType.GEO_COORDINATES);
    ("PHONE_NUMBER", DataType.PHONE_NUMBER); ("BLOB", DataType.BLOB) ].

(** A known data type: one of the listed names, or another member of the
    library's enumeration. *)
Definition known_data_type (u : string) : option DataType.t :=
  match List.find (fun kv => String.eqb u (fst kv)) listed_data_types with
  | Some kv => Some (snd kv)
  | None => DataType_getattr env u
  end.

(** The name part and the data-type part of an entry with a separator. *)
Definition entry_parts (s : string) : option (string * string) :=
  match String.index 0 ":" s with
  | Some i => Some (substring 0 i s, substring (S i) (String.length s - S i) s)
  | None => None
  end.

Definition valid_entry (s : string) : option Property :=
  match entry_parts s with
  | Some (name, data_type) =>
      match known_data_type (upper data_type) with
      | Some dt => Some (mk_Property name dt)
      | None => None
      end
  | None => None
  end.

Definition entry_warning (s : string) : option string :=
  match entry_parts s with
  | Some (name, data_type) =>
      match known_data_type (upper data_type) with
      | Some _ => None
      | None => Some (unknown_type_warning data_type name)
      end
  | None => Some (invalid_format_warning s)
  end.

Definition parse_properties_spec (props : option (list string))
  : option (list Property) :=
  match omap valid_entry (or_empty props) with
  | [] => None
  | ps => Some ps
  end.

Definition parse_properties_warnings (props : option (list string)) : list event :=
  map Print (omap entry_warning (or_empty props)).
End parse_properties_spec.

(** * Specification vocabulary

    Predicates on events and computations, the phases of a run, and the test
    doubles used in the examples. *)

Definition log (w : world) (evs : list event) : world :=
  mk_world (client w) (trace w ++ evs).

(** [m] only adds events, and each event it adds satisfies [Q]. *)
Definition emits {A : Type} (Q : event -> Prop) (m : M A) : Prop :=
  forall w, exists evs, trace (m w).2 = trace w ++ evs /\ Forall Q evs.

Definition outcome_ok {A : Type} (allow_raise : bool) (o : outcome A) : Prop :=
  match o with
  | Normal _ => True
  | Raised _ => allow_raise = true
  | Exited _ => False
  end.

(** [m] leaves the module-level handle alone and, run with a handle in place,
    never leaves the process; it raises only if [allow_raise]. *)
Definition keeps {A : Type} (allow_raise : bool) (m : M A) : Prop :=
  forall w, client (m w).2 = client w /\
            (is_Some (client w) -> outcome_ok allow_raise (m w).1).

(** Every clause of an [except] chain satisfies [P]. *)
Fixpoint all_clauses {A : Type} (P : M A -> Prop)
    (clauses : list (list exn_kind * (exn -> M A))) : Prop :=
  match clauses with
  | [] => True
  | (_, h) :: r => (forall e, P (h e)) /\ all_clauses P r
  end.

(** The last clause of the chain is [except Exception]. *)
Fixpoint catches_all {A : Type} (clauses : list (list exn_kind * (exn -> M A))) : Prop :=
  match clauses with
  | [] => False
  | (ks, _) :: r => ks = Exception \/ catches_all r
  end.

(** The events of connection management. *)
Definition connection_event (ev : event) : Prop :=
  match ev with
  | Print _ | Assign _ => True
  | Call (connect_to_custom p) => additional_config p = the_additional_config
  | Call (is_connected _) | Call (is_ready _) | Call (is_live _) | Call (close _) => True
  | _ => False
  end.


Definition assigns_handle (ev : event) : bool :=
  match ev with
  | Assign (Some _) => true
  | _ => false
  end.

(** Printed lines and [client = None]. *)
Definition quiet_event (ev : event) : Prop :=
  match ev with
  | Print _ | Assign None => True
  | _ => False
  end.

(** No assignment of a client object to the handle. *)
Definition no_handle (evs : list event) : Prop :=
  Forall (fun ev => assigns_handle ev = false) evs.

(** [m] prints, and nothing else. *)
Definition only_prints (m : M unit) : Prop :=
  forall w, exists evs,
    m w = (Normal tt, mk_world (client w) (trace w ++ evs)) /\ Forall quiet_event evs.

(** With no handle in place, [m] prints, records [client = None] and exits. *)
Definition gives_up {A} (m : M A) : Prop :=
  forall w, client w = None ->
    exists evs, m w = (Exited 1, mk_world None (trace w ++ evs)) /\ Forall quiet_event evs.

Definition connect_result (w : world) (r : outcome WeaviateClient * world) : Prop :=
  exists evs, trace r.2 = trace w ++ evs /\
    match r.1 with
    | Normal c =>
        client r.2 = Some c /\
        exists evs', evs = evs' ++ [Assign (Some c);
                                    Print "Successfully connected to Weaviate."] /\
                     no_handle evs'
    | Raised _ => client r.2 = None /\ no_handle evs
    | Exited code => code = 1%Z /\ client r.2 = None /\ no_handle evs
    end.

Definition is_print (ev : event) : Prop :=
  match ev with Print _ => True | _ => False end.

(** [m] prints and then ends as [r] says, whatever the world. *)
Definition yields {A : Type} (m : M A) (r : result A) : Prop :=
  forall w, exists evs,
    m w = (match r with Ok a => Normal a | Raise e => Raised e end,
           mk_world (client w) (trace w ++ evs)) /\
    Forall is_print evs.

(** The configuration [main] works with: the loaded file, or [{}]. *)
Definition config_of (env : Env) (a : args.t) : pyval :=
  match args.config_file a with
  | Some f =>
      if String.eqb f EmptyString then PDict []
      else match yaml_safe_load env f with
           | Ok v => if truthy v then v else PDict []
           | Raise _ => PDict []
           end
  | None => PDict []
  end.

(** [config.get(key)], as a value or the [AttributeError]. *)
Definition config_get_value (cfg : pyval) (key : string) (dflt : pyval) : result pyval :=
  match cfg with
  | PDict items => Ok (default dflt (assoc_get key items))
  | _ => Raise (py_error OtherException "AttributeError" "object has no attribute 'get'")
  end.

(** The value the configuration file gives for a key: [None] when the key is
    missing. *)
Definition yaml_value (cfg : pyval) (key : string) : pyval :=
  match cfg with
  | PDict items => default PNone (assoc_get key items)
  | _ => PNone
  end.

(** The file's API key: [api_key] when that key is there, else [root_key]. *)
Definition yaml_api_key (cfg : pyval) : pyval :=
  match cfg with
  | PDict items => default (default PNone (assoc_get "root_key" items)) (assoc_get "api_key" items)
  | _ => PNone
  end.

(** The first value of the list that is given, that is, not [None]. *)
Definition first_given (l : list pyval) : pyval :=
  default PNone (List.find (fun v => negb (is_None v)) l).

(** The configuration can be queried: it is a mapping, or no query is made
    because all four flags are given. *)
Definition config_usable (cfg : pyval) (a : args.t) : bool :=
  match cfg with
  | PDict _ => true
  | _ => negb (is_None (args.url a)) && negb (is_None (args.root_key a)) &&
         negb (is_None (args.grpc_host a)) && negb (is_None (args.grpc_port a))
  end.

(** The namespace after the merge, in the words of the precedence rule. *)
Definition merged (env : Env) (a : args.t) : args.t :=
  let cfg := config_of env a in
  args.with_connection a
    (first_given [args.url a; yaml_value cfg "weaviate_url"])
    (first_given [args.root_key a; yaml_api_key cfg])
    (first_given [args.grpc_host a; yaml_value cfg "grpc_host"])
    (first_given [args.grpc_port a; yaml_value cfg "grpc_port"]).

Definition api_key_prompt : string := "Enter Weaviate Admin API Key: ".

(** Everything [main] does before it calls the handler, from a fresh
    interpreter: the version banner, the merge, the API key. *)
Definition startup (env : Env) (a : args.t) : outcome args.t * world :=
  (print_client_version env;;
   a ← merge_config env a;
   require_root_key env a) initial_world.

(** What the start-up phase may add to the trace. *)
Definition startup_event (ev : event) : Prop :=
  match ev with
  | Print _ | Getpass _ => True
  | _ => False
  end.

(** The API key the handlers get, by precedence: the merged value, then the
    environment, then the prompt read at event [n]; [None] when all fail. *)
Definition key_by_precedence (env : Env) (a : args.t) (n : nat) : option pyval :=
  let merged_key := args.root_key (merged env a) in
  if truthy merged_key then Some merged_key
  else if truthy (environ_api_key env) then Some (environ_api_key env)
  else match getpass env n api_key_prompt with
       | Ok s => if String.eqb s EmptyString then None else Some (PStr s)
       | Raise _ => None
       end.

(** What a handler adds to the trace after connecting: no connection
    management and no assignment to the handle. *)
Definition body_event (ev : event) : Prop :=
  match ev with
  | Assign _ => False
  | Call (connect_to_custom _) | Call (is_connected _) | Call (is_ready _)
  | Call (is_live _) | Call (close _) => False
  | _ => True
  end.

(** The steps a handler takes outside its [try] blocks do not raise: the
    confirmation of a delete command can be read; for [collection create]
    the existence check answers and the vectoriser options, when used, are a
    mapping. *)
Definition options_usable (a : args.t) : Prop :=
  match args.vectorizer_options a with
  | PDict _ => True
  | v => truthy v = false
  end.

Definition unguarded_steps_succeed (env : Env) (a : args.t) : Prop :=
  match args.func a with
  | Collection_delete | User_delete | Role_delete =>
      forall n p, exists s, input env n p = Ok s
  | Collection_create =>
      (forall n c, exists b, sdk env bool n (collections_exists c (args.name a)) = Ok b) /\
      options_usable a
  | _ => True
  end.

(** [ev] is the call [c.close()]. *)
Definition is_close_of (c : WeaviateClient) (ev : event) : bool :=
  match ev with
  | Call (close c') => Nat.eqb (client_id c) (client_id c')
  | _ => false
  end.

(** Every client object stored in the module-level handle has [close] called
    on it later in the trace. *)
Fixpoint all_closed (tr : list event) : bool :=
  match tr with
  | [] => true
  | Assign (Some c) :: r => existsb (is_close_of c) r && all_closed r
  | _ :: r => all_closed r
  end.

(** A value [a] that [m] can return. *)
Definition returns {A : Type} (m : M A) (a : A) : Prop :=
  exists w, (m w).1 = Normal a.

(** A call that acts on the database, as opposed to one that manages the
    connection. *)
Definition handler_call (ev : event) : bool :=
  match ev with
  | Call (connect_to_custom _) | Call (is_connected _) | Call (is_ready _)
  | Call (is_live _) | Call (close _) => false
  | Call _ => true
  | _ => false
  end.

Definition is_delete_call (ev : event) : bool :=
  match ev with
  | Call (collections_delete _ _) | Call (users_db_delete _ _) | Call (roles_delete _ _) => true
  | _ => false
  end.

Definition destructive (cmd : command) : bool :=
  match cmd with
  | Collection_delete | User_delete | Role_delete => true
  | _ => false
  end.

(** The user never answers a prompt with a string whose lowercase is [yes]. *)
Definition never_confirms (env : Env) : Prop :=
  forall n p s, input env n p = Ok s -> lower s <> "yes".

Definition no_handler_call (ev : event) : Prop := handler_call ev = false.

(** No API key after the flag, the file, the environment and the prompt:
    the start-up phase leaves the process. *)
Definition credential_missing (env : Env) (a : args.t) : Prop :=
  exists code w, startup env a = (Exited code, w).


Definition example_urlparse (s : string) : result ParseResult :=
  if String.eqb s "http://localhost:8080"
  then Ok (mk_ParseResult "http" (Some "localhost") (Ok (Some 8080%Z)))
  else if String.eqb s "https://db.example.com"
  then Ok (mk_ParseResult "https" (Some "db.example.com") (Ok None))
  else Ok (mk_ParseResult EmptyString None (Ok None)).

Definition the_connection : WeaviateClient := mk_client 1.

Definition example_config : CollectionConfig :=
  mk_CollectionConfig
    (Ok (PDict [("class", PStr "Article"); ("vectorizer", PStr "none")]))
    "Article" (PStr "News articles") "none" "hnsw" [] None None None.

Definition forbidden : exn :=
  mk_exn OtherException "InsufficientPermissionsError"
    "InsufficientPermissionsError('forbidden')" "forbidden" "forbidden" None.


(** A server on which every call succeeds. *)
Definition healthy_server (R : Type) (n : nat) (c : sdk_call R) : result R :=
  match c in sdk_call R return result R with
  | connect_to_custom _ => Ok the_connection
  | is_connected _ => Ok true
  | is_ready _ => Ok true
  | is_live _ => Ok true
  | close _ => Ok tt
  | collections_exists _ _ => Ok true
  | collections_create _ _ => Ok tt
  | collections_delete _ _ => Ok tt
  | collections_list_all _ _ => Ok [("Article", mk_Collection "Article")]
  | collections_get _ name => Ok (mk_Collection name)
  | config_get _ => Ok example_config
  | users_db_list_all _ => Ok [mk_UserDB "alice"; mk_UserDB "bob"]
  | users_db_delete _ _ => Ok tt
  | users_db_create _ _ => Ok (mk_NewApiKey None "secret-key")
  | users_db_assign_roles _ _ _ => Ok tt
  | users_db_get_assigned_roles _ _ => Ok (mk_RolesData [ItemStr "viewer"] "['viewer']")
  | roles_exists _ _ => Ok false
  | roles_create _ _ _ => Ok tt
  | roles_delete _ _ => Ok tt
  | roles_get _ name => Ok (Some (mk_Role name (Some ["read"]) name))
  | roles_list_all _ => Ok [ItemStr "viewer"]
  end.

(** The same server, except that the existence check of a collection is
    refused. *)
Definition refusing_server (R : Type) (n : nat) (c : sdk_call R) : result R :=
  match c in sdk_call R return result R with
  | collections_exists _ _ => Raise forbidden
  | c => healthy_server _ n c
  end.


Definition example_env (server : forall R : Type, nat -> sdk_call R -> result R)
    (answer : result string) (environment : gmap string string) : Env :=
  mk_Env server (Ok "4.14.1") example_urlparse (fun _ => None)
    (fun _ => Raise (py_error FileNotFoundError "FileNotFoundError" "no such file"))
    environment (fun _ _ => answer) (fun _ _ => Ok EmptyString)
    (fun _ _ => "0.0") (fun _ => "Permission").

(** [--url http://localhost:8080 --root-key admin-key <command>] with the
    options of the command. *)
Definition example_args (cmd : command) : args.t :=
  args.mk None (PStr "http://localhost:8080") (PStr "admin-key") PNone PNone true cmd
    "Article" EmptyString (Some ["title:text"; "body"]) None PNone None None None
    false "alice" (Some ["viewer"]) "viewer" ["*"]
    false true false false false true false false.






(** The calls to [connect_to_custom] in a trace. *)
Definition connect_attempts (tr : list event) : list ConnectParams :=
  omap (fun ev => match ev with
                  | Call (connect_to_custom p) => Some p
                  | _ => None
                  end) tr.


Definition local_attempt : ConnectParams :=
  mk_ConnectParams "localhost" 8080 false (PStr "localhost") (PInt 50051) false
    (Some (PStr "admin-key")) the_additional_config.

(** The API key of the merge: the flag, else the file. *)
Definition merged_key (env : Env) (a : args.t) : pyval :=
  first_given [args.root_key a; yaml_api_key (config_of env a)].

(** The claim as written, for the URL: some environment variable supplies
    the URL when neither the flag nor the file does. *)
Definition url_from_environment : Prop :=
  exists var : string,
    forall env a a' w v,
      startup env a = (Normal a', w) ->
      args.url a = PNone ->
      yaml_value (config_of env a) "weaviate_url" = PNone ->
      environ env !! var = Some v ->
      args.url a' = PStr v.

Definition no_url_args : args.t :=
  args.with_connection (example_args Collection_list) PNone (PStr "admin-key") PNone PNone.


Definition is_json (ev : event) : bool :=
  match ev with PrintJson _ => true | _ => false end.

(** The number of calls on the database in a stretch of the trace. *)
Definition handler_calls (evs : list event) : nat :=
  length (List.filter handler_call evs).

(** [m] issues at most [n] calls on the database. *)
Definition within {A : Type} (n : nat) (m : M A) : Prop :=
  forall w, exists evs, trace (m w).2 = trace w ++ evs /\ handler_calls evs <= n.

(** The largest number of calls each handler issues on the database after
    connecting; a list handler issues one more for each listed item. *)
Definition call_budget (cmd : command) : nat :=
  match cmd with
  | Collection_create => 2
  | Collection_delete => 1
  | Collection_list => 1
  | Collection_describe => 3
  | User_create => 4
  | User_delete => 1
  | User_list => 1
  | User_update_roles => 1
  | Role_create => 2
  | Role_delete => 1
  | Role_get => 1
  | Role_list => 1
  end.

(** The listing call of a list handler returned [items] items. *)
Definition listed (env : Env) (a : args.t) (cmd : command) (items : nat) : Prop :=
  match cmd with
  | Collection_list =>
      exists n c l, sdk env _ n (collections_list_all c (negb (args.detailed a))) = Ok l /\
                    items = length l
  | User_list => exists n c l, sdk env _ n (users_db_list_all c) = Ok l /\ items = length l
  | Role_list => exists n c l, sdk env _ n (roles_list_all c) = Ok l /\ items = length l
  | _ => False
  end.

Definition budgeted (env : Env) (a : args.t) (cmd : command) (m : M unit) : Prop :=
  forall w, exists evs,
    trace (m w).2 = trace w ++ evs /\
    (handler_calls evs <= call_budget cmd \/
     exists items, listed env a cmd items /\ handler_calls evs <= 1 + items).

Definition healthy_env : Env := example_env healthy_server (Ok "no") ∅.
Definition refusing_env : Env := example_env refusing_server (Ok "no") ∅.

(** A server whose readiness probe raises. *)
Definition unprobed_server (R : Type) (n : nat) (c : sdk_call R) : result R :=
  match c in sdk_call R return result R with
  | is_ready _ => Raise forbidden
  | c => healthy_server _ n c
  end.

(** ** Vocabulary of the further properties

    Connection attempts and runs in detail, what the handlers send to the
    database, and more test doubles. *)

(** The keyword arguments [connect_to_weaviate] passes to
    [connect_to_custom], given its API key and its locals. *)
Definition connect_params (api_key : pyval) (l : locals) : ConnectParams :=
  mk_ConnectParams (l_http_host l) (l_http_port l) (l_http_secure l)
    (l_grpc_host_to_use l) (l_grpc_port_to_use l) (l_grpc_secure_to_use l)
    (if truthy api_key then Some api_key else None) the_additional_config.

(** What one connection attempt adds to the trace, when the call to
    [connect_to_custom] is event number [n]; [o] is how the attempt ends and
    [handle] the module-level handle afterwards. *)
Definition connect_attempt (env : Env) (n : nat) (params : ConnectParams)
    (o : outcome WeaviateClient) (handle : option WeaviateClient)
    (evs : list event) : Prop :=
  exists line1 line2 tail,
    evs = Print line1 :: Print line2 :: Call (connect_to_custom params) :: tail /\
    match sdk env WeaviateClient n (connect_to_custom params) with
    | Raise _ => Forall quiet_event tail /\ o = Exited 1 /\ handle = None
    | Ok new =>
        exists tail', tail = Call (is_ready new) :: tail' /\
          match sdk env bool (S n) (is_ready new) with
          | Raise _ => Forall quiet_event tail' /\ o = Exited 1 /\ handle = None
          | Ok true =>
              tail' = [Assign (Some new); Print "Successfully connected to Weaviate."] /\
              o = Normal new /\ handle = Some new
          | Ok false =>
              exists line3 line4 tail'',
                tail' = Print line3 :: Call (is_live new) :: Print line4 ::
                        Call (close new) :: tail'' /\
                Forall quiet_event tail'' /\ o = Exited 1 /\ handle = None
          end
    end.

(** The anatomy of a run that got past the start-up phase with the API key
    [key]: the announcement of the connection, then either nothing but
    printing (the URL was rejected), or one connection attempt [evs1], and
    after a successful attempt the handler's own events followed by the
    closing of the connection. *)
Definition run_after_startup (env : Env) (key : pyval) (evs0 : list event)
    (r : outcome unit * world) : Prop :=
  exists line evs1,
    (trace r.2 = evs0 ++ Print line :: evs1 /\ Forall quiet_event evs1 /\ r.1 = Exited 1) \/
    exists l o hd evs2,
      connect_attempt env (length evs0 + 3) (connect_params key l) o hd evs1 /\
      trace r.2 = evs0 ++ Print line :: evs1 ++ evs2 /\
      match o with
      | Normal c =>
          exists body evs3,
            evs2 = body ++ Call (close c) :: evs3 /\
            Forall body_event body /\ Forall quiet_event evs3
      | Raised _ => False
      | Exited code => evs2 = [] /\ r.1 = Exited code
      end.

Definition is_connect_call (ev : event) : bool :=
  match ev with
  | Call (connect_to_custom _) => true
  | _ => false
  end.

Definition is_call (ev : event) : bool :=
  match ev with
  | Call _ => true
  | _ => false
  end.

(** Every client object that [connect_to_custom] returned has [close] called
    on it later in the trace; [n] is the number of the first event of [tr]. *)
Fixpoint clients_closed (env : Env) (n : nat) (tr : list event) : bool :=
  match tr with
  | [] => true
  | ev :: r =>
      match ev with
      | Call (connect_to_custom p) =>
          match sdk env WeaviateClient n (connect_to_custom p) with
          | Ok c => existsb (is_close_of c) r
          | Raise _ => true
          end
      | _ => true
      end && clients_closed env (S n) r
  end.

(** The readiness probe answers, with true or false. *)
Definition probe_answers (env : Env) : Prop :=
  forall n c, exists ready, sdk env bool n (is_ready c) = Ok ready.

(** A connection attempt carries the API key that the precedence rule
    yields. *)
Definition authenticated (env : Env) (a : args.t) (ev : event) : Prop :=
  match ev with
  | Call (connect_to_custom p) =>
      exists n key, key_by_precedence env a n = Some key /\ truthy key = true /\
                    auth_credentials p = Some key
  | _ => True
  end.

(** [--url http://localhost:8080 collection list]: no key on the command line,
    no configuration file. *)
Definition keyless_args : args.t :=
  args.with_connection (example_args Collection_list)
    (PStr "http://localhost:8080") PNone PNone PNone.

(** [parse_http_url_details] raises on [url]: [urlparse] fails, the scheme is
    neither [http] nor [https], there is no host, or the port is malformed. *)
Definition url_rejected (env : Env) (url : pyval) : bool :=
  match py_urlparse env url with
  | Raise _ => true
  | Ok parsed =>
      negb (String.eqb (lower (scheme parsed)) "http" ||
            String.eqb (lower (scheme parsed)) "https") ||
      match hostname parsed with
      | None | Some EmptyString => true
      | Some _ => false
      end ||
      match port parsed with
      | Raise _ => true
      | Ok _ => false
      end
  end.

(** A world in which the handle holds a client. *)
Definition connected_world : world := mk_world (Some the_connection) [].

(** An environment whose configuration file holds a YAML list. *)
Definition list_config_env : Env :=
  mk_Env healthy_server (Ok "4.14.1") example_urlparse (fun _ => None)
    (fun _ => Ok (PList [PStr "weaviate_url"]))
    ∅ (fun _ _ => Ok "no") (fun _ _ => Ok EmptyString)
    (fun _ _ => "0.0") (fun _ => "Permission").

(** [--config-file settings.yaml --root-key admin-key collection list] *)
Definition config_file_args : args.t :=
  args.mk (Some "settings.yaml") PNone (PStr "admin-key") PNone PNone false Collection_list
    "Article" EmptyString None None PNone None None None
    false "alice" None "viewer" ["*"]
    false false false false false false false false.

(** [WEAVIATE_API_KEY] is set to the empty string, [WEAVIATE_ROOT_KEY] to a
    key; the user types a key at the prompt. *)
Definition empty_variable_env : Env :=
  mk_Env healthy_server (Ok "4.14.1") example_urlparse (fun _ => None)
    (fun _ => Raise (py_error FileNotFoundError "FileNotFoundError" "no such file"))
    (<["WEAVIATE_API_KEY" := EmptyString]> {["WEAVIATE_ROOT_KEY" := "root-key"]})
    (fun _ _ => Ok "no") (fun _ _ => Ok "typed-key")
    (fun _ _ => "0.0") (fun _ => "Permission").

(** What a run may read from the terminal: the API key, with [getpass], when
    neither the command line, the file nor the environment gives one; and
    the confirmation of a delete command, with [input]. *)
Definition terminal_read_allowed (env : Env) (a : args.t) (ev : event) : Prop :=
  match ev with
  | Input _ => destructive (args.func a) = true
  | Getpass p =>
      p = api_key_prompt /\
      truthy (args.root_key (merged env a)) = false /\
      truthy (environ_api_key env) = false
  | _ => True
  end.

(** The terminal reads of a handler: a delete command reads its
    confirmation, and no handler uses [getpass]. *)
Definition handler_read (cmd : command) (ev : event) : Prop :=
  match ev with
  | Input _ => destructive cmd = true
  | Getpass _ => False
  | _ => True
  end.

(** A call that changes the database names the object given on the command
    line: [--name], [--user-id] with the [--role] list, [--role-name]. *)
Definition targets (a : args.t) (ev : event) : Prop :=
  match ev with
  | Call (collections_create _ p) => cp_name p = args.name a
  | Call (collections_delete _ name) => name = args.name a
  | Call (users_db_delete _ uid) => uid = args.user_id a
  | Call (users_db_create _ uid) => uid = args.user_id a
  | Call (users_db_assign_roles _ uid role_names) =>
      uid = args.user_id a /\ role_names = or_empty (args.role a)
  | Call (roles_create _ name _) => name = args.role_name a
  | Call (roles_delete _ name) => name = args.role_name a
  | _ => True
  end.

(** A create call comes after an existence check, for the same name, that
    answered false. *)
Definition created_after_check (env : Env) (ev : event) : Prop :=
  match ev with
  | Call (collections_create _ p) =>
      exists n c, sdk env bool n (collections_exists c (cp_name p)) = Ok false
  | Call (roles_create _ name _) =>
      exists n c, sdk env bool n (roles_exists c name) = Ok false
  | _ => True
  end.

(** [user create] deletes a key only under [--recreate-api-key], and only
    for a user that the listing shows. *)
Definition deletes_to_recreate (env : Env) (a : args.t) (ev : event) : Prop :=
  match ev with
  | Call (users_db_delete _ uid) =>
      args.recreate_api_key a = true /\
      exists n c keys,
        sdk env (list UserDB) n (users_db_list_all c) = Ok keys /\
        existsb (fun key => String.eqb (db_user_id key) uid) keys = true
  | _ => True
  end.

(** The two permissions [role create] builds from the command line. *)
Definition permissions_of_flags (a : args.t) : list Permission :=
  [ Permissions_collections (args.collection_pattern a)
      (args.allow_collection_create a) (args.allow_collection_read_config a)
      (args.allow_collection_update_config a) (args.allow_collection_delete a);
    Permissions_data (args.collection_pattern a)
      (args.allow_data_create a) (args.allow_data_read a)
      (args.allow_data_update a) (args.allow_data_delete a) ].

Definition grants_what_was_asked (a : args.t) (ev : event) : Prop :=
  match ev with
  | Call (roles_create _ _ permissions) => permissions = permissions_of_flags a
  | _ => True
  end.




(** Every confirmation prompt is answered with a string that reads [yes]
    once lowercased. *)
Definition always_confirms (env : Env) : Prop :=
  forall n p, exists s, input env n p = Ok s /\ lower s = "yes".

(** The delete call of a delete command, on the client [c]. *)
Definition delete_call (a : args.t) (c : WeaviateClient) : event :=
  match args.func a with
  | Collection_delete => Call (collections_delete c (args.name a))
  | User_delete => Call (users_db_delete c (args.user_id a))
  | _ => Call (roles_delete c (args.role_name a))
  end.

(** What [user list] adds to the trace for one user: the lookup of the
    user's roles, possibly a warning, and the line of the user. *)
Definition user_block (c : WeaviateClient) (u : UserDB) (block : list event) : Prop :=
  exists notes roles,
    block = Call (users_db_get_assigned_roles c (db_user_id u)) :: notes ++
            [Print ("  - User ID: " +:+ db_user_id u +:+ ", Roles: " +:+ roles)] /\
    Forall is_print notes.

(** [m] prints and returns, with the handle [c] in place before and after. *)
Definition prints_with (c : WeaviateClient) (m : M unit) : Prop :=
  forall w, client w = Some c ->
    exists evs, m w = (Normal tt, mk_world (Some c) (trace w ++ evs)) /\ Forall is_print evs.

(** A server that knows no user role and an answer in capitals. *)
Definition confirming_env : Env := example_env healthy_server (Ok "YES") ∅.

(** [user create] assigns roles only to a user that has a key: the key was
    just created, or the user was listed and the key was left alone. *)
Definition assigns_to_keyed_user (env : Env) (a : args.t) (ev : event) : Prop :=
  match ev with
  | Call (users_db_assign_roles _ uid _) =>
      (args.recreate_api_key a = false /\
       exists n c keys,
         sdk env (list UserDB) n (users_db_list_all c) = Ok keys /\
         existsb (fun key => String.eqb (db_user_id key) uid) keys = true) \/
      (exists n c new_key, sdk env NewApiKey n (users_db_create c uid) = Ok new_key)
  | _ => True
  end.

Definition is_close_call (ev : event) : bool :=
  match ev with
  | Call (close _) => true
  | _ => false
  end.

(** A call that only reads asks about what the command line names, or about
    an item of the listing that the run obtained. *)
Definition lookup_as_asked (env : Env) (a : args.t) (ev : event) : Prop :=
  match ev with
  | Call (collections_exists _ name) => name = args.name a
  | Call (collections_get _ name) =>
      name = args.name a /\
      exists n c, sdk env bool n (collections_exists c name) = Ok true
  | Call (roles_exists _ name) => name = args.role_name a
  | Call (collections_list_all _ simple) => simple = negb (args.detailed a)
  | Call (config_get col) =>
      match args.func a with
      | Collection_describe =>
          exists n c, sdk env Collection n (collections_get c (args.name a)) = Ok col
      | Collection_list =>
          args.detailed a = true /\
          exists n c l,
            sdk env (list (string * Collection)) n (collections_list_all c false) = Ok l /\
            In col (map snd l)
      | _ => False
      end
  | Call (roles_get _ name) =>
      match args.func a with
      | Role_get => name = args.role_name a
      | Role_list =>
          args.detailed a = true /\
          exists n c l,
            sdk env (list RoleItem) n (roles_list_all c) = Ok l /\ In (ItemStr name) l
      | _ => False
      end
  | Call (users_db_get_assigned_roles _ uid) =>
      exists n c l,
        sdk env (list UserDB) n (users_db_list_all c) = Ok l /\
        In uid (map db_user_id l)
  | _ => True
  end.

(** A server on which the client of the handle reports that it is not
    connected. *)
Definition stale_server (R : Type) (n : nat) (c : sdk_call R) : result R :=
  match c in sdk_call R return result R with
  | is_connected _ => Ok false
  | c => healthy_server _ n c
  end.

Definition stale_env : Env := example_env stale_server (Ok "no") ∅.

(** The run got a client from [connect_to_custom], at event [n], and the
    client's readiness probe returned true. *)
Definition connected_and_ready (env : Env) (tr : list event) : Prop :=
  exists n p c,
    tr !! n = Some (Call (connect_to_custom p)) /\
    sdk env WeaviateClient n (connect_to_custom p) = Ok c /\
    sdk env bool (S n) (is_ready c) = Ok true.

(** * Proofs *)

Section emits.
Context (Q : event -> Prop).

Lemma emits_ret {A} (a : A) : emits Q (ret a).
Proof. intros w. exists []. simpl. by rewrite app_nil_r. Qed.

Lemma emits_raise {A} e : emits Q (@raise A e).
Proof. intros w. exists []. simpl. by rewrite app_nil_r. Qed.

Lemma emits_exit {A} c : emits Q (@exit A c).
Proof. intros w. exists []. simpl. by rewrite app_nil_r. Qed.

Lemma emits_lift {A} (r : result A) : emits Q (lift r).
Proof. destruct r; [apply emits_ret | apply emits_raise]. Qed.

Lemma emits_get_client : emits Q get_client.
Proof. intros w. exists []. simpl. by rewrite app_nil_r. Qed.

Lemma emits_emit ev : Q ev -> emits Q (emit ev).
Proof. intros H w. exists [ev]. simpl. auto. Qed.

Lemma emits_print s : Q (Print s) -> emits Q (print s).
Proof. apply emits_emit. Qed.

Lemma emits_set_client v : Q (Assign v) -> emits Q (set_client v).
Proof. intros H w. exists [Assign v]. simpl. auto. Qed.

Lemma emits_call env {R} (c : sdk_call R) : Q (Call c) -> emits Q (call env c).
Proof.
  intros H w. exists [Call c]. unfold call.
  destruct (sdk env R _ c); simpl; auto.
Qed.

Lemma emits_read_input env p : Q (Input p) -> emits Q (read_input env p).
Proof.
  intros H w. exists [Input p]. unfold read_input.
  destruct (input env _ p); simpl; auto.
Qed.

Lemma emits_read_getpass env p : Q (Getpass p) -> emits Q (read_getpass env p).
Proof.
  intros H w. exists [Getpass p]. unfold read_getpass.
  destruct (getpass env _ p); simpl; auto.
Qed.

Lemma emits_bind {A B} (m : M A) (k : A -> M B) :
  emits Q m -> (forall a, emits Q (k a)) -> emits Q (bind m k).
Proof.
  intros Hm Hk w. unfold bind.
  destruct (Hm w) as (e1 & E1 & F1).
  destruct (m w) as [[a|e|c] w1]; simpl in *; eauto.
  destruct (Hk a w1) as (e2 & E2 & F2).
  exists (e1 ++ e2). rewrite E2, E1, app_assoc. split; [done|].
  by apply Forall_app.
Qed.

Lemma emits_try_except {A} (body : M A) handler :
  emits Q body ->
  (forall e h, handler e = Some h -> emits Q h) ->
  emits Q (try_except body handler).
Proof.
  intros Hb Hh w. unfold try_except.
  destruct (Hb w) as (e1 & E1 & F1).
  destruct (body w) as [[a|e|c] w1]; simpl in *; eauto.
  destruct (handler e) as [h|] eqn:E; simpl; eauto.
  destruct (Hh e h E w1) as (e2 & E2 & F2).
  exists (e1 ++ e2). rewrite E2, E1, app_assoc. split; [done|].
  by apply Forall_app.
Qed.

Lemma emits_except {A} (clauses : list (list exn_kind * (exn -> M A))) :
  all_clauses (emits Q) clauses ->
  forall e h, except clauses e = Some h -> emits Q h.
Proof.
  induction clauses as [|[ks h0] r IH]; simpl; [done|].
  intros [H0 Hr] e h. destruct (isinstance e ks); [|by eauto].
  intros [= <-]. apply H0.
Qed.

Lemma emits_try_finally {A} (body : M A) fin :
  emits Q body -> emits Q fin -> emits Q (try_finally body fin).
Proof.
  intros Hb Hf w. unfold try_finally.
  destruct (Hb w) as (e1 & E1 & F1).
  destruct (body w) as [r w1]; simpl in *.
  destruct (Hf w1) as (e2 & E2 & F2).
  exists (e1 ++ e2).
  destruct (fin w1) as [[[]|e|c] w2]; simpl in *;
    (rewrite E2, E1, app_assoc; split; [done|]; by apply Forall_app).
Qed.

Lemma emits_for_each {A} (l : list A) body :
  (forall x, emits Q (body x)) -> emits Q (for_each l body).
Proof.
  intros Hb. induction l as [|x l IH]; simpl.
  - apply emits_ret.
  - apply emits_bind; [apply Hb | intros _; apply IH].
Qed.
End emits.

Lemma emits_weaken {A} (Q Q' : event -> Prop) (m : M A) :
  (forall ev, Q ev -> Q' ev) -> emits Q m -> emits Q' m.
Proof.
  intros H Hm w. destruct (Hm w) as (evs & E & F). exists evs. split; [done|].
  eapply Forall_impl; eauto.
Qed.

(** One step of the syntax-directed proof of an [emits] goal. *)
Ltac emits_step side :=
  lazymatch goal with
  | |- emits _ (bind _ _) => apply emits_bind; [|intros ?]
  | |- emits _ (ret _) => apply emits_ret
  | |- emits _ (raise _) => apply emits_raise
  | |- emits _ (exit _) => apply emits_exit
  | |- emits _ (lift _) => apply emits_lift
  | |- emits _ get_client => apply emits_get_client
  | |- emits _ (print _) => apply emits_print; side
  | |- emits _ (emit _) => apply emits_emit; side
  | |- emits _ (set_client _) => apply emits_set_client; side
  | |- emits _ (call _ _) => apply emits_call; side
  | |- emits _ (read_input _ _) => apply emits_read_input; side
  | |- emits _ (read_getpass _ _) => apply emits_read_getpass; side
  | |- emits _ (try_except _ (except _)) =>
      apply emits_try_except;
      [|apply emits_except; cbn [all_clauses]; repeat (apply conj; [intros ?|]); [..|exact I]]
  | |- emits _ (try_finally _ _) => apply emits_try_finally
  | |- emits _ (for_each _ _) => apply emits_for_each; intros ?
  | |- emits _ (dispatch _ ?c _) => destruct c; cbn [dispatch]
  | |- emits _ (if ?b then _ else _) => destruct b
  | |- emits _ (match ?x with _ => _ end) => destruct x
  | |- emits _ (let '(_, _) := ?x in _) => destruct x
  | |- emits _ (let _ := _ in _) => cbv zeta
  end.

Ltac emits_auto side := repeat emits_step side.

Section emits_program.
Context (env : Env) (Q : event -> Prop).
Hypothesis Q_print : forall s, Q (Print s).

Lemma emits_parse_properties_v4 props : emits Q (parse_properties_v4 env props).
Proof.
  unfold parse_properties_v4.
  assert (forall l acc, emits Q (parse_properties_loop env l acc)) as Hloop.
  { induction l as [|s l IH]; intros acc; simpl; [apply emits_ret|].
    apply emits_bind; [|by intros ?].
    unfold parse_property, unpack2. emits_auto ltac:(by auto). }
  destruct props as [[|]|]; emits_auto ltac:(by auto). apply Hloop.
Qed.
End emits_program.

Lemma isinstance_Exception e : isinstance e Exception = true.
Proof. unfold isinstance, Exception. by destruct (exn_class e). Qed.

Lemma catches_all_Some {A} (clauses : list (list exn_kind * (exn -> M A))) e :
  catches_all clauses -> is_Some (except clauses e).
Proof.
  induction clauses as [|[ks h] r IH]; simpl; [done|].
  intros [->|H].
  - rewrite isinstance_Exception. eauto.
  - destruct (isinstance e ks); eauto.
Qed.

Section keeps.
Lemma keeps_ret {A} ar (a : A) : keeps ar (ret a).
Proof. by intros w. Qed.

Lemma keeps_raise {A} e : keeps true (@raise A e).
Proof. by intros w. Qed.

Lemma keeps_lift {A} (r : result A) : keeps true (lift r).
Proof. destruct r; [apply keeps_ret | apply keeps_raise]. Qed.

Lemma keeps_emit ar ev : keeps ar (emit ev).
Proof. by intros w. Qed.

Lemma keeps_print ar s : keeps ar (print s).
Proof. apply keeps_emit. Qed.

Lemma keeps_call env {R} (c : sdk_call R) : keeps true (call env c).
Proof. intros w. unfold call. by destruct (sdk env R _ c). Qed.

Lemma keeps_read_input env p : keeps true (read_input env p).
Proof. intros w. unfold read_input. by destruct (input env _ p). Qed.

Lemma keeps_read_input_ok env p :
  (forall n, exists s, input env n p = Ok s) -> keeps false (read_input env p).
Proof.
  intros H w. unfold read_input. by destruct (H (length (trace w))) as [s ->].
Qed.

Lemma keeps_the_client ar : keeps ar the_client.
Proof.
  intros w. unfold the_client, bind, get_client.
  destruct (client w) eqn:E; simpl; [done|]. split; [done|]. by intros [? [=]].
Qed.

Lemma keeps_bind {A B} ar (m : M A) (k : A -> M B) :
  keeps ar m -> (forall a, keeps ar (k a)) -> keeps ar (bind m k).
Proof.
  intros Hm Hk w. unfold bind.
  destruct (Hm w) as [E1 O1].
  destruct (m w) as [[a|e|c] w1]; simpl in *; [|done..].
  destruct (Hk a w1) as [E2 O2]. rewrite E2, E1. split; [done|].
  intros Hs. apply O2. by rewrite E1.
Qed.

Lemma keeps_weaken {A} ar (m : M A) : keeps false m -> keeps ar m.
Proof.
  intros H w. destruct (H w) as [E O]. split; [done|]. intros Hs.
  specialize (O Hs). destruct (m w).1; simpl in *; done.
Qed.

Lemma keeps_client_call env {R} (f : WeaviateClient -> sdk_call R) :
  keeps true (client_call env f).
Proof.
  unfold client_call. apply keeps_bind; [apply keeps_the_client|].
  intros c. apply keeps_call.
Qed.

Lemma keeps_try_except {A} ar (body : M A) clauses :
  keeps true body ->
  all_clauses (keeps ar) clauses ->
  catches_all clauses ->
  keeps ar (try_except body (except clauses)).
Proof.
  intros Hb Hh Hc w. unfold try_except.
  destruct (Hb w) as [E1 O1].
  destruct (body w) as [[a|e|c] w1]; simpl in *; [done| |done].
  destruct (catches_all_Some clauses e Hc) as [h Eh]. rewrite Eh.
  assert (keeps ar h) as Hk.
  { clear -Hh Eh. induction clauses as [|[ks h0] r IH]; simpl in *; [done|].
    destruct Hh as [H0 Hr]. destruct (isinstance e ks); [|by eauto].
    injection Eh as <-. apply H0. }
  destruct (Hk w1) as [E2 O2]. rewrite E2, E1. split; [done|].
  intros Hs. apply O2. by rewrite E1.
Qed.

Lemma keeps_for_each {A} ar (l : list A) body :
  (forall x, keeps ar (body x)) -> keeps ar (for_each l body).
Proof.
  intros Hb. induction l as [|x l IH]; simpl.
  - apply keeps_ret.
  - apply keeps_bind; [apply Hb | intros _; apply IH].
Qed.

Lemma keeps_parse_properties_v4 env ar props : keeps ar (parse_properties_v4 env props).
Proof.
  assert (forall l acc, keeps ar (parse_properties_loop env l acc)) as Hloop.
  { induction l as [|s l IH]; intros acc; simpl; [apply keeps_ret|].
    apply keeps_bind; [|by intros ?].
    intros w. split.
    - unfold parse_property, try_except, bind, unpack2, lift.
      destruct (split1 colon s) as [|? [|? [|]]]; simpl; try done.
      by destruct (data_type_enum env _).
    - intros _. unfold parse_property, try_except, bind, unpack2, lift.
      destruct (split1 colon s) as [|? [|? [|]]]; simpl; try done.
      by destruct (data_type_enum env _). }
  unfold parse_properties_v4.
  destruct props as [[|]|]; try apply keeps_ret.
  apply keeps_bind; [apply Hloop|]. intros ?. apply keeps_ret.
Qed.
End keeps.

Ltac keeps_leaf :=
  first
    [ apply keeps_ret | apply keeps_print | apply keeps_emit | apply keeps_the_client
    | apply keeps_parse_properties_v4
    | apply keeps_raise | apply keeps_lift | apply keeps_call | apply keeps_client_call
    | apply keeps_read_input ].

Ltac keeps_step :=
  lazymatch goal with
  | |- keeps _ (bind _ _) => apply keeps_bind; [|intros ?]
  | |- keeps _ (try_except _ (except _)) =>
      apply keeps_try_except;
      [|cbn [all_clauses]; repeat (apply conj; [intros ?|]); [..|exact I]
       |cbn [catches_all]; tauto]
  | |- keeps _ (for_each _ _) => apply keeps_for_each; intros ?
  | |- keeps _ (if ?b then _ else _) => destruct b
  | |- keeps _ (match ?x with _ => _ end) => destruct x
  | |- keeps _ (let '(_, _) := ?x in _) => destruct x
  | |- keeps _ (let _ := _ in _) => cbv zeta
  | |- keeps _ _ => keeps_leaf
  end.

Lemma substring_all s : substring 0 (String.length s) s = s.
Proof. induction s; simpl; [done|]. by rewrite IHs. Qed.

Lemma prefix_one a c r :
  String.prefix (String a EmptyString) (String c r) = Ascii.eqb c a.
Proof.
  cbn -[ascii_dec]. destruct (ascii_dec a c) as [->|Hne].
  - rewrite Ascii.eqb_refl. by destruct r.
  - symmetry. apply Ascii.eqb_neq. congruence.
Qed.

Lemma index_cons s1 c r :
  String.index 0 s1 (String c r) =
    if String.prefix s1 (String c r) then Some 0%nat
    else match String.index 0 s1 r with Some n => Some (S n) | None => None end.
Proof. reflexivity. Qed.

Lemma split1_entry_parts s :
  split1 colon s =
    match entry_parts s with
    | Some (a, b) => [a; b]
    | None => [s]
    end.
Proof.
  unfold entry_parts, colon.
  induction s as [|c r IH]; [done|].
  rewrite index_cons, prefix_one. simpl split1.
  destruct (Ascii.eqb c ":").
  - simpl. by rewrite Nat.sub_0_r, substring_all.
  - rewrite IH. by destruct (String.index 0 ":" r).
Qed.

Lemma data_type_enum_known env u : data_type_enum env u = known_data_type env u.
Proof.
  unfold data_type_enum, known_data_type, listed_data_types. simpl.
  repeat (destruct (String.eqb u _); [reflexivity|]). reflexivity.
Qed.

Lemma log_nil w : log w [] = w.
Proof. destruct w. unfold log. simpl. by rewrite app_nil_r. Qed.

Lemma log_log w a b : log (log w a) b = log w (a ++ b).
Proof. unfold log. simpl. by rewrite app_assoc. Qed.

Lemma parse_property_spec env acc s w :
  parse_property env acc s w =
    (Normal (acc ++ from_option (fun p => [p]) [] (valid_entry env s)),
     log w (from_option (fun m => [Print m]) [] (entry_warning env s))).
Proof.
  unfold parse_property, try_except, bind, valid_entry, entry_warning.
  rewrite split1_entry_parts.
  destruct (entry_parts s) as [[name dt]|]; simpl.
  - rewrite data_type_enum_known.
    destruct (known_data_type env (upper dt)); simpl.
    + by rewrite log_nil.
    + by rewrite app_nil_r.
  - by rewrite app_nil_r.
Qed.

Lemma parse_properties_loop_spec env l : forall acc w,
  parse_properties_loop env l acc w =
    (Normal (acc ++ omap (valid_entry env) l),
     log w (map Print (omap (entry_warning env) l))).
Proof.
  induction l as [|s l IH]; intros acc w; simpl.
  - by rewrite app_nil_r, log_nil.
  - unfold bind. rewrite parse_property_spec. rewrite IH. rewrite log_log.
    destruct (valid_entry env s), (entry_warning env s); simpl;
      rewrite <- ?app_assoc; simpl; rewrite ?app_nil_r; reflexivity.
Qed.

Lemma parse_properties_v4_run env props w :
  parse_properties_v4 env props w =
    (Normal (parse_properties_spec env props),
     mk_world (client w) (trace w ++ parse_properties_warnings env props)).
Proof.
  unfold parse_properties_spec, parse_properties_warnings.
  destruct props as [[|s l]|]; cbn -[parse_properties_loop omap];
    rewrite ?app_nil_r; try by destruct w.
  unfold bind. rewrite parse_properties_loop_spec. cbn -[omap].
  by destruct (omap _ _).
Qed.





Create HintDb prog.
#[export] Hint Unfold client_call the_client connect connect_prepare
  connect_open fail_connection print_original_exception
  parse_http_url_details close_connection dict_get print_json unexpected
  vectorizer_config_of handle_collection_create handle_collection_delete
  list_collection handle_collection_list handle_collection_describe
  handle_user_create handle_user_delete list_user handle_user_list
  handle_user_update_roles handle_role_create handle_role_delete permissions_of
  handle_role_get print_permissions list_role handle_role_list
  print_client_version load_config_from_yaml flag_or_config
  require_root_key merge_config main : prog.

Lemma emits_connect_to_weaviate env url api_key h p :
  emits connection_event (connect_to_weaviate env url api_key h p).
Proof.
  assert (forall l e h, connect_handlers env l e = Some h -> emits connection_event h) as Hh.
  { intros l. unfold connect_handlers. apply emits_except. cbn [all_clauses].
    repeat (apply conj; [intros ?|]); [..|exact I];
      repeat first [emits_step ltac:(by simpl) | progress autounfold with prog]. }
  unfold connect_to_weaviate.
  repeat first
    [ lazymatch goal with
      | |- emits _ (try_except _ (connect_handlers _ _)) =>
          apply emits_try_except; [|by apply Hh]
      | |- emits _ (try_except _ _) =>
          apply emits_try_except;
          [|let e := fresh in let h := fresh in let E := fresh in
            intros e h E; destruct (connect_handlers _ _ e) eqn:?; [|done];
            injection E as <-; apply emits_bind; [by eapply Hh|intros ?]]
      end
    | emits_step ltac:(by simpl)
    | progress autounfold with prog ].
Qed.

Ltac emits_prog side wk :=
  repeat first
    [ apply emits_parse_properties_v4; side
    | lazymatch goal with
      | |- emits _ (connect_to_weaviate _ _ _ _ _) =>
          eapply emits_weaken; [|apply emits_connect_to_weaviate]; wk
      end
    | emits_step side
    | progress autounfold with prog ].

Ltac by_cases_on_event :=
  let ev := fresh "ev" in
  intros ev; destruct ev as [? []| | | | |]; simpl; tauto.


Create HintDb body.
#[export] Hint Unfold connect list_collection list_user list_role print_json
  print_permissions permissions_of unexpected dict_get vectorizer_config_of : body.

Ltac keeps_body := repeat first [keeps_step | progress autounfold with body].

Arguments pretty : simpl never.
Arguments str_of : simpl never.
Arguments repr_of : simpl never.
Arguments String.append : simpl never.
Arguments py_bool : simpl never.

Lemma except_Exception {A} (h : exn -> M A) e r :
  except ((Exception, h) :: r) e = Some (h e).
Proof. cbn [except]. by rewrite isinstance_Exception. Qed.

Section connection.
Context (env : Env).

Lemma close_connection_None w :
  client w = None -> close_connection env w = (Normal tt, w).
Proof. intros H. unfold close_connection, bind, get_client. by rewrite H. Qed.

Lemma close_connection_Some w c :
  client w = Some c ->
  exists evs,
    close_connection env w = (Normal tt, mk_world None (trace w ++ Call (close c) :: evs)) /\
    Forall quiet_event evs.
Proof.
  intros H. unfold close_connection, bind, get_client. rewrite H.
  unfold try_finally, try_except, bind, call.
  destruct (sdk env unit (length (trace w)) (close c)) as [[]|e];
    rewrite ?except_Exception; simpl;
    (eexists; rewrite <- !app_assoc; split; [reflexivity|]; repeat constructor).
Qed.

(** With no handle in place, [fail_connection] only records [client = None]. *)
Lemma fail_connection_None w :
  client w = None ->
  fail_connection env w = (Exited 1, mk_world None (trace w ++ [Assign None])).
Proof. intros H. unfold fail_connection, bind, get_client. by rewrite H. Qed.

Lemma only_prints_print s : only_prints (print s).
Proof. intros w. exists [Print s]. split; [done|]. repeat constructor. Qed.

Lemma only_prints_ret : only_prints (ret tt).
Proof. intros w. exists []. simpl. rewrite app_nil_r. split; [by destruct w|done]. Qed.

Lemma only_prints_bind m k :
  only_prints m -> only_prints k -> only_prints (m;; k).
Proof.
  intros Hm Hk w. unfold bind.
  destruct (Hm w) as (e1 & -> & F1). destruct (Hk (mk_world (client w) (trace w ++ e1)))
    as (e2 & -> & F2). simpl.
  exists (e1 ++ e2). rewrite app_assoc. split; [done|]. by apply Forall_app.
Qed.

Lemma gives_up_fail_connection : gives_up (fail_connection env).
Proof.
  intros w H. rewrite fail_connection_None by done. eexists. split; [done|].
  repeat constructor.
Qed.

Lemma gives_up_bind {A} m (k : M A) :
  only_prints m -> gives_up k -> gives_up (m;; k).
Proof.
  intros Hm Hk w Hc. unfold bind.
  destruct (Hm w) as (e1 & -> & F1).
  destruct (Hk (mk_world (client w) (trace w ++ e1)) Hc) as (e2 & -> & F2). simpl.
  exists (e1 ++ e2). rewrite app_assoc. split; [done|]. by apply Forall_app.
Qed.

Lemma connect_handlers_gives_up l e h :
  connect_handlers env l e = Some h -> gives_up h.
Proof.
  unfold connect_handlers. cbn [except].
  repeat (destruct (isinstance e _); [intros [= <-]|]); [..|done];
    repeat first
      [ apply gives_up_fail_connection
      | apply gives_up_bind
      | apply only_prints_print
      | apply only_prints_bind ];
    unfold print_original_exception; destruct (exn_original_exception e);
    first [apply only_prints_print | apply only_prints_ret].
Qed.

(** [parse_http_url_details] does not touch the world. *)
Lemma parse_http_url_details_pure url w :
  exists r, parse_http_url_details env url w =
              (match r with Ok x => Normal x | Raise e => Raised e end, w).
Proof.
  unfold parse_http_url_details, bind, lift.
  destruct (py_urlparse env url) as [parsed|e]; [|by exists (Raise e)].
  simpl. destruct (negb _); [by eexists (Raise _)|].
  destruct (hostname parsed) as [[|]|]; try by eexists (Raise _).
  destruct (port parsed) as [p|e]; simpl; [by eexists (Ok _)|by exists (Raise e)].
Qed.

Lemma connect_prepare_None url h p w :
  client w = None ->
  exists r, connect_prepare env url h p w =
              (match r with Ok l => Normal l | Raise e => Raised e end, w).
Proof.
  intros Hc. unfold connect_prepare, bind at 1 2, get_client. rewrite Hc. cbn [ret].
  unfold bind.
  destruct (parse_http_url_details_pure url w) as [[[[hh hp] hs]|e] ->].
  - by eexists (Ok _).
  - by exists (Raise e).
Qed.

Lemma quiet_no_handle evs : Forall quiet_event evs -> no_handle evs.
Proof.
  intros H. eapply Forall_impl; [exact H|]. intros [| | | | |[]]; simpl; done.
Qed.

Lemma connect_open_None auth l w :
  client w = None ->
  connect_result w (try_except (connect_open env auth l) (connect_handlers env l) w).
Proof.
  intros Hc.
  assert (forall e w1 evs1,
            client w1 = None -> trace w1 = trace w ++ evs1 -> no_handle evs1 ->
            connect_result w
              (match connect_handlers env l e with
               | Some h => h w1
               | None => (Raised e, w1)
               end)) as Hh.
  { intros e w1 evs1 Hc1 E1 F1.
    destruct (connect_handlers env l e) as [h|] eqn:Eh.
    - destruct (connect_handlers_gives_up l e h Eh w1 Hc1) as (evs & -> & F).
      exists (evs1 ++ evs). simpl. rewrite E1, app_assoc. split; [done|].
      split; [done|]. split; [done|]. apply Forall_app. split; [done|].
      by apply quiet_no_handle.
    - exists evs1. simpl. done. }
  unfold try_except at 1, connect_open.
  unfold bind at 1 2, print at 1 2, emit. cbn [client trace].
  unfold bind at 1, call at 1. cbn [client trace].
  destruct (sdk env WeaviateClient _ (connect_to_custom _)) as [new|e].
  2:{ eapply Hh; [done|cbn [trace]; rewrite <- !app_assoc; reflexivity|].
      repeat constructor. }
  unfold bind at 1, call at 1. cbn [client trace].
  destruct (sdk env bool _ (is_ready new)) as [ready|e].
  2:{ eapply Hh; [done|cbn [trace]; rewrite <- !app_assoc; reflexivity|].
      repeat constructor. }
  destruct ready; cbn [negb].
  - unfold bind, set_client, print, emit, ret. cbn [client trace fst snd].
    eexists. rewrite <- !app_assoc. split; [reflexivity|]. split; [done|].
    eexists. split; [|shelve]. cbn [app].
    change (?a :: ?b :: ?c :: ?d :: [Assign (Some new); ?p])
      with ([a; b; c; d] ++ [Assign (Some new); p]). reflexivity.
    Unshelve. repeat constructor.
  - unfold bind at 1, print at 1, emit. cbn [client trace].
    unfold bind at 1, try_except at 1, bind at 1, call at 1. cbn [client trace].
    destruct (sdk env bool _ (is_live new)) as [live|e];
      [|rewrite except_Exception];
      unfold print at 1, emit; cbn [client trace];
      unfold bind at 1, call at 1; cbn [client trace];
      (destruct (sdk env unit _ (close new)) as [[]|e'];
       [ unfold exit; cbn [fst snd client trace];
         eexists; rewrite <- !app_assoc; split; [reflexivity|];
         split; [done|]; split; [done|]; repeat constructor
       | eapply Hh; [done|cbn [trace]; rewrite <- !app_assoc; reflexivity|];
         repeat constructor ]).
Qed.

(** What [main] relies on: called with no handle in place, [connect_to_weaviate]
    either returns the new client and has stored it, or ends the call with
    the handle still [None]. *)
Lemma connect_from_None url k h p w :
  client w = None -> connect_result w (connect_to_weaviate env url k h p w).
Proof.
  intros Hc. unfold connect_to_weaviate.
  unfold bind at 1, get_client at 1. rewrite Hc. unfold bind at 1. cbn [ret].
  unfold bind at 1, print at 1, emit. cbn [client trace].
  match goal with
  | |- context [mk_world (client w) ?t] => set (w1 := mk_world (client w) t)
  end.
  assert (client w1 = None) as Hc1 by done.
  unfold bind at 1, try_except at 1.
  destruct (connect_prepare_None url h p w1 Hc1) as [[l|e] ->].
  - destruct (connect_open_None (if truthy k then Some k else None) l w1 Hc1)
      as (evs & E & H).
    exists (Print ("Attempting to connect to Weaviate at " +:+ str_of env url +:+
                   " (client v4.x) using custom connection parameters...") :: evs).
    rewrite E. subst w1. cbn [trace]. rewrite <- app_assoc. split; [done|].
    destruct (try_except _ _ _) as [[c|e|code] w2]; cbn [fst snd] in *.
    + destruct H as (? & evs' & -> & F). split; [done|].
      eexists (_ :: evs'). split; [done|]. by constructor.
    + destruct H. split; [done|]. by constructor.
    + destruct H as (? & ? & ?). repeat split; try done. by constructor.
  - destruct (connect_handlers env initial_locals e) as [hd|] eqn:Eh.
    + unfold bind at 1.
      destruct (connect_handlers_gives_up _ _ _ Eh w1 Hc1) as (evs & -> & F).
      eexists (_ :: evs). subst w1. cbn [fst snd trace client].
      rewrite <- app_assoc. split; [done|]. repeat split; try done.
      constructor; [done|]. by apply quiet_no_handle.
    + eexists [_]. subst w1. cbn [fst snd trace client]. split; [done|].
      split; [done|]. repeat constructor.
Qed.
End connection.

Section yields.
Lemma yields_ret {A} (a : A) : yields (ret a) (Ok a).
Proof. intros w. exists []. rewrite app_nil_r. by destruct w. Qed.

Lemma yields_raise {A} e : yields (@raise A e) (Raise e).
Proof. intros w. exists []. rewrite app_nil_r. by destruct w. Qed.

Lemma yields_lift {A} (r : result A) : yields (lift r) r.
Proof. destruct r; [apply yields_ret|apply yields_raise]. Qed.

Lemma yields_print s : yields (print s) (Ok tt).
Proof. intros w. exists [Print s]. split; [done|]. repeat constructor. Qed.

Lemma yields_bind {A B} (m : M A) (k : A -> M B) a r :
  yields m (Ok a) -> yields (k a) r -> yields (bind m k) r.
Proof.
  intros Hm Hk w. unfold bind. destruct (Hm w) as (e1 & -> & F1).
  destruct (Hk (mk_world (client w) (trace w ++ e1))) as (e2 & -> & F2).
  exists (e1 ++ e2). cbn [client trace]. rewrite app_assoc. split; [done|].
  by apply Forall_app.
Qed.

Lemma yields_bind_raise {A B} (m : M A) (k : A -> M B) e :
  yields m (Raise e) -> yields (bind m k) (Raise e).
Proof.
  intros Hm w. unfold bind. destruct (Hm w) as (e1 & -> & F1). by exists e1.
Qed.

Lemma yields_dict_get d k dflt : yields (dict_get d k dflt) (config_get_value d k dflt).
Proof.
  destruct d; simpl; try apply yields_raise. apply yields_ret.
Qed.
End yields.

Section startup.
Context (env : Env).

Lemma print_client_version_yields : yields (print_client_version env) (Ok tt).
Proof.
  intros w. unfold print_client_version, try_except, bind at 1, lift.
  destruct (weaviate_version env) as [v|e].
  - cbn [ret]. unfold bind, print, emit. cbn [client trace].
    destruct (negb _); cbn [client trace ret].
    + eexists. rewrite <- app_assoc. split; [done|]. repeat constructor.
    + eexists. split; [done|]. repeat constructor.
  - cbn [raise]. rewrite except_Exception. eexists. split; [done|]. repeat constructor.
Qed.

Lemma load_config_from_yaml_yields f :
  yields (load_config_from_yaml env f)
    (Ok (match yaml_safe_load env f with
         | Ok v => if truthy v then v else PDict []
         | Raise _ => PDict []
         end)).
Proof.
  intros w. unfold load_config_from_yaml, try_except, bind at 1, lift.
  destruct (yaml_safe_load env f) as [v|e].
  - cbn [ret]. unfold bind, print, emit, ret. cbn [client trace].
    eexists. split; [done|]. repeat constructor.
  - cbn [raise except]. rewrite isinstance_Exception.
    destruct (isinstance e [FileNotFoundError]); [|destruct (isinstance e [YAMLError])];
      unfold bind, print, emit, ret; cbn [client trace]; eexists; (split; [done|]);
      repeat constructor.
Qed.

Lemma config_yields a :
  yields (if str_truthy (args.config_file a)
          then load_config_from_yaml env (default EmptyString (args.config_file a))
          else ret (PDict []))
         (Ok (config_of env a)).
Proof.
  unfold config_of, str_truthy. destruct (args.config_file a) as [f|]; [|apply yields_ret].
  destruct (String.eqb f EmptyString); [apply yields_ret|].
  apply load_config_from_yaml_yields.
Qed.

Lemma first_given_two u v :
  first_given [u; v] = if is_None u then v else u.
Proof. by destruct u, v. Qed.

Lemma merge_config_yields a :
  exists r, yields (merge_config env a) r /\
    match r with
    | Ok a' => config_usable (config_of env a) a = true /\ a' = merged env a
    | Raise _ => config_usable (config_of env a) a = false
    end.
Proof.
  unfold merge_config, merged, flag_or_config. cbv zeta.
  set (cfg := config_of env a).
  assert (forall (k : pyval -> M args.t) r, yields (k cfg) r ->
            yields (bind (if str_truthy (args.config_file a)
                          then load_config_from_yaml env
                                 (default EmptyString (args.config_file a))
                          else ret (PDict [])) k) r) as Hcfg.
  { intros k r Hk. eapply yields_bind; [apply config_yields|done]. }
  rewrite !first_given_two.
  destruct cfg as [| | | | | |items|] eqn:Ecfg; unfold config_usable;
    destruct (is_None (args.url a)), (is_None (args.root_key a)),
      (is_None (args.grpc_host a)), (is_None (args.grpc_port a)); cbn [negb andb];
    (eexists; split;
     [ apply Hcfg; cbn [negb];
       repeat first
         [ apply yields_ret
         | eapply yields_bind; [first [apply yields_ret | apply yields_dict_get]|]
         | eapply yields_bind_raise; first [apply yields_raise | apply yields_dict_get] ]
     | cbn; try done ]).
Qed.

Lemma with_root_key_twice a k k' :
  args.with_root_key (args.with_root_key a k) k' = args.with_root_key a k'.
Proof. reflexivity. Qed.

Lemma require_root_key_None a w :
  client w = None ->
  require_root_key env a w =
    if truthy (args.root_key a) then (Normal a, w)
    else if truthy (environ_api_key env)
    then (Normal (args.with_root_key a (environ_api_key env)), w)
    else
      let announce :=
        Print "Weaviate API key not provided via CLI, config file, or environment variables." in
      match getpass env (S (length (trace w))) api_key_prompt with
      | Ok s =>
          if String.eqb s EmptyString
          then (Exited 1,
                mk_world None
                  (trace w ++ [announce; Getpass api_key_prompt;
                               Print "Error: Admin API Key is required for this command."]))
          else (Normal (args.with_root_key a (PStr s)),
                mk_world None (trace w ++ [announce; Getpass api_key_prompt]))
      | Raise e =>
          (Exited 1,
           mk_world None
             (trace w ++ [announce; Getpass api_key_prompt;
                          Print ("Error reading API key: " +:+ exn_repr e)]))
      end.
Proof.
  intros Hc. unfold require_root_key.
  destruct (truthy (args.root_key a)); cbn [negb]; [done|].
  change (args.root_key (args.with_root_key a (environ_api_key env)))
    with (environ_api_key env).
  destruct (truthy (environ_api_key env)); cbn [negb]; [done|].
  unfold bind at 1, print at 1, emit. cbn [client trace].
  unfold bind at 1, try_except, read_getpass. cbn [client trace].
  rewrite length_app. cbn [length]. rewrite Nat.add_1_r.
  fold api_key_prompt.
  destruct (getpass env _ api_key_prompt) as [s|e].
  - change (args.root_key (args.with_root_key _ (PStr s))) with (PStr s).
    cbn [truthy]. destruct (String.eqb s EmptyString); cbn [negb].
    + unfold bind at 1, print at 1, emit. cbn [client trace].
      unfold bind. rewrite close_connection_None by done.
      unfold exit. rewrite Hc, <- !app_assoc. done.
    + unfold ret. rewrite Hc, <- !app_assoc. done.
  - rewrite except_Exception.
    unfold bind at 1, print at 1, emit. cbn [client trace].
    unfold bind. rewrite close_connection_None by done.
    unfold exit. rewrite Hc, <- !app_assoc. done.
Qed.

Lemma startup_spec a :
  exists evs,
    trace (startup env a).2 = evs /\ client (startup env a).2 = None /\
    Forall startup_event evs /\
    match (startup env a).1 with
    | Normal a' =>
        config_usable (config_of env a) a = true /\
        exists n, key_by_precedence env a n = Some (args.root_key a') /\
                  a' = args.with_root_key (merged env a) (args.root_key a')
    | Raised _ => config_usable (config_of env a) a = false
    | Exited code =>
        code = 1%Z /\ config_usable (config_of env a) a = true /\
        exists n, key_by_precedence env a n = None
    end.
Proof.
  destruct (print_client_version_yields initial_world) as (e1 & E1 & F1).
  destruct (merge_config_yields a) as (r & Hy & Hr).
  destruct (Hy (mk_world (client initial_world) (trace initial_world ++ e1)))
    as (e2 & E2 & F2).
  assert (startup env a =
            match r with
            | Ok a' => require_root_key env a' (mk_world None (e1 ++ e2))
            | Raise e => (Raised e, mk_world None (e1 ++ e2))
            end) as ->.
  { unfold startup, bind. rewrite E1, E2. by destruct r. }
  assert (forall evs, Forall is_print evs -> Forall startup_event evs) as Hp.
  { intros evs H. eapply Forall_impl; [exact H|]. by intros []. }
  destruct r as [a'|e].
  - destruct Hr as [Hu ->].
    rewrite require_root_key_None by done. cbn [client trace initial_world app].
    unfold key_by_precedence.
    destruct (truthy (args.root_key (merged env a))) eqn:K1.
    { cbn [fst snd client trace].
      eexists. split; [done|]. split; [done|]. split; [apply Forall_app; eauto|].
      split; [done|]. exists 0%nat. done. }
    destruct (truthy (environ_api_key env)) eqn:K2.
    { cbn [fst snd client trace].
      eexists. split; [done|]. split; [done|]. split; [apply Forall_app; eauto|].
      split; [done|]. exists 0%nat. done. }
    cbv zeta.
    destruct (getpass env _ api_key_prompt) as [s|e] eqn:K3;
      [destruct (String.eqb s EmptyString) eqn:K4|];
      cbn [fst snd client trace];
      (eexists; split; [done|]; split; [done|];
       split; [repeat (apply Forall_app; split); eauto; repeat constructor|]);
      cbn [fst]; repeat split; try done;
      eexists; rewrite ?K3, ?K4; done.
  - cbn [client trace initial_world app fst snd].
    eexists. split; [done|]. split; [done|]. split; [apply Forall_app; eauto|]. done.
Qed.
End startup.

Section main.
Context (env : Env).

Lemma run_startup a :
  run env a =
    match startup env a with
    | (Normal a', w) =>
        try_finally (dispatch env (args.func a') a') (close_connection env) w
    | (Raised e, w) => (Raised e, w)
    | (Exited code, w) => (Exited code, w)
    end.
Proof.
  unfold run, main, startup, bind.
  destruct (print_client_version env initial_world) as [[[]|e|c] w1]; [|done..].
  destruct (merge_config env a w1) as [[a1|e|c] w2]; [|done..].
  by destruct (require_root_key env a1 w2) as [[a2|e|c] w3].
Qed.

(** A handler — [connect] followed by [k] — under the [finally] of [main]. *)
Lemma finally_after_connect a (k : WeaviateClient -> M unit) ar
    (P : list event -> Prop) w :
  client w = None ->
  (forall c, keeps ar (k c)) ->
  (forall c w1, exists evs, trace (k c w1).2 = trace w1 ++ evs /\ P evs) ->
  let r := try_finally (bind (connect env a) k) (close_connection env) w in
  match connect env a w with
  | (Normal c, w1) =>
      exists evs1 evs2 evs3,
        no_handle evs1 /\ P evs2 /\ Forall quiet_event evs3 /\
        outcome_ok ar r.1 /\ client r.2 = None /\
        trace w1 = trace w ++ evs1 ++
                   [Assign (Some c); Print "Successfully connected to Weaviate."] /\
        trace r.2 = trace w1 ++ evs2 ++ Call (close c) :: evs3
  | (o, w1) =>
      r = (match o with
           | Normal _ => Normal tt | Raised e => Raised e | Exited c => Exited c
           end, w1) /\
      client w1 = None /\
      match o with Exited c => c = 1%Z | _ => True end /\
      exists evs1, trace w1 = trace w ++ evs1 /\ no_handle evs1
  end.
Proof.
  intros Hc Hk He r. subst r.
  destruct (connect_from_None env (args.url a) (args.root_key a) (args.grpc_host a)
              (args.grpc_port a) w Hc) as (evs & E & H).
  unfold try_finally, bind. fold (connect env a w) in *.
  destruct (connect env a w) as [[c|e|code] w1]; cbn [fst snd] in *.
  - destruct H as (Hc1 & evs1 & -> & F1).
    destruct (Hk c w1) as [Ek Ok]. destruct (He c w1) as (evs2 & E2 & F2).
    destruct (k c w1) as [o w2]; cbn [fst snd] in *.
    rewrite Hc1 in Ek.
    destruct (close_connection_Some env w2 c Ek) as (evs3 & -> & F3).
    exists evs1, evs2, evs3. rewrite E2, <- app_assoc. cbn [fst snd client trace].
    repeat split; try done. apply Ok. by rewrite Hc1.
  - destruct H as [Hc1 F]. rewrite close_connection_None by done. eauto 10.
  - destruct H as (-> & Hc1 & F). rewrite close_connection_None by done. eauto 10.
Qed.
End main.

Section bodies.
Context (env : Env).

Lemma keeps_client_call_ok {R} (f : WeaviateClient -> sdk_call R) :
  (forall n c, exists r, sdk env R n (f c) = Ok r) ->
  keeps false (client_call env f).
Proof.
  intros H. unfold client_call. apply keeps_bind; [apply keeps_the_client|].
  intros c w. unfold call. by destruct (H (length (trace w)) c) as [r ->].
Qed.

Lemma keeps_dict_get_dict items k dflt : keeps false (dict_get (PDict items) k dflt).
Proof. apply keeps_ret. Qed.

Lemma keeps_vectorizer_config_of a :
  options_usable a -> keeps false (vectorizer_config_of a).
Proof.
  unfold options_usable, vectorizer_config_of. intros H.
  assert (exists items, (if truthy (args.vectorizer_options a)
                         then args.vectorizer_options a else PDict []) = PDict items)
    as [items ->].
  { destruct (args.vectorizer_options a); try (rewrite H; by eexists). by destruct d; eexists. }
  repeat first [keeps_step | apply keeps_dict_get_dict].
Qed.

Lemma dispatch_bodies a cmd :
  args.func a = cmd ->
  exists k : WeaviateClient -> M unit,
    dispatch env cmd a = bind (connect env a) k /\
    (forall c, keeps true (k c)) /\
    (forall c, emits body_event (k c)) /\
    (unguarded_steps_succeed env a -> forall c, keeps false (k c)).
Proof.
  intros Hf. unfold unguarded_steps_succeed. rewrite Hf.
  destruct cmd; cbn [dispatch];
    (eexists; split; [reflexivity|]; split; [|split]; [intros _|intros _|intros H _]).
  all: try (solve [keeps_body]).
  all: try (solve [emits_prog ltac:(by (intros; simpl; auto)) ltac:(by_cases_on_event)]).
  all: try (solve [
    repeat first
      [ apply keeps_read_input_ok; by auto
      | apply keeps_client_call_ok; by apply H
      | apply keeps_vectorizer_config_of; by apply H
      | keeps_step
      | progress autounfold with body ] ]).
Qed.
End bodies.

Lemma all_closed_app_no_handle l1 l2 :
  no_handle l1 -> all_closed (l1 ++ l2) = all_closed l2.
Proof.
  induction 1 as [|ev l Hev Hl IH]; [done|]. simpl.
  destruct ev as [| | | | |[]]; simpl in *; done.
Qed.

Lemma all_closed_no_handle l : no_handle l -> all_closed l = true.
Proof. intros H. rewrite <- (app_nil_r l). by rewrite all_closed_app_no_handle. Qed.

Lemma body_no_handle evs : Forall body_event evs -> no_handle evs.
Proof. intros H. eapply Forall_impl; [exact H|]. by intros [| | | | |]. Qed.

Lemma startup_no_handle evs : Forall startup_event evs -> no_handle evs.
Proof. intros H. eapply Forall_impl; [exact H|]. by intros [| | | | |]. Qed.

Lemma existsb_close c l1 l2 :
  existsb (is_close_of c) (l1 ++ Call (close c) :: l2) = true.
Proof.
  rewrite existsb_app. simpl. rewrite Nat.eqb_refl. by rewrite orb_true_r.
Qed.

(** C4.  On every run of [main], from a fresh interpreter and whatever the
    environment does: when the process ends, the module-level handle is
    [None], and every client object that was stored in the handle has had
    [close] called on it after it was stored. *)
Theorem handle_closed_before_exit env a :
  client (run env a).2 = None /\ all_closed (trace (run env a).2) = true.
Proof.
  rewrite run_startup.
  destruct (startup_spec env a) as (evs0 & E0 & Hc & F0 & _).
  destruct (startup env a) as [[a'|e|code] w]; cbn [fst snd] in *; subst evs0.
  2,3: (split; [done|]; apply all_closed_no_handle; apply startup_no_handle; exact F0).
  destruct (dispatch_bodies env a' (args.func a') eq_refl) as (k & -> & Hk & He & _).
  pose proof (finally_after_connect env a' k true (Forall body_event) w Hc Hk He) as H. cbv zeta in H.
  destruct (connect env a' w) as [[c|e|code] w1].
  - destruct H as (evs1 & evs2 & evs3 & F1 & F2 & F3 & _ & Hn & E1 & E2).
    split; [done|]. rewrite E2, E1, <- !app_assoc.
    rewrite all_closed_app_no_handle by (apply startup_no_handle; exact F0).
    rewrite all_closed_app_no_handle by done.
    cbn [app all_closed].
    match goal with
    | |- context [existsb (is_close_of c) (?p :: evs2 ++ ?r)] =>
        change (existsb (is_close_of c) (p :: evs2 ++ r))
          with (existsb (is_close_of c) ((p :: evs2) ++ r))
    end.
    rewrite existsb_close. cbn [andb].
    rewrite all_closed_app_no_handle by (apply body_no_handle; exact F2).
    cbn [all_closed]. apply all_closed_no_handle, quiet_no_handle. exact F3.
  - destruct H as (-> & Hc1 & _ & evs1 & E1 & F1). cbn [snd]. split; [done|].
    rewrite E1.
    rewrite all_closed_app_no_handle by (apply startup_no_handle; exact F0).
    by apply all_closed_no_handle.
  - destruct H as (-> & Hc1 & _ & evs1 & E1 & F1). cbn [snd]. split; [done|].
    rewrite E1.
    rewrite all_closed_app_no_handle by (apply startup_no_handle; exact F0).
    by apply all_closed_no_handle.
Qed.

Lemma emits_bind_val {A B} Q (m : M A) (k : A -> M B) :
  emits Q m -> (forall a, returns m a -> emits Q (k a)) -> emits Q (bind m k).
Proof.
  intros Hm Hk w. unfold bind.
  destruct (Hm w) as (e1 & E1 & F1).
  destruct (m w) as [[a|e|c] w1] eqn:Em; simpl in *; eauto.
  destruct (Hk a (ex_intro _ w (f_equal fst Em)) w1) as (e2 & E2 & F2).
  exists (e1 ++ e2). rewrite E2, E1, app_assoc. split; [done|].
  by apply Forall_app.
Qed.

Section provenance.
Context (env : Env).


Lemma returns_client_call {R} (f : WeaviateClient -> sdk_call R) r :
  returns (client_call env f) r -> exists n c, sdk env R n (f c) = Ok r.
Proof.
  intros [w H]. unfold client_call, the_client in H.
  unfold bind, get_client, call in H.
  destruct (client w) as [c|]; cbn [ret raise fst snd] in H; [|discriminate].
  exists (length (trace w)), c.
  destruct (sdk env R _ (f c)); cbn [fst] in H; congruence.
Qed.

Lemma returns_read_input p s :
  returns (read_input env p) s -> exists n, input env n p = Ok s.
Proof.
  intros [w H]. unfold read_input in H. exists (length (trace w)).
  destruct (input env _ p); simpl in H; congruence.
Qed.
End provenance.

Ltac no_call_side := by (intros; unfold no_handler_call; simpl; auto).

Ltac no_call_events :=
  let ev := fresh "ev" in
  intros ev; unfold no_handler_call; destruct ev as [? []| | | | |]; simpl; tauto.

Section destructive.
Context (env : Env).
Hypothesis Hno : never_confirms env.

Lemma declined_confirmation p (k : string -> M unit) :
  (forall s, lower s <> "yes" -> emits no_handler_call (k s)) ->
  emits no_handler_call (bind (read_input env p) k).
Proof.
  intros Hk. apply emits_bind_val.
  - apply emits_read_input. done.
  - intros s [n Hs]%returns_read_input. apply Hk. by eapply Hno.
Qed.

Lemma destructive_no_call a cmd :
  destructive cmd = true ->
  emits no_handler_call (try_finally (dispatch env cmd a) (close_connection env)).
Proof.
  intros Hd. apply emits_try_finally.
  2:{ emits_prog no_call_side no_call_events. }
  destruct cmd; try discriminate; cbn [dispatch];
    [unfold handle_collection_delete|unfold handle_user_delete|unfold handle_role_delete];
    (apply emits_bind;
     [ emits_prog no_call_side no_call_events
     | intros _; cbv zeta; apply declined_confirmation; intros s Hs;
       destruct (String.eqb_spec (lower s) "yes"); [done|]; cbn [negb];
       apply emits_print; done ]).
Qed.
End destructive.

Lemma handler_call_delete ev : is_delete_call ev = true -> handler_call ev = true.
Proof. by destruct ev as [? []| | | | |]. Qed.

(** C8.  For [collection delete], [user delete] and [role delete]: if the
    answer read at the confirmation prompt, lowercased, is never exactly
    [yes] (this includes a prompt that cannot be read), the run issues no
    call on the database at all — in particular no delete call; the only
    calls are those that open, probe and close the connection. *)
Theorem no_delete_without_confirmation env a :
  destructive (args.func a) = true ->
  never_confirms env ->
  Forall (fun ev => handler_call ev = false /\ is_delete_call ev = false)
         (trace (run env a).2).
Proof.
  intros Hd Hno.
  assert (Forall no_handler_call (trace (run env a).2)) as H.
  { rewrite run_startup.
    destruct (startup_spec env a) as (evs0 & E0 & Hc & F0 & Hs).
    assert (Forall no_handler_call evs0) as F0'.
    { eapply Forall_impl; [exact F0|]. by intros [| | | | |]. }
    destruct (startup env a) as [[a'|e|code] w]; cbn [fst snd] in *; subst evs0;
      [|done..].
    destruct Hs as (_ & n & _ & ->).
    destruct (destructive_no_call env Hno
                (args.with_root_key (merged env a) (args.root_key a')) (args.func a) Hd w)
      as (evs & E & F).
    change (args.func (args.with_root_key (merged env a) (args.root_key a')))
      with (args.func a).
    rewrite E. apply Forall_app. done. }
  eapply Forall_impl; [exact H|]. intros ev Hev. split; [done|].
  destruct (is_delete_call ev) eqn:E; [|done].
  apply handler_call_delete in E. unfold no_handler_call in Hev. congruence.
Qed.





Lemma returns_bind {A B} (m : M A) (k : A -> M B) b :
  returns (bind m k) b -> exists a, returns m a /\ returns (k a) b.
Proof.
  intros [w H]. unfold bind in H. destruct (m w) as [[a|e|c] w1] eqn:E; [|done..].
  exists a. split; [exists w; by rewrite E|by exists w1].
Qed.



Section grpc.
Context (env : Env).






End grpc.


(** C2 as written fails for the URL: with no flag and no file value, no
    environment variable supplies it. *)
Lemma url_is_not_read_from_environment : ~ url_from_environment.
Proof.
  intros [var H].
  set (env := example_env healthy_server (Ok "no") {[var := "http://localhost:8080"]}).
  destruct (startup env no_url_args) as [o w] eqn:E.
  assert (exists a', o = Normal a' /\ args.url a' = PNone) as (a' & -> & Hu).
  { lazy in E. injection E as <- _. eexists. split; [reflexivity|]. reflexivity. }
  specialize (H env no_url_args a' w "http://localhost:8080" E eq_refl eq_refl).
  rewrite Hu in H. discriminate H. subst env. cbn [environ example_env].
  apply lookup_singleton_eq.
Qed.

(** C2, amended.  When the start-up phase passes: the URL, the gRPC host and
    the gRPC port are the flag value if given, otherwise the value of the
    configuration file ([None] when the file has none) — no environment
    variable is read for them.  The API key is the flag value if given,
    otherwise the file's; if that is empty or missing, the environment
    variable [WEAVIATE_API_KEY] (else [WEAVIATE_ROOT_KEY]); if that is empty or
    missing too, the non-empty answer to the prompt. *)
Theorem connection_settings_precedence env a a' w :
  startup env a = (Normal a', w) ->
  let cfg := config_of env a in
  args.url a' = first_given [args.url a; yaml_value cfg "weaviate_url"] /\
  args.grpc_host a' = first_given [args.grpc_host a; yaml_value cfg "grpc_host"] /\
  args.grpc_port a' = first_given [args.grpc_port a; yaml_value cfg "grpc_port"] /\
  (if truthy (merged_key env a) then args.root_key a' = merged_key env a
   else if truthy (environ_api_key env) then args.root_key a' = environ_api_key env
   else exists n s, getpass env n api_key_prompt = Ok s /\ s <> EmptyString /\
                    args.root_key a' = PStr s).
Proof.
  intros E cfg.
  destruct (startup_spec env a) as (evs0 & _ & _ & _ & Hs). rewrite E in Hs.
  cbn [fst] in Hs. destruct Hs as (_ & n & Hk & ->).
  repeat (split; [reflexivity|]).
  unfold key_by_precedence in Hk.
  change (args.root_key (merged env a)) with (merged_key env a) in Hk.
  destruct (truthy (merged_key env a)); [by injection Hk as <-|].
  destruct (truthy (environ_api_key env)); [by injection Hk as <-|].
  destruct (getpass env n api_key_prompt) as [s|e] eqn:Eg; [|done].
  destruct (String.eqb_spec s EmptyString); [done|].
  injection Hk as <-. eauto.
Qed.






(** When the collection is there, the document is printed. *)
Example describe_prints_json :
  let r := run (example_env healthy_server (Ok "no") ∅) (example_args Collection_describe) in
  exit_status r.1 = 0%Z /\
  List.filter is_json (trace r.2) = [PrintJson (config_dict_of example_config)].
Proof. vm_compute. done. Qed.

Lemma handler_calls_app a b : handler_calls (a ++ b) = handler_calls a + handler_calls b.
Proof. unfold handler_calls. by rewrite List.filter_app, length_app. Qed.

Section within.
Context (env : Env).

Lemma within_weaken {A} n n' (m : M A) : n <= n' -> within n m -> within n' m.
Proof. intros Hn H w. destruct (H w) as (evs & E & Hc). exists evs. split; [done|lia]. Qed.

Lemma within_ret {A} n (a : A) : within n (ret a).
Proof. intros w. exists []. simpl. rewrite app_nil_r. split; [done|]. cbn. lia. Qed.

Lemma within_raise {A} n e : within n (@raise A e).
Proof. intros w. exists []. simpl. rewrite app_nil_r. split; [done|]. cbn. lia. Qed.

Lemma within_lift {A} n (r : result A) : within n (lift r).
Proof. destruct r; [apply within_ret|apply within_raise]. Qed.

Lemma within_get_client n : within n get_client.
Proof. intros w. exists []. simpl. rewrite app_nil_r. split; [done|]. cbn. lia. Qed.

Lemma within_print n s : within n (print s).
Proof. intros w. exists [Print s]. split; [done|]. cbn. lia. Qed.

Lemma within_emit_json n d : within n (emit (PrintJson d)).
Proof. intros w. exists [PrintJson d]. split; [done|]. cbn. lia. Qed.

Lemma within_read_input n p : within n (read_input env p).
Proof.
  intros w. exists [Input p]. unfold read_input.
  destruct (input env _ p); (split; [done|]); cbn; lia.
Qed.

Lemma within_call {R} n (c : sdk_call R) : within (S n) (call env c).
Proof.
  intros w. exists [Call c]. unfold call.
  destruct (sdk env R _ c); (split; [done|]); unfold handler_calls;
    cbn [List.filter]; destruct (handler_call (Call c)); cbn [length]; lia.
Qed.

Lemma within_bind {A B} n1 n (m : M A) (k : A -> M B) :
  within n1 m -> (forall a, within (n - n1) (k a)) -> n1 <= n -> within n (bind m k).
Proof.
  intros Hm Hk Hn w. unfold bind.
  destruct (Hm w) as (e1 & E1 & C1).
  destruct (m w) as [[a|e|c] w1]; cbn [fst snd] in *;
    try (exists e1; split; [done|lia]).
  destruct (Hk a w1) as (e2 & E2 & C2).
  exists (e1 ++ e2). rewrite E2, E1, app_assoc, handler_calls_app. split; [done|lia].
Qed.

Lemma within_client_call {R} n (f : WeaviateClient -> sdk_call R) :
  within (S n) (client_call env f).
Proof.
  unfold client_call, the_client.
  apply (within_bind 0); [|intros c; rewrite Nat.sub_0_r; apply within_call|lia].
  apply (within_bind 0); [apply within_get_client| |lia].
  intros [c|]; [apply within_ret|apply within_raise].
Qed.

Lemma within_try_except {A} n (body : M A) clauses :
  within n body -> all_clauses (within 0) clauses ->
  within n (try_except body (except clauses)).
Proof.
  intros Hb Hh w. unfold try_except.
  destruct (Hb w) as (e1 & E1 & C1).
  destruct (body w) as [[a|e|c] w1]; cbn [fst snd] in *;
    try (exists e1; split; [done|lia]).
  destruct (except clauses e) as [h|] eqn:Eh; [|exists e1; split; [done|lia]].
  assert (within 0 h) as Hk.
  { clear -Hh Eh. induction clauses as [|[ks h0] r IH]; simpl in *; [done|].
    destruct Hh as [H0 Hr]. destruct (isinstance e ks); [|by eauto].
    injection Eh as <-. apply H0. }
  destruct (Hk w1) as (e2 & E2 & C2).
  exists (e1 ++ e2). rewrite E2, E1, app_assoc, handler_calls_app. split; [done|lia].
Qed.

Lemma within_for_each {A} n (l : list A) body :
  (forall x, within n (body x)) -> within (length l * n) (for_each l body).
Proof.
  intros Hb. induction l as [|x l IH]; cbn [for_each length].
  - apply within_ret.
  - apply (within_bind n); [apply Hb| |lia]. intros _.
    eapply within_weaken; [|apply IH]. lia.
Qed.

Lemma within_for_each_silent {A} n (l : list A) body :
  (forall x, within 0 (body x)) -> within n (for_each l body).
Proof.
  intros Hb. eapply within_weaken; [|by apply within_for_each]. lia.
Qed.

Lemma within_parse_properties_v4 n props : within n (parse_properties_v4 env props).
Proof.
  intros w. rewrite parse_properties_v4_run. eexists. split; [done|].
  unfold handler_calls, parse_properties_warnings.
  induction (omap _ _) as [|? ? IH]; cbn in *; lia.
Qed.
End within.

Ltac within_leaf :=
  first
    [ apply within_ret | apply within_raise | apply within_lift | apply within_print
    | apply within_emit_json | apply within_read_input | apply within_get_client
    | apply within_parse_properties_v4 | apply within_call | apply within_client_call ].

Ltac within_solve :=
  lazymatch goal with
  | |- within ?n (bind _ _) =>
      first
        [ solve [apply (within_bind 0); [within_solve|intros ?; cbn [Nat.sub]; within_solve|lia]]
        | solve [apply (within_bind 1); [within_solve|intros ?; cbn [Nat.sub]; within_solve|lia]]
        | solve [apply (within_bind 2); [within_solve|intros ?; cbn [Nat.sub]; within_solve|lia]]
        | solve [apply (within_bind 3); [within_solve|intros ?; cbn [Nat.sub]; within_solve|lia]] ]
  | |- within _ (try_except _ (except _)) =>
      apply within_try_except;
      [ within_solve
      | cbn [all_clauses]; repeat (apply conj; [intros ?|]); [..|exact I]; within_solve ]
  | |- within _ (for_each _ _) => apply within_for_each_silent; intros ?; within_solve
  | |- within _ (if ?b then _ else _) => destruct b; within_solve
  | |- within _ (match ?x with _ => _ end) => destruct x; within_solve
  | |- within _ (let '(_, _) := ?x in _) => destruct x; within_solve
  | |- within _ (let _ := _ in _) => cbv zeta; within_solve
  | |- within _ _ => first [within_leaf | progress autounfold with body; within_solve]
  end.

Section budgets.
Context (env : Env).

Lemma within_listing {R} (f : WeaviateClient -> sdk_call (list R))
    (k : list R -> M unit) clauses w :
  (forall l, within (length l) (k l)) ->
  all_clauses (within 0) clauses ->
  exists evs,
    trace (try_except (bind (client_call env f) k) (except clauses) w).2 = trace w ++ evs /\
    (handler_calls evs <= 1 \/
     exists n c l, sdk env _ n (f c) = Ok l /\ handler_calls evs <= 1 + length l).
Proof.
  intros Hk Hh.
  assert (forall e w1 e1, trace w1 = trace w ++ e1 ->
            exists evs,
              trace (match except clauses e with
                     | Some h => h w1
                     | None => (Raised e, w1)
                     end).2 = trace w ++ evs /\
              handler_calls evs <= handler_calls e1) as Hhandler.
  { intros e w1 e1 E1. destruct (except clauses e) as [h|] eqn:Eh; [|by exists e1].
    assert (within 0 h) as Hw.
    { clear -Hh Eh. induction clauses as [|[ks h0] r IH]; simpl in *; [done|].
      destruct Hh as [H0 Hr]. destruct (isinstance e ks); [|by eauto].
      injection Eh as <-. apply H0. }
    destruct (Hw w1) as (e2 & E2 & C2). exists (e1 ++ e2).
    rewrite E2, E1, app_assoc, handler_calls_app. split; [done|lia]. }
  unfold try_except, bind at 1.
  destruct (within_client_call env 0 f w) as (e1 & E1 & C1).
  destruct (client_call env f w) as [[l|e|c] w1] eqn:Ec; cbn [fst snd] in *.
  - assert (returns (client_call env f) l) as (n & c & Hl)%returns_client_call.
    { exists w. by rewrite Ec. }
    destruct (Hk l w1) as (e2 & E2 & C2).
    assert (trace (k l w1).2 = trace w ++ (e1 ++ e2)) as E12
      by by rewrite E2, E1, app_assoc.
    destruct (k l w1) as [[[]|e|code] w2]; cbn [fst snd] in *.
    + exists (e1 ++ e2). split; [done|]. right. exists n, c, l. split; [done|].
      rewrite handler_calls_app. lia.
    + destruct (Hhandler e w2 (e1 ++ e2) E12) as (evs & E & C). exists evs.
      split; [done|]. right. exists n, c, l. split; [done|].
      rewrite handler_calls_app in C. lia.
    + exists (e1 ++ e2). split; [done|]. right. exists n, c, l. split; [done|].
      rewrite handler_calls_app. lia.
  - destruct (Hhandler e w1 e1 E1) as (evs & E & C). exists evs. split; [done|].
    left. lia.
  - exists e1. split; [done|]. left. lia.
Qed.

Lemma budgeted_within a cmd m :
  within (call_budget cmd) m -> budgeted env a cmd m.
Proof. intros H w. destruct (H w) as (evs & E & C). exists evs. eauto. Qed.

Lemma budgeted_print_then a cmd s m :
  budgeted env a cmd m -> budgeted env a cmd (print s;; m).
Proof.
  intros H w. unfold bind, print, emit. cbn [client trace].
  destruct (H (mk_world (client w) (trace w ++ [Print s]))) as (evs & E & C).
  exists (Print s :: evs). rewrite E. cbn [trace]. rewrite <- app_assoc.
  split; [done|]. exact C.
Qed.

Lemma list_collection_within detailed item : within 1 (list_collection env detailed item).
Proof. unfold list_collection. within_solve. Qed.

Lemma list_user_within key_obj : within 1 (list_user env key_obj).
Proof. unfold list_user. within_solve. Qed.

Lemma list_role_within detailed item : within 1 (list_role env detailed item).
Proof. unfold list_role. within_solve. Qed.
End budgets.

Section budgets2.
Context (env : Env).

Lemma within_items {A} (l : list A) s1 s2 (f : A -> M unit) :
  (forall x, within 1 (f x)) ->
  within (length l)
    (match l with
     | [] => print s2
     | _ :: _ => print s1;; for_each l f
     end).
Proof.
  intros Hf. destruct l as [|x l]; [apply within_print|].
  apply (within_bind 0); [apply within_print| |lia]. intros _.
  eapply within_weaken; [|by apply within_for_each]. lia.
Qed.

Lemma dispatch_budget a cmd :
  exists k : WeaviateClient -> M unit,
    dispatch env cmd a = bind (connect env a) k /\
    (forall c, keeps true (k c)) /\
    (forall c, emits body_event (k c)) /\
    (forall c, budgeted env a cmd (k c)).
Proof.
  destruct cmd; cbn [dispatch];
    (eexists; split; [reflexivity|]; split; [|split]; intros _).
  all: try (solve [keeps_body]).
  all: try (solve [emits_prog ltac:(by (intros; simpl; auto)) ltac:(by_cases_on_event)]).
  all: try (solve [apply budgeted_within; cbn [call_budget]; within_solve]).
  all: apply budgeted_print_then; intros w;
    lazymatch goal with
    | |- context [try_except (bind (client_call env ?f) ?k) (except ?cl) w] =>
        destruct (within_listing env f k cl w) as (evs & E & C);
        [ intros l; apply within_items;
          first [apply list_collection_within | apply list_user_within
                | apply list_role_within]
        | cbn [all_clauses]; repeat (apply conj; [intros ?|]); [..|exact I]; within_solve
        | ]
    end;
    (exists evs; split; [exact E|]; destruct C as [C|(n & c & l & Hl & C)]; [by left|];
     right; exists (length l); split; [|done]; cbn [listed]; eauto).
Qed.
End budgets2.

Lemma handler_calls_none evs :
  Forall (fun ev => handler_call ev = false) evs -> handler_calls evs = 0.
Proof.
  unfold handler_calls. induction 1 as [|ev l H _ IH]; [done|].
  cbn [List.filter]. by rewrite H.
Qed.

Lemma startup_no_calls evs : Forall startup_event evs -> handler_calls evs = 0.
Proof.
  intros H. apply handler_calls_none. eapply Forall_impl; [exact H|].
  by intros [| | | | |].
Qed.

Lemma connection_no_calls evs : Forall connection_event evs -> handler_calls evs = 0.
Proof.
  intros H. apply handler_calls_none. eapply Forall_impl; [exact H|].
  by intros [? []| | | | |].
Qed.

Lemma quiet_no_calls evs : Forall quiet_event evs -> handler_calls evs = 0.
Proof.
  intros H. apply handler_calls_none. eapply Forall_impl; [exact H|].
  by intros [| | | | |[]].
Qed.

(** C5, amended.  Every run is: start-up and connection, then the handler's
    calls on the database and its printing, then the disconnection.  Between
    connecting and disconnecting the handler issues at most [call_budget]
    calls on the database — none for a cancelled delete, up to three for
    [collection describe], up to four for [user create] — and a list handler
    issues its listing call and at most one more call per listed item. *)
Theorem handler_calls_bounded env a :
  exists before body after,
    trace (run env a).2 = before ++ body ++ after /\
    handler_calls before = 0 /\ handler_calls after = 0 /\
    Forall body_event body /\
    (handler_calls body <= call_budget (args.func a) \/
     exists items, listed env a (args.func a) items /\ handler_calls body <= 1 + items).
Proof.
  rewrite run_startup.
  destruct (startup_spec env a) as (evs0 & E0 & Hc & F0 & Hs).
  destruct (startup env a) as [[a'|e|code] w]; cbn [fst snd] in *; subst evs0.
  2,3: (exists (trace w), [], []; rewrite !app_nil_r;
        split; [done|]; split; [by apply startup_no_calls|];
        split; [done|]; split; [done|]; left; cbn; lia).
  destruct Hs as (_ & n & _ & Ha').
  destruct (dispatch_budget env a' (args.func a')) as (k & -> & Hk & He & Hb).
  set (P := fun evs =>
              Forall body_event evs /\
              (handler_calls evs <= call_budget (args.func a) \/
               exists items, listed env a (args.func a) items /\
                             handler_calls evs <= 1 + items)).
  assert (forall c w1, exists evs, trace (k c w1).2 = trace w1 ++ evs /\ P evs) as HP.
  { intros c w1. destruct (He c w1) as (evs & E & F).
    destruct (Hb c w1) as (evs' & E' & C). rewrite E in E'.
    apply app_inv_head in E' as <-. exists evs. split; [done|]. split; [done|].
    rewrite Ha' in C. exact C. }
  pose proof (finally_after_connect env a' k true P w Hc Hk HP) as H. cbv zeta in H.
  destruct (emits_connect_to_weaviate env (args.url a') (args.root_key a')
              (args.grpc_host a') (args.grpc_port a') w) as (evsc & Ec & Fc).
  fold (connect env a' w) in Ec.
  destruct (connect env a' w) as [[c|e|code] w1] eqn:Econ; cbn [snd] in Ec.
  - destruct H as (evs1 & evs2 & evs3 & F1 & [F2 C] & F3 & _ & Hn & E1 & E2).
    exists (trace w1), evs2, (Call (close c) :: evs3). split; [done|].
    split; [|split; [|split]]; try done.
    + rewrite Ec, handler_calls_app, startup_no_calls, connection_no_calls; done.
    + change (handler_calls (Call (close c) :: evs3)) with (handler_calls evs3).
      by apply quiet_no_calls.
  - destruct H as (-> & _ & _ & evs1 & E1 & F1). cbn [snd].
    exists (trace w1), [], []. rewrite !app_nil_r. split; [done|].
    split; [rewrite Ec, handler_calls_app, startup_no_calls, connection_no_calls; done|].
    split; [done|]. split; [done|]. left. cbn. lia.
  - destruct H as (-> & _ & _ & evs1 & E1 & F1). cbn [snd].
    exists (trace w1), [], []. rewrite !app_nil_r. split; [done|].
    split; [rewrite Ec, handler_calls_app, startup_no_calls, connection_no_calls; done|].
    split; [done|]. split; [done|]. left. cbn. lia.
Qed.



(** C3.  [collection create] on a server that refuses the existence check:
    the exception of [client.collections.exists] is raised outside the
    handler's [try]; nothing is printed about it, the connection is closed by
    [main], and the exception ends the process with status 1. *)
Lemma refused_existence_check_escapes :
  let r := run refusing_env (example_args Collection_create) in
  r.1 = Raised forbidden /\ exit_status r.1 = 1%Z /\
  drop 6 (trace r.2) =
    [ Assign (Some the_connection);
      Print "Successfully connected to Weaviate.";
      Print "Attempting to create collection 'Article'...";
      Call (collections_exists the_connection "Article");
      Call (close the_connection);
      Print "Weaviate client connection closed.";
      Assign None ].
Proof. vm_compute. done. Qed.

(** The sibling handler guards the same check. *)
Example refused_existence_check_is_caught_by_describe :
  let r := run refusing_env (example_args Collection_describe) in
  r.1 = Normal tt /\
  drop 8 (trace r.2) =
    [ Print "Fetching details for collection 'Article'...";
      Call (collections_exists the_connection "Article");
      Print ("An unexpected error occurred while describing collection 'Article': " +:+
             "InsufficientPermissionsError - InsufficientPermissionsError('forbidden')");
      Call (close the_connection);
      Print "Weaviate client connection closed.";
      Assign None ].
Proof. vm_compute. done. Qed.

(** C5 as written fails for [user create --recreate-api-key --role viewer] of
    an existing user: four calls on the database, not at most two. *)
Lemma user_create_issues_four_calls :
  List.filter handler_call (trace (run healthy_env (example_args User_create)).2) =
    [ Call (users_db_list_all the_connection);
      Call (users_db_delete the_connection "alice");
      Call (users_db_create the_connection "alice");
      Call (users_db_assign_roles the_connection "alice" ["viewer"]) ] /\
  ~ handler_calls (trace (run healthy_env (example_args User_create)).2) <= 2.
Proof. split; [vm_compute; reflexivity|]. vm_compute. lia. Qed.

(** C2, amended, at [role list] with the URL and the key given as flags. *)
Lemma connection_settings_precedence_witness :
  startup healthy_env (example_args Role_list) =
    (Normal (example_args Role_list),
     mk_world None [Print "Using weaviate-client version: 4.14.1"]) /\
  args.url (example_args Role_list) =
    first_given [args.url (example_args Role_list);
                 yaml_value (config_of healthy_env (example_args Role_list)) "weaviate_url"].
Proof.
  split; [vm_compute; reflexivity|].
  apply (connection_settings_precedence healthy_env (example_args Role_list)
           (example_args Role_list)
           (mk_world None [Print "Using weaviate-client version: 4.14.1"])).
  vm_compute. reflexivity.
Defined.


(** C8 at [user delete] with the answer [no]. *)
Lemma no_delete_without_confirmation_witness :
  destructive (args.func (example_args User_delete)) = true /\
  never_confirms healthy_env /\
  Forall (fun ev => handler_call ev = false /\ is_delete_call ev = false)
    (trace (run healthy_env (example_args User_delete)).2).
Proof.
  assert (never_confirms healthy_env) as Hno.
  { intros n p s [= <-]. vm_compute. discriminate. }
  split; [reflexivity|]. split; [exact Hno|].
  apply (no_delete_without_confirmation healthy_env (example_args User_delete));
    [reflexivity|exact Hno].
Defined.

(** With the answer [YES] the delete call is issued. *)
Example confirmed_delete_is_issued :
  List.filter handler_call
    (trace (run (example_env healthy_server (Ok "YES") ∅) (example_args User_delete)).2)
  = [Call (users_db_delete the_connection "alice")].
Proof. vm_compute. reflexivity. Qed.

(** The parser on a mixed list. *)
Example parse_properties_v4_example :
  parse_properties_v4 healthy_env (Some ["title:text"; "weight"; "a:b:c"; ":int"])
    initial_world =
    (Normal (Some [mk_Property "title" DataType.TEXT; mk_Property EmptyString DataType.INT]),
     mk_world None
       [ Print "Warning: Invalid property format 'weight'. Expected 'name:dataType'. Skipping.";
         Print "Warning: Unsupported or unknown dataType 'b:c' for property 'a'. Skipping this property." ]).
Proof. vm_compute. reflexivity. Qed.

(** On a healthy server the handle is stored once and closed once. *)
Example stored_handle_is_closed :
  List.filter (fun ev => assigns_handle ev || is_close_of the_connection ev)
    (trace (run healthy_env (example_args Role_list)).2)
  = [Assign (Some the_connection); Call (close the_connection)].
Proof. vm_compute. reflexivity. Qed.

(** The handle is stored only after the readiness probe.  A client object
    whose probe raises is never stored, so [close] is not called on it; the
    run ends with status 1. *)
Example client_of_failed_probe_is_not_stored :
  let r := run (example_env unprobed_server (Ok "no") ∅) (example_args Role_list) in
  exit_status r.1 = 1%Z /\
  connect_attempts (trace r.2) = [local_attempt] /\
  existsb assigns_handle (trace r.2) = false /\
  existsb (is_close_of the_connection) (trace r.2) = false.
Proof. vm_compute. done. Qed.

(** * Further properties

    Properties of the module beyond the ten claims: the connection life
    cycle, the start-up phase, and what each handler sends to the database. *)

Section connection_shape.
Context (env : Env).

Lemma connect_handlers_Some l e : exists h, connect_handlers env l e = Some h.
Proof.
  unfold connect_handlers. apply (catches_all_Some _ e). cbn [catches_all]. tauto.
Qed.

(** With no handle in place, a handler of [connect_to_weaviate] prints,
    records [client = None] and leaves with status 1. *)
Lemma connect_handler_run l e w :
  client w = None ->
  exists evs,
    match connect_handlers env l e with
    | Some h => h w
    | None => (Raised e, w)
    end = (Exited 1, mk_world None (trace w ++ evs)) /\ Forall quiet_event evs.
Proof.
  intros Hc. destruct (connect_handlers_Some l e) as [h Hh]. rewrite Hh.
  exact (connect_handlers_gives_up env l e h Hh w Hc).
Qed.

Lemma connect_open_shape k l w :
  client w = None ->
  exists o hd evs,
    try_except (connect_open env (if truthy k then Some k else None) l)
      (connect_handlers env l) w = (o, mk_world hd (trace w ++ evs)) /\
    connect_attempt env (length (trace w) + 2) (connect_params k l) o hd evs.
Proof.
  intros Hc.
  assert (forall e w1 evs1 (P : option WeaviateClient -> list event -> Prop),
            client w1 = None -> trace w1 = trace w ++ evs1 ->
            (forall evs2, Forall quiet_event evs2 -> P None (evs1 ++ evs2)) ->
            exists o hd evs,
              match connect_handlers env l e with
              | Some h => h w1
              | None => (Raised e, w1)
              end = (o, mk_world hd (trace w ++ evs)) /\ o = Exited 1 /\ P hd evs) as Hh.
  { intros e w1 evs1 P Hc1 E1 HP.
    destruct (connect_handler_run l e w1 Hc1) as (evs2 & -> & F).
    exists (Exited 1), None, (evs1 ++ evs2). rewrite E1, app_assoc. auto. }
  unfold try_except at 1, connect_open.
  unfold bind at 1 2, print at 1 2, emit. cbn [client trace].
  unfold bind at 1, call at 1. cbn [client trace].
  fold (connect_params k l).
  rewrite !length_app. cbn [length]. rewrite <- Nat.add_assoc. cbn [Nat.add].
  destruct (sdk env WeaviateClient _ (connect_to_custom _)) as [new|e] eqn:E1.
  2:{ edestruct Hh as (o & hd & evs & -> & -> & H);
        [done|cbn [trace]; rewrite <- !app_assoc; reflexivity| |by eauto].
      intros evs2 F. cbn [app]. do 3 eexists. split; [reflexivity|]. rewrite E1. done. }
  unfold bind at 1, call at 1. cbn [client trace].
  rewrite !length_app. cbn [length]. rewrite <- !Nat.add_assoc. cbn [Nat.add].
  replace (length (trace w) + 3) with (S (length (trace w) + 2)) by lia.
  destruct (sdk env bool _ (is_ready new)) as [ready|e] eqn:E2.
  2:{ edestruct Hh as (o & hd & evs & -> & -> & H);
        [done|cbn [trace]; rewrite <- !app_assoc; reflexivity| |by eauto].
      intros evs2 F. cbn [app]. do 3 eexists. split; [reflexivity|]. rewrite E1.
      eexists. split; [reflexivity|]. rewrite E2. done. }
  destruct ready; cbn [negb].
  - unfold bind, set_client, print, emit, ret. cbn [client trace fst snd].
    do 3 eexists. rewrite <- !app_assoc. split; [reflexivity|].
    cbn [app]. do 3 eexists. split; [reflexivity|]. rewrite E1.
    eexists. split; [reflexivity|]. rewrite E2. done.
  - unfold bind at 1, print at 1, emit. cbn [client trace].
    unfold bind at 1, try_except at 1, bind at 1, call at 1. cbn [client trace].
    destruct (sdk env bool _ (is_live new)) as [live|e];
      [|rewrite except_Exception];
      unfold print at 1, emit; cbn [client trace];
      unfold bind at 1, call at 1; cbn [client trace];
      (destruct (sdk env unit _ (close new)) as [[]|e'];
       [ unfold exit; cbn [fst snd client trace];
         do 3 eexists; rewrite <- !app_assoc; (split; [reflexivity|]);
         cbn [app]; do 3 eexists; (split; [reflexivity|]); rewrite E1;
         eexists; (split; [reflexivity|]); rewrite E2;
         eexists; eexists; exists []; rewrite ?Hc; done
       | edestruct Hh as (o & hd & evs & -> & -> & H);
           [done|cbn [trace]; rewrite <- !app_assoc; reflexivity| |by eauto];
         intros evs2 F; cbn [app]; do 3 eexists; (split; [reflexivity|]); rewrite E1;
         eexists; (split; [reflexivity|]); rewrite E2;
         do 3 eexists; done ]).
Qed.

Lemma connect_fresh_run url k h p w :
  client w = None ->
  exists o hd line evs,
    connect_to_weaviate env url k h p w = (o, mk_world hd (trace w ++ Print line :: evs)) /\
    ((Forall quiet_event evs /\ o = Exited 1 /\ hd = None) \/
     exists l, connect_attempt env (length (trace w) + 3) (connect_params k l) o hd evs).
Proof.
  intros Hc. unfold connect_to_weaviate.
  unfold bind at 1, get_client at 1. rewrite Hc. unfold bind at 1. cbn [ret].
  unfold bind at 1, print at 1, emit. cbn [client trace].
  match goal with
  | |- context [mk_world (client w) ?t] => set (w1 := mk_world (client w) t)
  end.
  assert (client w1 = None) as Hc1 by done.
  unfold bind at 1, try_except at 1.
  destruct (connect_prepare_None env url h p w1 Hc1) as [[l|e] ->].
  - destruct (connect_open_shape k l w1 Hc1) as (o & hd & evs & -> & H).
    subst w1. cbn [trace] in *. rewrite <- app_assoc.
    do 4 eexists. split; [reflexivity|]. right. exists l.
    rewrite length_app in H. cbn [length] in H.
    by replace (length (trace w) + 3) with (length (trace w) + 1 + 2) by lia.
  - destruct (connect_handler_run initial_locals e w1 Hc1) as (evs & E & F).
    destruct (connect_handlers env initial_locals e) as [hd|]; [|done].
    unfold bind at 1. rewrite E. subst w1. cbn [fst snd trace client].
    rewrite <- app_assoc. do 4 eexists. split; [reflexivity|]. left. done.
Qed.

End connection_shape.

Lemma key_by_precedence_truthy env a n k :
  key_by_precedence env a n = Some k -> truthy k = true.
Proof.
  unfold key_by_precedence.
  destruct (truthy (args.root_key (merged env a))) eqn:K1; [by intros [= <-]|].
  destruct (truthy (environ_api_key env)) eqn:K2; [by intros [= <-]|].
  destruct (getpass env n api_key_prompt) as [s|e]; [|done].
  destruct (String.eqb s EmptyString) eqn:K3; [done|]. intros [= <-]. simpl. by rewrite K3.
Qed.

Lemma connect_attempt_no_raise env n params o hd evs e :
  connect_attempt env n params o hd evs -> o <> Raised e.
Proof.
  intros (l1 & l2 & tail & _ & H).
  destruct (sdk env WeaviateClient n _) as [new|?]; [|by destruct H as (_ & -> & _)].
  destruct H as (tail' & _ & H).
  destruct (sdk env bool (S n) _) as [[]|?].
  - by destruct H as (_ & -> & _).
  - by destruct H as (? & ? & ? & _ & _ & -> & _).
  - by destruct H as (_ & -> & _).
Qed.

(** Every run is the start-up phase, whose events are printed lines and the
    prompt for the key, followed — when the phase yields a key — by the
    connection and the handler. *)
Lemma run_anatomy env a :
  match startup env a with
  | (Normal a', w) =>
      (exists n, key_by_precedence env a n = Some (args.root_key a')) /\
      Forall startup_event (trace w) /\
      run_after_startup env (args.root_key a') (trace w) (run env a)
  | (o, w) =>
      run env a = (match o with
                   | Normal _ => Normal tt | Raised e => Raised e | Exited c => Exited c
                   end, w) /\
      Forall startup_event (trace w)
  end.
Proof.
  rewrite run_startup.
  destruct (startup_spec env a) as (evs0 & E0 & Hc & F0 & Hs).
  destruct (startup env a) as [[a'|e|code] w]; cbn [fst snd] in *; subst evs0; [|done..].
  destruct Hs as (_ & n & Hkey & Ha').
  split; [by eauto|]. split; [done|].
  destruct (dispatch_bodies env a' (args.func a') eq_refl) as (k & -> & Hk & He & _).
  pose proof (finally_after_connect env a' k true (Forall body_event) w Hc Hk He) as H.
  cbv zeta in H.
  destruct (connect_fresh_run env (args.url a') (args.root_key a') (args.grpc_host a')
              (args.grpc_port a') w Hc) as (o & hd & line & evs1 & E & Hshape).
  fold (connect env a') in E. rewrite E in H.
  exists line, evs1.
  destruct Hshape as [(F1 & -> & ->)|(l & Hatt)].
  - left. destruct H as (-> & _). cbn [fst snd trace]. done.
  - right. exists l, o, hd.
    destruct o as [c|e|code].
    + destruct H as (evs1' & evs2 & evs3 & _ & F2 & F3 & _ & _ & _ & E2).
      cbn [trace] in E2. exists (evs2 ++ Call (close c) :: evs3).
      split; [done|]. split; [by rewrite E2, <- !app_assoc|]. eauto.
    + by eapply connect_attempt_no_raise in Hatt.
    + destruct H as (-> & _). exists []. split; [done|]. cbn [fst snd trace].
      by rewrite app_nil_r.
Qed.

Lemma startup_not_connect ev : startup_event ev -> is_call ev = false.
Proof. by destruct ev. Qed.

Lemma quiet_not_call ev : quiet_event ev -> is_call ev = false.
Proof. by destruct ev. Qed.

Lemma body_not_connect ev : body_event ev -> is_connect_call ev = false.
Proof. by destruct ev as [? []| | | | |]. Qed.

Lemma not_call_not_connect ev : is_call ev = false -> is_connect_call ev = false.
Proof. by destruct ev. Qed.

Lemma Forall_not_connect (P : event -> Prop) evs :
  (forall ev, P ev -> is_connect_call ev = false) ->
  Forall P evs -> Forall (fun ev => is_connect_call ev = false) evs.
Proof. intros H F. eapply Forall_impl; [exact F|exact H]. Qed.

Lemma quiet_not_connect evs :
  Forall quiet_event evs -> Forall (fun ev => is_connect_call ev = false) evs.
Proof.
  apply Forall_not_connect. intros ev H. by apply not_call_not_connect, quiet_not_call.
Qed.

Lemma startup_not_connect_all evs :
  Forall startup_event evs -> Forall (fun ev => is_connect_call ev = false) evs.
Proof.
  apply Forall_not_connect. intros ev H. by apply not_call_not_connect, startup_not_connect.
Qed.

(** An attempt holds one call to [connect_to_custom]: its third event. *)
Lemma connect_attempt_one_call env n params o hd evs :
  connect_attempt env n params o hd evs ->
  exists line1 line2 tail,
    evs = Print line1 :: Print line2 :: Call (connect_to_custom params) :: tail /\
    Forall (fun ev => is_connect_call ev = false) tail.
Proof.
  intros (l1 & l2 & tail & -> & H). exists l1, l2, tail. split; [done|].
  destruct (sdk env WeaviateClient n _) as [new|?];
    [|destruct H as (F & _); by apply quiet_not_connect].
  destruct H as (tail' & -> & H). constructor; [done|].
  destruct (sdk env bool (S n) _) as [[]|?].
  - destruct H as (-> & _). by repeat constructor.
  - destruct H as (? & ? & ? & -> & F & _). repeat (constructor; [done|]).
    by apply quiet_not_connect.
  - destruct H as (F & _). by apply quiet_not_connect.
Qed.

Lemma connect_attempts_none evs :
  Forall (fun ev => is_connect_call ev = false) evs -> connect_attempts evs = [].
Proof.
  unfold connect_attempts. induction 1 as [|ev evs H F IH]; [done|].
  cbn [omap list_omap]. rewrite IH. by destruct ev as [? []| | | | |].
Qed.

Lemma connect_attempts_app l1 l2 :
  connect_attempts (l1 ++ l2) = connect_attempts l1 ++ connect_attempts l2.
Proof. apply omap_app. Qed.

Lemma clients_closed_none env evs : forall n,
  Forall (fun ev => is_connect_call ev = false) evs -> clients_closed env n evs = true.
Proof.
  induction evs as [|ev evs IH]; intros n F; [done|].
  inversion F as [|? ? H F']; subst. cbn [clients_closed]. rewrite IH by done.
  by destruct ev as [? []| | | | |].
Qed.

Lemma clients_closed_app_none env l1 l2 : forall n,
  Forall (fun ev => is_connect_call ev = false) l1 ->
  clients_closed env n (l1 ++ l2) = clients_closed env (n + length l1) l2.
Proof.
  induction l1 as [|ev l1 IH]; intros n F.
  - cbn. by rewrite Nat.add_0_r.
  - inversion F as [|? ? H F']; subst. cbn [app clients_closed length].
    rewrite IH by done. rewrite Nat.add_succ_r. cbn [Nat.add].
    by destruct ev as [? []| | | | |].
Qed.



(** X2.  No connection is leaked: in every run in which the readiness probe
    answers, each client object that [connect_to_custom] returned has
    [close] called on it before the process ends — also the client that was
    never stored in the handle because the server was not ready. *)
Theorem created_clients_are_closed env a :
  probe_answers env -> clients_closed env 0 (trace (run env a).2) = true.
Proof.
  intros Hp. pose proof (run_anatomy env a) as H.
  destruct (startup env a) as [[a'|e|code] w].
  2,3: destruct H as (-> & F); cbn [snd];
       by apply clients_closed_none, startup_not_connect_all.
  destruct H as (_ & F0 & line & evs1 & H).
  apply startup_not_connect_all in F0.
  destruct H as [(-> & F1 & _)|(l & o & hd & evs2 & Hatt & -> & Ho)].
  { apply clients_closed_none. apply Forall_app. split; [done|].
    constructor; [done|]. by apply quiet_not_connect. }
  destruct Hatt as (l1 & l2 & tail & -> & Hatt).
  change (trace w ++ Print line :: (Print l1 :: Print l2 :: ?c :: tail) ++ evs2)
    with (trace w ++ [Print line; Print l1; Print l2] ++ c :: tail ++ evs2).
  rewrite app_assoc, clients_closed_app_none
    by (apply Forall_app; split; [done|by repeat constructor]).
  rewrite length_app. cbn [length Nat.add clients_closed].
  destruct (sdk env WeaviateClient _ _) as [new|?] eqn:E1.
  2:{ destruct Hatt as (F & -> & _). destruct Ho as [-> _]. rewrite app_nil_r.
      cbn [andb]. by apply clients_closed_none, quiet_not_connect. }
  destruct Hatt as (tail' & -> & Hatt).
  destruct (Hp (S (length (trace w) + 3)) new) as [ready Er]. rewrite Er in Hatt.
  destruct ready.
  - destruct Hatt as (-> & -> & _). destruct Ho as (body & evs3 & -> & Fb & F3).
    apply andb_true_intro. split.
    + change (Call (is_ready new) :: [?x; ?y] ++ body ++ ?z :: evs3)
        with ((Call (is_ready new) :: x :: y :: body) ++ z :: evs3).
      apply existsb_close.
    + apply clients_closed_none. repeat (constructor; [done|]).
      apply Forall_app. split; [eapply Forall_not_connect; [apply body_not_connect|done]|].
      constructor; [done|]. by apply quiet_not_connect.
  - destruct Hatt as (l3 & l4 & tail'' & -> & F & -> & _). destruct Ho as [-> _].
    rewrite app_nil_r. apply andb_true_intro. split.
    + cbn [existsb is_close_of]. rewrite Nat.eqb_refl. by rewrite !orb_true_r.
    + apply clients_closed_none. repeat (constructor; [done|]).
      by apply quiet_not_connect.
Qed.

Lemma created_clients_are_closed_witness :
  clients_closed healthy_env 0
    (trace (run healthy_env (example_args Collection_list)).2) = true.
Proof.
  apply (created_clients_are_closed healthy_env (example_args Collection_list)).
  intros n c. exists true. reflexivity.
Defined.

(** X3.  A run makes at most one connection attempt: [connect_to_custom] is
    called once or not at all, and never again after a failure. *)
Theorem at_most_one_connection_attempt env a :
  length (connect_attempts (trace (run env a).2)) <= 1.
Proof.
  pose proof (run_anatomy env a) as H.
  destruct (startup env a) as [[a'|e|code] w].
  2,3: destruct H as (-> & F); cbn [snd];
       rewrite connect_attempts_none by (by apply startup_not_connect_all); cbn; lia.
  destruct H as (_ & F0 & line & evs1 & H).
  apply startup_not_connect_all in F0.
  destruct H as [(-> & F1 & _)|(l & o & hd & evs2 & Hatt & -> & Ho)].
  { rewrite connect_attempts_none; [cbn; lia|]. apply Forall_app. split; [done|].
    constructor; [done|]. by apply quiet_not_connect. }
  apply connect_attempt_one_call in Hatt as (l1 & l2 & tail & -> & Ft).
  assert (Forall (fun ev => is_connect_call ev = false) evs2) as F2.
  { destruct o as [c| |code]; [|done|by destruct Ho as [-> _]].
    destruct Ho as (body & evs3 & -> & Fb & F3). apply Forall_app.
    split; [eapply Forall_not_connect; [apply body_not_connect|done]|].
    constructor; [done|]. by apply quiet_not_connect. }
  rewrite connect_attempts_app, (connect_attempts_none _ F0). cbn [app].
  match goal with
  | |- context [connect_attempts (?x :: ?y :: ?z :: ?c :: tail ++ evs2)] =>
      change (x :: y :: z :: c :: tail ++ evs2) with ([x; y; z] ++ [c] ++ tail ++ evs2)
  end.
  rewrite !connect_attempts_app.
  rewrite (connect_attempts_none tail), (connect_attempts_none evs2) by done.
  cbn. lia.
Qed.

(** X4.  No anonymous connection: every call to [connect_to_custom] in a run
    carries the API key that the precedence rule yields (flag, file,
    environment, prompt), and that key is not empty. *)
Theorem connection_is_authenticated env a :
  Forall (authenticated env a) (trace (run env a).2).
Proof.
  assert (forall evs, Forall (fun ev => is_connect_call ev = false) evs ->
                      Forall (authenticated env a) evs) as Hn.
  { intros evs F. eapply Forall_impl; [exact F|]. by intros [? []| | | | |]. }
  pose proof (run_anatomy env a) as H.
  destruct (startup env a) as [[a'|e|code] w].
  2,3: destruct H as (-> & F); cbn [snd]; by apply Hn, startup_not_connect_all.
  destruct H as ((n & Hkey) & F0 & line & evs1 & H).
  apply startup_not_connect_all in F0.
  destruct H as [(-> & F1 & _)|(l & o & hd & evs2 & Hatt & -> & Ho)].
  { apply Hn. apply Forall_app. split; [done|].
    constructor; [done|]. by apply quiet_not_connect. }
  apply connect_attempt_one_call in Hatt as (l1 & l2 & tail & -> & Ft).
  assert (Forall (fun ev => is_connect_call ev = false) evs2) as F2.
  { destruct o as [c| |code]; [|done|by destruct Ho as [-> _]].
    destruct Ho as (body & evs3 & -> & Fb & F3). apply Forall_app.
    split; [eapply Forall_not_connect; [apply body_not_connect|done]|].
    constructor; [done|]. by apply quiet_not_connect. }
  apply Forall_app. split; [by apply Hn|].
  repeat (constructor; [done|]). cbn [app]. constructor.
  - cbn. exists n, (args.root_key a'). split; [done|].
    pose proof (key_by_precedence_truthy _ _ _ _ Hkey) as Ht. split; [done|].
    by rewrite Ht.
  - apply Forall_app. split; by apply Hn.
Qed.

(** X5.  Without an API key nothing reaches the network: when the flag, the
    file, the environment and the prompt all fail to give a key, the process
    ends with status 1 and has made no call into the client library. *)
Theorem missing_key_makes_no_call env a :
  credential_missing env a ->
  (run env a).1 = Exited 1 /\
  Forall (fun ev => is_call ev = false) (trace (run env a).2).
Proof.
  intros (code & w & E).
  pose proof (run_anatomy env a) as H. rewrite E in H. destruct H as (-> & F).
  destruct (startup_spec env a) as (_ & _ & _ & _ & Hs). rewrite E in Hs.
  destruct Hs as (-> & _). split; [done|]. cbn [snd].
  eapply Forall_impl; [exact F|]. apply startup_not_connect.
Qed.

Lemma missing_key_makes_no_call_witness :
  (run healthy_env keyless_args).1 = Exited 1 /\
  Forall (fun ev => is_call ev = false) (trace (run healthy_env keyless_args).2).
Proof.
  apply (missing_key_makes_no_call healthy_env keyless_args).
  exists 1%Z. eexists. vm_compute. reflexivity.
Defined.

(** X6.  [close_connection] never fails and is idempotent: whatever
    [client.close()] does — also when it raises — the call returns normally
    with the handle set to [None], having called [close] on the handle's
    client once; a second call does nothing. *)
Theorem close_connection_idempotent env w :
  let r := close_connection env w in
  r.1 = Normal tt /\ client r.2 = None /\
  match client w with
  | Some c => exists line, trace r.2 = trace w ++ [Call (close c); Print line; Assign None]
  | None => r.2 = w
  end /\
  close_connection env r.2 = r.
Proof.
  intros r. subst r. destruct (client w) as [c|] eqn:Hc.
  - assert (exists line,
              close_connection env w =
                (Normal tt, mk_world None (trace w ++ [Call (close c); Print line; Assign None])))
      as [line ->].
    { unfold close_connection, bind, get_client. rewrite Hc.
      unfold try_finally, try_except, bind, call.
      destruct (sdk env unit (length (trace w)) (close c)) as [[]|e];
        rewrite ?except_Exception; cbn [print emit set_client fst snd client trace];
        eexists; rewrite <- !app_assoc; reflexivity. }
    cbn [fst snd client]. repeat split; eauto.
  - rewrite close_connection_None by done. cbn [fst snd]. repeat split; try done.
    by rewrite close_connection_None.
Qed.

(** X7.  A healthy connection is reused: when the handle holds a client that
    reports connected and ready, [connect_to_weaviate] returns that client
    and opens no new connection; the two probes and one printed line are
    all it does. *)
Theorem healthy_connection_is_reused env url api_key cli_grpc_host cli_grpc_port w c :
  client w = Some c ->
  sdk env bool (length (trace w)) (is_connected c) = Ok true ->
  sdk env bool (S (length (trace w))) (is_ready c) = Ok true ->
  connect_to_weaviate env url api_key cli_grpc_host cli_grpc_port w =
    (Normal c,
     mk_world (Some c)
       (trace w ++ [Call (is_connected c); Call (is_ready c);
                    Print "Using existing healthy Weaviate connection."])).
Proof.
  intros Hc H1 H2. unfold connect_to_weaviate.
  unfold bind at 1, get_client at 1. rewrite Hc.
  unfold bind at 1 2, call at 1. rewrite H1. cbn [client trace].
  unfold call at 1. cbn [client trace]. rewrite length_app, Nat.add_1_r, H2.
  unfold bind, print, emit, ret. cbn [client trace]. by rewrite Hc, <- !app_assoc.
Qed.

Lemma healthy_connection_is_reused_witness :
  connect_to_weaviate healthy_env (PStr "http://localhost:8080") (PStr "admin-key")
    PNone PNone connected_world =
    (Normal the_connection,
     mk_world (Some the_connection)
       (trace connected_world ++
        [Call (is_connected the_connection); Call (is_ready the_connection);
         Print "Using existing healthy Weaviate connection."])).
Proof.
  apply (healthy_connection_is_reused healthy_env (PStr "http://localhost:8080")
           (PStr "admin-key") PNone PNone connected_world the_connection);
    reflexivity.
Defined.

(** X8.  What [parse_http_url_details] returns: the host is the URL's and is
    not empty; the secure flag tells [https] from [http], compared without
    regard to letter case; the port is the URL's when it has one, and
    otherwise (no port, or port 0) 443 for [https] and 80 for [http] — never
    0. *)
Theorem parse_http_url_details_defaults env url w host portno secure :
  (parse_http_url_details env url w).1 = Normal (host, portno, secure) ->
  exists parsed,
    py_urlparse env url = Ok parsed /\
    lower (scheme parsed) = (if secure then "https" else "http") /\
    hostname parsed = Some host /\ host <> EmptyString /\
    portno <> 0%Z /\
    match port parsed with
    | Ok (Some n) => portno = if (n =? 0)%Z then (if secure then 443 else 80)%Z else n
    | Ok None => portno = (if secure then 443 else 80)%Z
    | Raise _ => False
    end.
Proof.
  unfold parse_http_url_details, bind, lift.
  destruct (py_urlparse env url) as [parsed|e]; [|done]. cbn [ret].
  intros H. exists parsed. split; [done|].
  destruct (String.eqb_spec (lower (scheme parsed)) "https") as [E2|E2];
    destruct (String.eqb_spec (lower (scheme parsed)) "http") as [E1|E1];
    cbn [orb negb] in H; try done; try congruence;
    (destruct (hostname parsed) as [[|c0 h0]|] eqn:Eh; try done);
    (destruct (port parsed) as [[n|]|e] eqn:Ep; try done);
    cbn [ret fst] in H; injection H as <- <- <-; repeat split; try done;
    destruct (Z.eqb_spec n 0); done.
Qed.

Lemma parse_http_url_details_defaults_witness :
  exists parsed,
    py_urlparse healthy_env (PStr "https://db.example.com") = Ok parsed /\
    lower (scheme parsed) = (if true then "https" else "http") /\
    hostname parsed = Some "db.example.com" /\ "db.example.com" <> EmptyString /\
    443%Z <> 0%Z /\
    match port parsed with
    | Ok (Some n) => 443%Z = if (n =? 0)%Z then (if true then 443 else 80)%Z else n
    | Ok None => 443%Z = (if true then 443 else 80)%Z
    | Raise _ => False
    end.
Proof.
  apply (parse_http_url_details_defaults healthy_env (PStr "https://db.example.com")
           initial_world "db.example.com" 443%Z true).
  reflexivity.
Defined.

Lemma url_rejected_raises env url w :
  url_rejected env url = true ->
  exists e, parse_http_url_details env url w = (Raised e, w).
Proof.
  unfold url_rejected, parse_http_url_details, bind, lift.
  destruct (py_urlparse env url) as [parsed|e]; [|by eauto]. cbn [ret].
  destruct (negb _); [by eauto|]. cbn [orb].
  destruct (hostname parsed) as [[|c0 h0]|]; try by eauto.
  cbn [orb]. destruct (port parsed) as [p|e]; [done|]. by eauto.
Qed.

(** When the URL is rejected, [connect_to_weaviate] prints and leaves. *)
Lemma connect_rejected env url k h p w :
  client w = None ->
  url_rejected env url = true ->
  exists evs,
    connect_to_weaviate env url k h p w = (Exited 1, mk_world None (trace w ++ evs)) /\
    Forall quiet_event evs.
Proof.
  intros Hc Hr. unfold connect_to_weaviate.
  unfold bind at 1, get_client at 1. rewrite Hc. unfold bind at 1. cbn [ret].
  unfold bind at 1, print at 1, emit. cbn [client trace].
  match goal with
  | |- context [mk_world (client w) ?t] => set (w1 := mk_world (client w) t)
  end.
  assert (client w1 = None) as Hc1 by done.
  unfold bind at 1, try_except at 1.
  assert (exists e, connect_prepare env url h p w1 = (Raised e, w1)) as [e ->].
  { unfold connect_prepare, bind at 1 2, get_client. rewrite Hc1. cbn [ret].
    unfold bind. destruct (url_rejected_raises env url w1 Hr) as [e ->]. by exists e. }
  destruct (connect_handler_run env initial_locals e w1 Hc1) as (evs & E & F).
  destruct (connect_handlers env initial_locals e) as [hd|]; [|done].
  unfold bind at 1. rewrite E. subst w1. cbn [trace]. rewrite <- app_assoc.
  eexists. split; [reflexivity|]. constructor; [done|]. done.
Qed.

(** X9.  A URL that [parse_http_url_details] rejects — in particular no URL
    at all — ends the run with status 1 before any call into the client
    library. *)
Theorem rejected_url_makes_no_call env a :
  url_rejected env (args.url (merged env a)) = true ->
  exit_status (run env a).1 = 1%Z /\
  Forall (fun ev => is_call ev = false) (trace (run env a).2).
Proof.
  intros Hr. rewrite run_startup.
  destruct (startup_spec env a) as (evs0 & E0 & Hc & F0 & Hs).
  assert (Forall (fun ev => is_call ev = false) evs0) as F0'.
  { eapply Forall_impl; [exact F0|]. apply startup_not_connect. }
  destruct (startup env a) as [[a'|e|code] w]; cbn [fst snd] in *; subst evs0.
  2: done.
  2: by destruct Hs as (-> & _).
  destruct Hs as (_ & n & _ & Ha').
  destruct (dispatch_bodies env a' (args.func a') eq_refl) as (k & -> & Hk & He & _).
  pose proof (finally_after_connect env a' k true (Forall body_event) w Hc Hk He) as H.
  cbv zeta in H.
  assert (url_rejected env (args.url a') = true) as Hr' by (by rewrite Ha').
  destruct (connect_rejected env (args.url a') (args.root_key a') (args.grpc_host a')
              (args.grpc_port a') w Hc Hr') as (evs & E & F).
  fold (connect env a') in E. rewrite E in H. destruct H as (-> & _).
  cbn [fst snd trace exit_status]. split; [done|].
  apply Forall_app. split; [done|]. eapply Forall_impl; [exact F|]. apply quiet_not_call.
Qed.

Lemma rejected_url_makes_no_call_witness :
  exit_status (run healthy_env no_url_args).1 = 1%Z /\
  Forall (fun ev => is_call ev = false) (trace (run healthy_env no_url_args).2).
Proof.
  apply (rejected_url_makes_no_call healthy_env no_url_args). reflexivity.
Defined.

Lemma merge_config_error env a w e :
  (merge_config env a w).1 = Raised e -> exn_type_name e = "AttributeError".
Proof.
  unfold merge_config, bind at 1.
  destruct (config_yields env a w) as (evs & -> & _).
  unfold flag_or_config, dict_get, bind.
  destruct (config_of env a);
    destruct (is_None (args.url a)), (is_None (args.root_key a)),
      (is_None (args.grpc_host a)), (is_None (args.grpc_port a));
    cbn [negb ret raise fst]; try done; by intros [= <-].
Qed.

(** The start-up phase: the banner and the merge print and leave the handle
    alone; the merge may raise; then the key is looked for. *)
Lemma startup_eq env a :
  exists evs,
    Forall is_print evs /\
    (startup env a = require_root_key env (merged env a) (mk_world None evs) /\
     config_usable (config_of env a) a = true \/
     exists e, startup env a = (Raised e, mk_world None evs) /\
               config_usable (config_of env a) a = false /\
               exn_type_name e = "AttributeError").
Proof.
  destruct (print_client_version_yields env initial_world) as (e1 & E1 & F1).
  destruct (merge_config_yields env a) as (r & Hy & Hr).
  destruct (Hy (mk_world (client initial_world) (trace initial_world ++ e1)))
    as (e2 & E2 & F2).
  exists (e1 ++ e2). split; [by apply Forall_app|].
  destruct r as [a'|e].
  - left. destruct Hr as [Hu ->]. split; [|done].
    unfold startup, bind. by rewrite E1, E2.
  - right. exists e. split; [|split; [done|]].
    + unfold startup, bind. by rewrite E1, E2.
    + eapply merge_config_error. by rewrite E2.
Qed.

(** X10.  A configuration file whose document is not a mapping — a YAML list,
    say — is loaded without complaint, and the run then ends with an
    [AttributeError] at the first setting that has to be looked up in it,
    before any call into the client library.  Only when all four connection
    flags are given is the file not consulted. *)
Theorem non_mapping_config_aborts env a :
  config_usable (config_of env a) a = false ->
  exists e,
    (run env a).1 = Raised e /\ exn_type_name e = "AttributeError" /\
    Forall (fun ev => is_call ev = false) (trace (run env a).2).
Proof.
  intros Hu. destruct (startup_eq env a) as (evs & F & [[_ H]|(e & E & _ & Ht)]).
  { congruence. }
  exists e. rewrite run_startup, E. cbn [fst snd trace]. repeat split; try done.
  eapply Forall_impl; [exact F|]. by intros [].
Qed.

Lemma non_mapping_config_aborts_witness :
  exists e,
    (run list_config_env config_file_args).1 = Raised e /\
    exn_type_name e = "AttributeError" /\
    Forall (fun ev => is_call ev = false) (trace (run list_config_env config_file_args).2).
Proof.
  apply (non_mapping_config_aborts list_config_env config_file_args). reflexivity.
Defined.

Lemma handlers_read_only_confirmation env cmd a :
  emits (handler_read cmd) (try_finally (dispatch env cmd a) (close_connection env)).
Proof.
  emits_prog ltac:(by (intros; simpl; auto)) ltac:(by_cases_on_event).
Qed.

Lemma run_extends_startup env a :
  exists evs, trace (run env a).2 = trace (startup env a).2 ++ evs.
Proof.
  pose proof (run_anatomy env a) as H.
  destruct (startup env a) as [[a'|e|code] w]; cbn [snd].
  2,3: destruct H as (-> & _); exists []; by rewrite app_nil_r.
  destruct H as (_ & _ & line & evs1 & [(-> & _)|(l & o & hd & evs2 & _ & -> & _)]);
    eauto.
Qed.

(** X11.  A run reads the terminal for two things only: the API key, with
    [getpass] and its fixed prompt, when the command line, the file and the
    environment give none; and the confirmation of a delete command.  With a
    key supplied, every other command runs unattended. *)
Theorem terminal_is_read_for_key_and_confirmation env a :
  Forall (terminal_read_allowed env a) (trace (run env a).2).
Proof.
  assert (forall evs, Forall is_print evs -> Forall (terminal_read_allowed env a) evs) as Hp.
  { intros evs F. eapply Forall_impl; [exact F|]. by intros []. }
  rewrite run_startup.
  destruct (startup_eq env a) as (evs & F & [[E _]|(e & E & _)]).
  2:{ rewrite E. by apply Hp. }
  rewrite E. rewrite require_root_key_None by done.
  assert (forall k w,
            Forall (terminal_read_allowed env a) (trace w) ->
            Forall (terminal_read_allowed env a)
              (trace (try_finally
                        (dispatch env (args.func (args.with_root_key (merged env a) k))
                           (args.with_root_key (merged env a) k))
                        (close_connection env) w).2)) as Hd.
  { intros k w Fw.
    destruct (handlers_read_only_confirmation env (args.func a)
                (args.with_root_key (merged env a) k) w) as (evs' & E' & F').
    change (args.func (args.with_root_key (merged env a) k)) with (args.func a).
    rewrite E'. apply Forall_app. split; [done|].
    eapply Forall_impl; [exact F'|]. intros [| | | | |]; simpl; tauto. }
  destruct (truthy (args.root_key (merged env a))) eqn:K1.
  { replace (merged env a) with (args.with_root_key (merged env a) (args.root_key (merged env a)))
      at 1 2 by (by destruct a).
    apply Hd. by apply Hp. }
  destruct (truthy (environ_api_key env)) eqn:K2.
  { apply Hd. by apply Hp. }
  cbv zeta. cbn [trace].
  assert (Forall (terminal_read_allowed env a)
            (evs ++ [Print "Weaviate API key not provided via CLI, config file, or environment variables.";
                     Getpass api_key_prompt])) as Fg.
  { apply Forall_app. split; [by apply Hp|]. repeat constructor; done. }
  destruct (getpass env _ api_key_prompt) as [s|e];
    [destruct (String.eqb s EmptyString)|].
  - cbn [snd trace]. change (?x ++ [?p; ?g; ?q]) with (x ++ [p; g] ++ [q]).
    rewrite app_assoc. apply Forall_app. split; [done|]. by repeat constructor.
  - apply Hd. done.
  - cbn [snd trace]. change (?x ++ [?p; ?g; ?q]) with (x ++ [p; g] ++ [q]).
    rewrite app_assoc. apply Forall_app. split; [done|]. by repeat constructor.
Qed.

(** X12.  [WEAVIATE_ROOT_KEY] is a fallback for an unset [WEAVIATE_API_KEY]
    only: when [WEAVIATE_API_KEY] is set to the empty string and neither the
    command line nor the file gives a key, the run prompts for the key and
    uses the typed one, whatever [WEAVIATE_ROOT_KEY] holds. *)
Theorem empty_api_key_variable_hides_root_key env a :
  environ env !! "WEAVIATE_API_KEY" = Some EmptyString ->
  truthy (args.root_key (merged env a)) = false ->
  config_usable (config_of env a) a = true ->
  In (Getpass api_key_prompt) (trace (run env a).2) /\
  forall a' w, startup env a = (Normal a', w) ->
    exists n s, getpass env n api_key_prompt = Ok s /\ args.root_key a' = PStr s.
Proof.
  intros Hv Hk Hu.
  assert (truthy (environ_api_key env) = false) as He.
  { unfold environ_api_key. by rewrite Hv. }
  split.
  - destruct (run_extends_startup env a) as (evs' & ->). apply in_or_app. left.
    destruct (startup_eq env a) as (evs & F & [[E _]|(e & _ & Hu' & _)]); [|congruence].
    rewrite E, require_root_key_None by done. rewrite Hk, He. cbv zeta.
    destruct (getpass env _ api_key_prompt) as [s|e];
      [destruct (String.eqb s EmptyString)|]; cbn [snd trace];
      apply in_or_app; right; cbn; tauto.
  - intros a' w E. destruct (startup_spec env a) as (_ & _ & _ & _ & Hs).
    rewrite E in Hs. cbn [fst] in Hs. destruct Hs as (_ & n & Hkey & _).
    unfold key_by_precedence in Hkey. rewrite Hk, He in Hkey.
    destruct (getpass env n api_key_prompt) as [s|e] eqn:Eg; [|done].
    destruct (String.eqb s EmptyString); [done|]. injection Hkey as <-. eauto.
Qed.

Lemma empty_api_key_variable_hides_root_key_witness :
  In (Getpass api_key_prompt) (trace (run empty_variable_env keyless_args).2) /\
  forall a' w, startup empty_variable_env keyless_args = (Normal a', w) ->
    exists n s, getpass empty_variable_env n api_key_prompt = Ok s /\
                args.root_key a' = PStr s.
Proof.
  apply (empty_api_key_variable_hides_root_key empty_variable_env keyless_args);
    reflexivity.
Defined.

(** A property of events holds throughout a run when the start-up phase and
    the handler keep it. *)
Lemma run_forall env a (Q : event -> Prop) :
  (forall ev, startup_event ev -> Q ev) ->
  (forall k, emits Q (try_finally
                        (dispatch env (args.func a) (args.with_root_key (merged env a) k))
                        (close_connection env))) ->
  Forall Q (trace (run env a).2).
Proof.
  intros Hs Hd. rewrite run_startup.
  destruct (startup_spec env a) as (evs0 & E0 & Hc & F0 & Hsp).
  assert (Forall Q evs0) as F0' by (eapply Forall_impl; [exact F0|exact Hs]).
  destruct (startup env a) as [[a'|e|code] w]; cbn [fst snd] in *; subst evs0; [|done..].
  destruct Hsp as (_ & n & _ & ->).
  change (args.func (args.with_root_key (merged env a) (args.root_key a')))
    with (args.func a).
  destruct (Hd (args.root_key a') w) as (evs & -> & F). by apply Forall_app.
Qed.

(** The syntax-directed proof of an [emits] goal that keeps, for every value
    bound, where the value comes from, and for every test, how it went. *)
Ltac emits_prog_val side wk :=
  repeat first
    [ lazymatch goal with
      | |- emits _ (connect_to_weaviate _ _ _ _ _) =>
          eapply emits_weaken; [|apply emits_connect_to_weaviate]; wk
      | |- emits _ (bind _ _) => apply emits_bind_val; [|intros ? ?]
      | |- emits _ (if ?b then _ else _) => destruct b eqn:?
      | |- emits _ (match ?x with _ => _ end) => destruct x eqn:?
      end
    | apply emits_parse_properties_v4; side
    | emits_step side
    | lazymatch goal with
      | |- @emits ?A ?Q ?m => let m' := eval red in m in change (@emits A Q m')
      end ].

Ltac trivial_side :=
  by (intros; first [exact I | reflexivity | split; [reflexivity|congruence]]).

Lemma handlers_target_what_was_named env cmd a :
  emits (targets a) (try_finally (dispatch env cmd a) (close_connection env)).
Proof. emits_prog_val trivial_side ltac:(by_cases_on_event). Qed.

(** X13.  A run changes nothing but what the command line names: every call
    that creates or deletes a collection carries [--name], every call that
    creates or deletes a key or assigns roles carries [--user-id] (and
    exactly the [--role] list), every call that creates or deletes a role
    carries [--role-name]. *)
Theorem changes_target_what_was_named env a :
  Forall (targets a) (trace (run env a).2).
Proof.
  apply run_forall; [by intros []|]. intros k.
  apply (handlers_target_what_was_named env (args.func a)
           (args.with_root_key (merged env a) k)).
Qed.

Ltac checked_side :=
  by (intros;
      first
        [ exact I
        | lazymatch goal with
          | H : returns (client_call _ _) false |- _ =>
              apply returns_client_call in H as (? & ? & ?); simpl; eauto
          end ]).

Lemma handlers_create_after_check env cmd a :
  emits (created_after_check env) (try_finally (dispatch env cmd a) (close_connection env)).
Proof. emits_prog_val checked_side ltac:(by_cases_on_event). Qed.

(** X14.  Nothing is created over an existing object: every call that creates
    a collection or a role comes after an existence check for the same name
    that answered false.  When the check answers true, raises or is not
    reached, no create call is made. *)
Theorem created_only_after_check env a :
  Forall (created_after_check env) (trace (run env a).2).
Proof.
  apply run_forall; [by intros []|]. intros k. apply handlers_create_after_check.
Qed.

Ltac recreate_side :=
  by (intros;
      first
        [ exact I
        | lazymatch goal with
          | Hr : returns (client_call _ _) ?keys,
            E : (existsb _ ?keys && args.recreate_api_key _)%bool = true |- _ =>
              apply andb_prop in E as [? ?];
              apply returns_client_call in Hr as (? & ? & ?);
              split; [done|eauto]
          end ]).

Lemma user_create_deletes_to_recreate env a :
  emits (deletes_to_recreate env a)
    (try_finally (handle_user_create env a) (close_connection env)).
Proof. emits_prog_val recreate_side ltac:(by_cases_on_event). Qed.

(** X15.  [user create] deletes an API key only to recreate it: a delete call
    is made only under [--recreate-api-key], and only for a user that the
    listing of the existing keys shows. *)
Theorem user_create_deletes_only_to_recreate env a :
  args.func a = User_create ->
  Forall (deletes_to_recreate env a) (trace (run env a).2).
Proof.
  intros Hf. apply run_forall; [by intros []|]. intros k. rewrite Hf. cbn [dispatch].
  apply (user_create_deletes_to_recreate env (args.with_root_key (merged env a) k)).
Qed.

Lemma user_create_deletes_only_to_recreate_witness :
  Forall (deletes_to_recreate healthy_env (example_args User_create))
    (trace (run healthy_env (example_args User_create)).2).
Proof.
  apply (user_create_deletes_only_to_recreate healthy_env (example_args User_create)).
  reflexivity.
Defined.

Lemma handlers_grant_what_was_asked env cmd a :
  emits (grants_what_was_asked a) (try_finally (dispatch env cmd a) (close_connection env)).
Proof. emits_prog trivial_side ltac:(by_cases_on_event). Qed.

(** X16.  A role is created with what was asked for and no more: every call to
    [roles.create] carries exactly two permissions, one for collections and
    one for data, both on the [--collection-pattern] list, with each action
    allowed exactly when its [--allow-...] flag is given. *)
Theorem role_grants_what_was_asked env a :
  Forall (grants_what_was_asked a) (trace (run env a).2).
Proof.
  apply run_forall; [by intros []|]. intros k.
  apply (handlers_grant_what_was_asked env (args.func a)
           (args.with_root_key (merged env a) k)).
Qed.






Lemma within_of_emits {A} (Q : event -> Prop) (m : M A) :
  (forall ev, Q ev -> handler_call ev = false) -> emits Q m -> within 0 m.
Proof.
  intros HQ Hm w. destruct (Hm w) as (evs & E & F). exists evs. split; [done|].
  rewrite handler_calls_none; [lia|]. eapply Forall_impl; [exact F|exact HQ].
Qed.

Lemma connection_event_no_call ev : connection_event ev -> handler_call ev = false.
Proof. by destruct ev as [? []| | | | |]. Qed.

Lemma within_connect env a : within 0 (connect env a).
Proof.
  apply (within_of_emits connection_event); [apply connection_event_no_call|].
  apply emits_connect_to_weaviate.
Qed.

Lemma within_close_connection env : within 0 (close_connection env).
Proof.
  apply (within_of_emits connection_event); [apply connection_event_no_call|].
  emits_prog ltac:(by (intros; simpl; auto)) ltac:(by_cases_on_event).
Qed.

Lemma within_try_finally {A} n (body : M A) fin :
  within n body -> within 0 fin -> within n (try_finally body fin).
Proof.
  intros Hb Hf w. unfold try_finally.
  destruct (Hb w) as (e1 & E1 & C1). destruct (body w) as [r w1]; cbn [snd] in *.
  destruct (Hf w1) as (e2 & E2 & C2). exists (e1 ++ e2).
  destruct (fin w1) as [[[]|e|c] w2]; cbn [snd] in *;
    rewrite E2, E1, app_assoc, handler_calls_app; (split; [done|lia]).
Qed.

Lemma list_collection_plain env item : within 0 (list_collection env false item).
Proof. destruct item. apply within_print. Qed.

Lemma list_role_plain env item : within 0 (list_role env false item).
Proof. destruct item; cbn [list_role print_permissions]; within_solve. Qed.

Lemma plain_listing_within env a :
  args.detailed a = false ->
  args.func a = Collection_list \/ args.func a = Role_list ->
  within 1 (try_finally (dispatch env (args.func a) a) (close_connection env)).
Proof.
  intros Hd Hf. apply within_try_finally; [|apply within_close_connection].
  destruct Hf as [-> | ->]; cbn [dispatch];
    [unfold handle_collection_list|unfold handle_role_list]; rewrite Hd;
    (apply (within_bind 0); [apply within_connect| |lia]); intros _; cbn [Nat.sub];
    (apply (within_bind 0); [apply within_print| |lia]); intros _; cbn [Nat.sub];
    (apply within_try_except;
     [|cbn [all_clauses]; repeat (apply conj; [intros ?|]); [..|exact I]; within_solve]);
    (apply (within_bind 1); [apply within_client_call| |lia]); intros l; cbn [Nat.sub];
    (destruct l; [apply within_print|]);
    (apply (within_bind 0); [apply within_print| |lia]); intros _;
    apply within_for_each_silent; intros x;
    [apply list_collection_plain | apply list_role_plain].
Qed.

(** X18.  A listing without [--detailed] costs one call: [collection list]
    and [role list] then issue their listing call and no call per item,
    however many items the server returns. *)
Theorem plain_listing_is_one_call env a :
  args.detailed a = false ->
  args.func a = Collection_list \/ args.func a = Role_list ->
  handler_calls (trace (run env a).2) <= 1.
Proof.
  intros Hd Hf. rewrite run_startup.
  destruct (startup_spec env a) as (evs0 & E0 & Hc & F0 & Hs).
  destruct (startup env a) as [[a'|e|code] w]; cbn [fst snd] in *; subst evs0.
  2,3: rewrite startup_no_calls by done; lia.
  destruct Hs as (_ & n & _ & ->).
  destruct (plain_listing_within env
              (args.with_root_key (merged env a) (args.root_key a')) Hd Hf w)
    as (evs & -> & C).
  rewrite handler_calls_app, startup_no_calls by done. lia.
Qed.

Lemma plain_listing_is_one_call_witness :
  handler_calls (trace (run healthy_env (example_args Role_list)).2) <= 1.
Proof.
  apply (plain_listing_is_one_call healthy_env (example_args Role_list));
    [reflexivity|right; reflexivity].
Defined.

Lemma clause_of_except {A} (P : M A -> Prop) clauses e h :
  all_clauses P clauses -> except clauses e = Some h -> P h.
Proof.
  induction clauses as [|[ks h0] r IH]; simpl; [done|].
  intros [H0 Hr]. destruct (isinstance e ks); [|by eauto]. intros [= <-]. apply H0.
Qed.

Lemma prints_with_print c s : prints_with c (print s).
Proof.
  intros w Hc. exists [Print s]. unfold print, emit. rewrite Hc.
  split; [done|]. by repeat constructor.
Qed.

(** [m] reads a confirmation, announces the deletion and issues [del]. *)
Lemma confirmed_delete_body env c ask cancelled attempting deleted
    (del : WeaviateClient -> sdk_call unit) clauses w :
  always_confirms env ->
  catches_all clauses -> all_clauses (prints_with c) clauses ->
  client w = Some c ->
  exists evs,
    bind (read_input env ask)
      (fun confirm =>
         if negb (String.eqb (lower confirm) "yes") then print cancelled
         else print attempting;;
              try_except (client_call env del;; print deleted) (except clauses)) w =
      (Normal tt,
       mk_world (Some c)
         (trace w ++ Input ask :: Print attempting :: Call (del c) :: evs)) /\
    Forall is_print evs.
Proof.
  intros Hy Hall Hcl Hc. unfold bind at 1, read_input.
  destruct (Hy (length (trace w)) ask) as (s & -> & Hs). rewrite Hs.
  rewrite String.eqb_refl. cbn [negb].
  unfold bind at 1, print at 1, emit. cbn [client trace].
  unfold try_except, bind at 1, client_call, bind at 1, the_client, bind at 1, get_client.
  cbn [client trace]. rewrite Hc. cbn [ret]. unfold call. cbn [client trace].
  destruct (sdk env unit _ (del c)) as [[]|e].
  - unfold print, emit. cbn [client trace]. rewrite <- !app_assoc.
    eexists. split; [reflexivity|]. by repeat constructor.
  - destruct (catches_all_Some clauses e Hall) as [h Eh]. rewrite Eh.
    pose proof (clause_of_except _ _ _ _ Hcl Eh) as Hh.
    edestruct Hh as (evs & -> & F); [reflexivity|].
    cbn [trace]. rewrite <- !app_assoc. eexists. split; [reflexivity|]. done.
Qed.

Lemma handler_confirmed env a c :
  always_confirms env ->
  destructive (args.func a) = true ->
  exists k : WeaviateClient -> M unit,
    dispatch env (args.func a) a = bind (connect env a) k /\
    forall w, client w = Some c ->
      exists ask line evs,
        k c w = (Normal tt,
                 mk_world (Some c)
                   (trace w ++ Input ask :: Print line :: delete_call a c :: evs)) /\
        Forall is_print evs.
Proof.
  intros Hy Hd. unfold delete_call.
  destruct (args.func a); try discriminate; cbn [dispatch];
    (eexists; split; [reflexivity|]); intros w Hc; cbv beta zeta.
  - pose proof (fun ask cancelled attempting deleted clauses =>
                  confirmed_delete_body env c ask cancelled attempting deleted
                    (fun c => collections_delete c (args.name a)) clauses w Hy) as Hb.
    edestruct Hb as (evs & E & F); [| |exact Hc|rewrite E; by eauto].
    + cbn [catches_all]. tauto.
    + cbn [all_clauses]. repeat split; intros e; apply prints_with_print.
  - pose proof (fun ask cancelled attempting deleted clauses =>
                  confirmed_delete_body env c ask cancelled attempting deleted
                    (fun c => users_db_delete c (args.user_id a)) clauses w Hy) as Hb.
    edestruct Hb as (evs & E & F); [| |exact Hc|rewrite E; by eauto].
    + cbn [catches_all]. tauto.
    + cbn [all_clauses]. repeat split; intros e; [|apply prints_with_print].
      destruct (_ || _); apply prints_with_print.
  - pose proof (fun ask cancelled attempting deleted clauses =>
                  confirmed_delete_body env c ask cancelled attempting deleted
                    (fun c => roles_delete c (args.role_name a)) clauses w Hy) as Hb.
    edestruct Hb as (evs & E & F); [| |exact Hc|rewrite E; by eauto].
    + cbn [catches_all]. tauto.
    + cbn [all_clauses]. repeat split; intros e; [|apply prints_with_print].
      destruct (str_in _ _); apply prints_with_print.
Qed.

Lemma filter_handler_call_none evs :
  Forall (fun ev => handler_call ev = false) evs -> List.filter handler_call evs = [].
Proof.
  induction 1 as [|ev l H _ IH]; [done|]. cbn [List.filter]. by rewrite H.
Qed.

(** X19.  A confirmed delete deletes, once: when the confirmation reads [yes]
    in any letter case and the connection is established, the run issues
    exactly one call on the database — the delete of the object named on
    the command line. *)
Theorem confirmed_delete_calls_delete_once env a a' w c w1 :
  destructive (args.func a) = true ->
  always_confirms env ->
  startup env a = (Normal a', w) ->
  connect env a' w = (Normal c, w1) ->
  List.filter handler_call (trace (run env a).2) = [delete_call a c].
Proof.
  intros Hd Hy Hs Hcon. rewrite run_startup, Hs.
  destruct (startup_spec env a) as (evs0 & E0 & Hc & F0 & Hsp).
  rewrite Hs in E0, Hc, Hsp. cbn [fst snd] in *. subst evs0.
  destruct Hsp as (_ & n & _ & Ha').
  destruct (emits_connect_to_weaviate env (args.url a') (args.root_key a')
              (args.grpc_host a') (args.grpc_port a') w) as (evsc & Ec & Fc).
  pose proof (connect_from_None env (args.url a') (args.root_key a') (args.grpc_host a')
                (args.grpc_port a') w Hc) as (evs & _ & Hres).
  fold (connect env a' w) in Ec, Hres. rewrite Hcon in Ec, Hres. cbn [fst snd] in Ec, Hres.
  destruct Hres as (Hc1 & _).
  assert (destructive (args.func a') = true) as Hd' by (by rewrite Ha').
  destruct (handler_confirmed env a' c Hy Hd') as (k & -> & Hk).
  unfold try_finally, bind. rewrite Hcon.
  destruct (Hk w1 Hc1) as (ask & line & evsb & -> & Fb).
  edestruct (close_connection_Some env) as (evs3 & -> & F3); [reflexivity|].
  cbn [snd trace]. rewrite Ec, <- !app_assoc, !List.filter_app.
  rewrite (filter_handler_call_none (trace w))
    by (eapply Forall_impl; [exact F0|by intros []]).
  rewrite (filter_handler_call_none evsc)
    by (eapply Forall_impl; [exact Fc|apply connection_event_no_call]).
  cbn [app List.filter handler_call].
  assert (delete_call a' c = delete_call a c) as -> by (by rewrite Ha').
  assert (handler_call (delete_call a c) = true) as ->
    by (unfold delete_call; by destruct (args.func a)).
  rewrite (filter_handler_call_none evsb)
    by (eapply Forall_impl; [exact Fb|by intros []]).
  rewrite (filter_handler_call_none evs3)
    by (eapply Forall_impl; [exact F3|by intros [| | | | |[]]]).
  done.
Qed.

Lemma confirmed_delete_calls_delete_once_witness :
  List.filter handler_call (trace (run confirming_env (example_args Role_delete)).2) =
    [delete_call (example_args Role_delete) the_connection].
Proof.
  eapply (confirmed_delete_calls_delete_once confirming_env (example_args Role_delete)).
  - reflexivity.
  - intros n p. exists "YES". split; reflexivity.
  - vm_compute. reflexivity.
  - vm_compute. reflexivity.
Defined.

Lemma list_user_block env c u w :
  client w = Some c ->
  exists block,
    user_block c u block /\
    list_user env u w = (Normal tt, mk_world (Some c) (trace w ++ block)).
Proof.
  intros Hc. unfold list_user, user_block. cbv zeta.
  unfold bind at 1, try_except, bind at 1, client_call, bind at 1, the_client, bind at 1,
    get_client.
  rewrite Hc. cbn [ret]. unfold call. cbn [client trace].
  destruct (sdk env RolesData _ _) as [rd|e].
  - destruct (rd_items rd) as [|i items];
      [|destruct (forallb is_ItemStr (i :: items));
        [|destruct (forallb has_name (i :: items))]];
      unfold bind, print, emit, ret; cbn [client trace]; rewrite Hc, <- !app_assoc;
      (eexists; split; [|reflexivity]); cbn [app].
    + exists [], "None". split; [reflexivity|constructor].
    + exists []. eexists. split; [reflexivity|constructor].
    + exists []. eexists. split; [reflexivity|constructor].
    + eexists [_]. eexists. split; [reflexivity|]. by repeat constructor.
  - rewrite except_Exception. unfold bind, print, emit, ret. cbn [client trace].
    rewrite Hc, <- !app_assoc. eexists. split; [|reflexivity]. cbn [app].
    eexists [_], "None". split; [reflexivity|]. by repeat constructor.
Qed.

(** X20.  [user list] prints every user: for each record of the listing, in
    order, the handler asks for the user's roles and prints the user's
    line; a lookup that raises costs a warning line and the roles read
    [None], and the listing goes on with the next user. *)
Theorem user_list_prints_every_user env c l : forall w,
  client w = Some c ->
  exists blocks,
    Forall2 (user_block c) l blocks /\
    for_each l (list_user env) w = (Normal tt, mk_world (Some c) (trace w ++ concat blocks)).
Proof.
  induction l as [|u l IH]; intros w Hc; cbn [for_each].
  - exists []. split; [constructor|]. cbn. rewrite app_nil_r. by destruct w; cbn in *; subst.
  - unfold bind. destruct (list_user_block env c u w Hc) as (b & Hb & ->).
    destruct (IH (mk_world (Some c) (trace w ++ b)) eq_refl) as (bs & Hbs & ->).
    exists (b :: bs). split; [by constructor|]. cbn [concat trace]. by rewrite app_assoc.
Qed.

Lemma user_list_prints_every_user_witness :
  exists blocks,
    Forall2 (user_block the_connection) [mk_UserDB "alice"; mk_UserDB "bob"] blocks /\
    for_each [mk_UserDB "alice"; mk_UserDB "bob"] (list_user healthy_env) connected_world =
      (Normal tt, mk_world (Some the_connection) (trace connected_world ++ concat blocks)).
Proof.
  apply (user_list_prints_every_user healthy_env the_connection
           [mk_UserDB "alice"; mk_UserDB "bob"] connected_world).
  reflexivity.
Defined.

(** X21.  [load_config_from_yaml] never fails: a missing file, a YAML error
    and any other error while opening or parsing each cost one printed line
    and give the empty dictionary, as does an empty document; any other
    document is returned as loaded — also one that is not a mapping. *)
Theorem load_config_from_yaml_never_raises env file_path w :
  exists line,
    load_config_from_yaml env file_path w =
      (Normal (match yaml_safe_load env file_path with
               | Ok v => if truthy v then v else PDict []
               | Raise _ => PDict []
               end),
       mk_world (client w) (trace w ++ [Print line])).
Proof.
  unfold load_config_from_yaml, try_except, bind at 1, lift.
  destruct (yaml_safe_load env file_path) as [v|e].
  - cbn [ret]. unfold bind, print, emit, ret. cbn [client trace]. by eexists.
  - cbn [raise except]. rewrite isinstance_Exception.
    destruct (isinstance e [FileNotFoundError]); [|destruct (isinstance e [YAMLError])];
      unfold bind, print, emit, ret; cbn [client trace]; by eexists.
Qed.

Ltac keyed_side :=
  by (intros;
      first
        [ exact I
        | lazymatch goal with
          | Hl : returns (client_call _ _) ?keys,
            Hr : returns (if ?b then _ else _) _ |- _ =>
              apply returns_client_call in Hl as (? & ? & ?);
              destruct b eqn:E;
              [ left; apply andb_prop in E as [? ?%negb_true_iff]; split; [done|eauto]
              | right;
                apply returns_bind in Hr as (? & _ & Hr);
                apply returns_bind in Hr as (? & Hr & _);
                apply returns_client_call in Hr as (? & ? & ?); eauto ]
          end ]).

Lemma user_create_assigns_to_keyed_user env a :
  emits (assigns_to_keyed_user env a)
    (try_finally (handle_user_create env a) (close_connection env)).
Proof. emits_prog_val keyed_side ltac:(by_cases_on_event). Qed.

(** X22.  [user create] assigns roles only to a user that has a key: every
    call to [assign_roles] comes after the key was created by a [create]
    call that returned, or — without [--recreate-api-key] — after the
    listing showed the user.  When the creation of the key raises, no role
    is assigned. *)
Theorem user_create_assigns_only_to_keyed_user env a :
  args.func a = User_create ->
  Forall (assigns_to_keyed_user env a) (trace (run env a).2).
Proof.
  intros Hf. apply run_forall; [by intros []|]. intros k. rewrite Hf. cbn [dispatch].
  apply (user_create_assigns_to_keyed_user env (args.with_root_key (merged env a) k)).
Qed.

Lemma user_create_assigns_only_to_keyed_user_witness :
  Forall (assigns_to_keyed_user healthy_env (example_args User_create))
    (trace (run healthy_env (example_args User_create)).2).
Proof.
  apply (user_create_assigns_only_to_keyed_user healthy_env (example_args User_create)).
  reflexivity.
Defined.

Lemma closes_none (P : event -> Prop) evs :
  (forall ev, P ev -> is_close_call ev = false) ->
  Forall P evs -> List.filter is_close_call evs = [].
Proof.
  intros HP. induction 1 as [|ev l H _ IH]; [done|].
  cbn [List.filter]. by rewrite (HP ev H).
Qed.

Lemma quiet_not_close ev : quiet_event ev -> is_close_call ev = false.
Proof. by destruct ev. Qed.

Lemma body_not_close ev : body_event ev -> is_close_call ev = false.
Proof. by destruct ev as [? []| | | | |]. Qed.

Lemma connect_attempt_closes env n params o hd evs :
  connect_attempt env n params o hd evs ->
  length (List.filter is_close_call evs) <=
    match o with Normal _ => 0 | _ => 1 end.
Proof.
  intros (l1 & l2 & tail & -> & H). cbn [List.filter is_close_call].
  destruct (sdk env WeaviateClient n _) as [new|?].
  2:{ destruct H as (F & -> & _). rewrite (closes_none quiet_event); [cbn; lia| |done].
      apply quiet_not_close. }
  destruct H as (tail' & -> & H). cbn [List.filter is_close_call].
  destruct (sdk env bool (S n) _) as [[]|?].
  - destruct H as (-> & -> & _). cbn. lia.
  - destruct H as (? & ? & tail'' & -> & F & -> & _). cbn [List.filter is_close_call length].
    rewrite (closes_none quiet_event); [cbn; lia| |done]. apply quiet_not_close.
  - destruct H as (F & -> & _). rewrite (closes_none quiet_event); [cbn; lia| |done].
    apply quiet_not_close.
Qed.

(** X23.  A run calls [close] at most once: the client that was connected is
    closed once, by [main] after the handler or by [connect_to_weaviate]
    when the server is not ready, and no handler closes it. *)
Theorem connection_closed_at_most_once env a :
  length (List.filter is_close_call (trace (run env a).2)) <= 1.
Proof.
  assert (forall evs, Forall startup_event evs -> List.filter is_close_call evs = []) as Hs.
  { intros evs F. apply (closes_none startup_event); [by intros []|done]. }
  pose proof (run_anatomy env a) as H.
  destruct (startup env a) as [[a'|e|code] w].
  2,3: destruct H as (-> & F); cbn [snd]; rewrite Hs by done; cbn; lia.
  destruct H as (_ & F0 & line & evs1 & H).
  destruct H as [(-> & F1 & _)|(l & o & hd & evs2 & Hatt & -> & Ho)].
  { rewrite List.filter_app, Hs by done. cbn [app List.filter is_close_call].
    rewrite (closes_none quiet_event); [cbn; lia|apply quiet_not_close|done]. }
  apply connect_attempt_closes in Hatt.
  rewrite List.filter_app, Hs by done. cbn [app List.filter is_close_call].
  rewrite List.filter_app, length_app.
  destruct o as [c| |code]; [|done|destruct Ho as [-> _]; cbn; lia].
  destruct Ho as (body & evs3 & -> & Fb & F3).
  rewrite List.filter_app, (closes_none body_event body); [|apply body_not_close|done].
  cbn [app List.filter is_close_call length].
  rewrite (closes_none quiet_event evs3); [cbn; lia|apply quiet_not_close|done].
Qed.




Lemma emits_for_each_in {A} Q (l : list A) body :
  (forall x, In x l -> emits Q (body x)) -> emits Q (for_each l body).
Proof.
  induction l as [|y l IH]; intros Hb; cbn [for_each]; [apply emits_ret|].
  apply emits_bind; [apply Hb; by left|]. intros _. apply IH. intros x Hx. apply Hb. by right.
Qed.

(** As [emits_prog_val], and for every loop, that the item is one of the list. *)
Ltac emits_prog_in side wk :=
  repeat first
    [ lazymatch goal with
      | |- emits _ (connect_to_weaviate _ _ _ _ _) =>
          eapply emits_weaken; [|apply emits_connect_to_weaviate]; wk
      | |- emits _ (bind _ _) => apply emits_bind_val; [|intros ? ?]
      | |- emits _ (for_each _ _) => apply emits_for_each_in; intros ? ?
      | |- emits _ (if ?b then _ else _) => destruct b eqn:?
      | |- emits _ (match ?x with _ => _ end) => destruct x eqn:?
      end
    | apply emits_parse_properties_v4; side
    | emits_step side
    | lazymatch goal with
      | |- @emits ?A ?Q ?m => let m' := eval red in m in change (@emits A Q m')
      end ].

Ltac lookup_side Hf :=
  intros; unfold lookup_as_asked; rewrite ?Hf;
  first
    [ exact I
    | reflexivity
    | solve
        [ lazymatch goal with
          | Hp : returns (client_call _ (fun c => collections_exists c _)) ?p,
            E : negb ?p = false |- _ =>
              apply negb_false_iff in E; rewrite E in Hp;
              apply returns_client_call in Hp as (? & ? & ?); split; [reflexivity|eauto]
          end ]
    | solve
        [ lazymatch goal with
          | Hg : returns (client_call _ (fun c => collections_get c _)) _ |- _ =>
              apply returns_client_call in Hg as (? & ? & ?); eauto
          end ]
    | solve
        [ lazymatch goal with
          | Hl : returns (client_call _ _) ?l, Hin : In ?x ?l, Ed : args.detailed _ = true |- _ =>
              rewrite ?Ed in Hl; apply returns_client_call in Hl as (? & ? & Hl);
              split; [exact Ed|]; do 3 eexists; split; [exact Hl|];
              first [ subst; assumption
                    | apply in_map_iff; exists x; subst; split; [reflexivity|assumption] ]
          end ]
    | solve
        [ lazymatch goal with
          | Hl : returns (client_call _ _) ?l, Hin : In ?x ?l |- _ =>
              apply returns_client_call in Hl as (? & ? & Hl);
              do 3 eexists; split; [exact Hl|]; by apply in_map
          end ] ].

Lemma handlers_look_up_as_asked env cmd a :
  args.func a = cmd ->
  emits (lookup_as_asked env a) (try_finally (dispatch env cmd a) (close_connection env)).
Proof.
  intros Hf. apply emits_try_finally.
  2:{ emits_prog_in ltac:(lookup_side Hf) ltac:(by_cases_on_event). }
  destruct cmd; cbn [dispatch].
  all: emits_prog_in ltac:(lookup_side Hf) ltac:(by_cases_on_event).
Qed.

(** X25.  A call that only reads asks about what was named or listed:
    existence checks and [collections.get] carry [--name] or [--role-name]
    ([collections.get] only after the check returned true); the listing of
    collections is simple exactly without [--detailed]; [config.get] is
    called, by [collection describe], on the collection just fetched, and by
    [collection list] under [--detailed] on a listed collection only;
    [roles.get] is called by [role get] on [--role-name], and by [role list]
    under [--detailed] on a listed name only; the roles of a user are asked
    for listed users only.  No other command makes these calls. *)
Theorem lookups_ask_what_was_named_or_listed env a :
  Forall (lookup_as_asked env a) (trace (run env a).2).
Proof.
  apply run_forall; [by intros []|]. intros k.
  apply (handlers_look_up_as_asked env (args.func a)
           (args.with_root_key (merged env a) k)).
  reflexivity.
Qed.

Section reconnect.
Context (env : Env).

Lemma connect_handler_extends l e h :
  connect_handlers env l e = Some h -> emits (fun _ => True) h.
Proof.
  revert e h. unfold connect_handlers. apply emits_except. cbn [all_clauses].
  repeat (apply conj; [intros ?|]); [..|exact I];
    repeat first [emits_step ltac:(by simpl) | progress autounfold with prog].
Qed.

Lemma guarded_open_extends auth l :
  emits (fun _ => True) (try_except (connect_open env auth l) (connect_handlers env l)).
Proof.
  apply emits_try_except; [|apply connect_handler_extends].
  unfold connect_open. repeat emits_step ltac:(by simpl).
Qed.

(** With a client in the handle, the [try] body starts by closing it. *)
Lemma connect_prepare_Some url h p w c :
  client w = Some c ->
  exists o hd evs,
    connect_prepare env url h p w =
      (o, mk_world hd
            (trace w ++ [Print "Closing pre-existing client instance."; Call (close c)] ++
             evs)).
Proof.
  intros Hc. unfold connect_prepare, bind at 1, get_client. rewrite Hc.
  unfold bind at 1. unfold bind at 1, print at 1, emit. cbn [client trace].
  unfold bind at 1, call at 1. cbn [client trace].
  destruct (sdk env unit _ (close c)) as [[]|e].
  - unfold set_client. cbn [client trace].
    unfold bind.
    match goal with
    | |- context [parse_http_url_details env url ?w1] =>
        destruct (parse_http_url_details_pure env url w1) as [r Hr]
    end.
    rewrite Hr. rewrite <- !app_assoc.
    destruct r as [[[hh hp] hs]|e]; cbn [ret]; by do 3 eexists.
  - rewrite <- !app_assoc. exists (Raised e), (client w), []. by rewrite app_nil_r.
Qed.

Lemma reconnect_closes_first url auth h p w c :
  client w = Some c ->
  exists evs,
    trace ((l ← try_except (connect_prepare env url h p)
                   (fun e => match connect_handlers env initial_locals e with
                             | Some hd => Some (hd;; ret initial_locals)
                             | None => None
                             end);
            try_except (connect_open env auth l) (connect_handlers env l)) w).2 =
      trace w ++ [Print "Closing pre-existing client instance."; Call (close c)] ++ evs.
Proof.
  intros Hc. unfold bind at 1, try_except at 1.
  destruct (connect_prepare_Some url h p w c Hc) as (o & hd & evs & ->).
  destruct o as [l|e|code].
  - destruct (guarded_open_extends auth l (mk_world hd
                (trace w ++ [Print "Closing pre-existing client instance."; Call (close c)]
                 ++ evs))) as (evs' & -> & _).
    cbn [trace]. exists (evs ++ evs'). by rewrite <- !app_assoc.
  - destruct (connect_handlers env initial_locals e) as [hdl|] eqn:Eh; [|by eauto].
    unfold bind at 1.
    destruct (connect_handler_extends _ _ _ Eh (mk_world hd
                (trace w ++ [Print "Closing pre-existing client instance."; Call (close c)]
                 ++ evs))) as (evs' & E' & _).
    destruct (hdl _) as [[x|e'|code] w2]; cbn [snd trace] in *.
    + cbn [ret]. destruct (guarded_open_extends auth initial_locals w2) as (evs2 & -> & _).
      rewrite E'. exists (evs ++ evs' ++ evs2). by rewrite <- !app_assoc.
    + rewrite E'. exists (evs ++ evs'). by rewrite <- !app_assoc.
    + rewrite E'. exists (evs ++ evs'). by rewrite <- !app_assoc.
  - by eauto.
Qed.

(** X26.  A stale connection is closed before a new one is opened: when the
    handle holds a client that reports not connected, or connected but not
    ready, [connect_to_weaviate] probes it, announces the new connection,
    prints "Closing pre-existing client instance." and calls [close] on that
    client — all before any other step of the new connection. *)
Theorem stale_connection_is_closed_first url api_key cli_grpc_host cli_grpc_port w c :
  client w = Some c ->
  sdk env bool (length (trace w)) (is_connected c) = Ok false \/
  sdk env bool (length (trace w)) (is_connected c) = Ok true /\
  sdk env bool (S (length (trace w))) (is_ready c) = Ok false ->
  exists probes line rest,
    trace (connect_to_weaviate env url api_key cli_grpc_host cli_grpc_port w).2 =
      trace w ++ probes ++
      [Print line; Print "Closing pre-existing client instance."; Call (close c)] ++ rest /\
    (probes = [Call (is_connected c)] \/
     probes = [Call (is_connected c); Call (is_ready c)]).
Proof.
  intros Hc Hp. unfold connect_to_weaviate.
  unfold bind at 1, get_client at 1. rewrite Hc.
  unfold bind at 1 2, call at 1. cbn [client trace].
  destruct Hp as [H1|[H1 H2]]; rewrite H1.
  - cbn [ret]. unfold bind at 1, print at 1, emit. cbn [client trace]. cbv zeta.
    edestruct (reconnect_closes_first url) as (rest & ->); [exact Hc|].
    cbn [trace]. exists [Call (is_connected c)]. do 2 eexists.
    rewrite <- !app_assoc. split; [reflexivity|by left].
  - unfold call at 1. cbn [client trace]. rewrite length_app, Nat.add_1_r, H2.
    unfold bind at 1, print at 1, emit. cbn [client trace]. cbv zeta.
    edestruct (reconnect_closes_first url) as (rest & ->); [exact Hc|].
    cbn [trace]. exists [Call (is_connected c); Call (is_ready c)]. do 2 eexists.
    rewrite <- !app_assoc. split; [reflexivity|by right].
Qed.
End reconnect.

(** The same, on a server whose client reports that it is not connected. *)
Lemma stale_connection_is_closed_first_witness :
  exists probes line rest,
    trace (connect_to_weaviate stale_env (PStr "http://localhost:8080")
             (PStr "admin-key") PNone PNone connected_world).2 =
      trace connected_world ++ probes ++
      [Print line; Print "Closing pre-existing client instance.";
       Call (close the_connection)] ++ rest /\
    (probes = [Call (is_connected the_connection)] \/
     probes = [Call (is_connected the_connection); Call (is_ready the_connection)]).
Proof.
  apply (stale_connection_is_closed_first stale_env (PStr "http://localhost:8080")
           (PStr "admin-key") PNone PNone connected_world the_connection).
  - reflexivity.
  - left. reflexivity.
Defined.


Lemma connect_attempt_no_calls env n params o hd evs :
  connect_attempt env n params o hd evs -> handler_calls evs = 0.
Proof.
  intros (l1 & l2 & tail & -> & H).
  change (handler_calls (Print l1 :: Print l2 :: Call (connect_to_custom params) :: tail))
    with (handler_calls tail).
  destruct (sdk env WeaviateClient n _) as [new|?];
    [|destruct H as (F & _); by apply quiet_no_calls].
  destruct H as (tail' & -> & H).
  change (handler_calls (Call (is_ready new) :: tail')) with (handler_calls tail').
  destruct (sdk env bool (S n) _) as [[]|?].
  - by destruct H as (-> & _).
  - destruct H as (l3 & l4 & tail'' & -> & F & _).
    change (handler_calls (Print l3 :: Call (is_live new) :: Print l4 :: Call (close new)
                           :: tail''))
      with (handler_calls tail'').
    by apply quiet_no_calls.
  - destruct H as (F & _). by apply quiet_no_calls.
Qed.

(** X28.  Nothing is asked of a server that did not report ready: a run that
    makes any call on the database has, before it, obtained a client from
    [connect_to_custom] whose readiness probe [is_ready()] returned true. *)
Theorem database_calls_need_a_ready_server env a :
  handler_calls (trace (run env a).2) <> 0 ->
  connected_and_ready env (trace (run env a).2).
Proof.
  intros Hcalls. pose proof (run_anatomy env a) as H.
  destruct (startup env a) as [[a'|e|code] w].
  2,3: destruct H as (E & F); rewrite E in Hcalls; cbn [snd] in Hcalls;
       by rewrite startup_no_calls in Hcalls.
  destruct H as (_ & F0 & line & evs1 & H).
  destruct H as [(E & F1 & _)|(l & o & hd & evs2 & Hatt & E & Ho)].
  { rewrite E, handler_calls_app, startup_no_calls in Hcalls by done.
    change (handler_calls (Print line :: evs1)) with (handler_calls evs1) in Hcalls.
    by rewrite quiet_no_calls in Hcalls. }
  rewrite E in Hcalls |- *.
  rewrite handler_calls_app, startup_no_calls in Hcalls by done.
  change (handler_calls (Print line :: evs1 ++ evs2)) with (handler_calls (evs1 ++ evs2))
    in Hcalls.
  rewrite handler_calls_app, (connect_attempt_no_calls _ _ _ _ _ _ Hatt) in Hcalls.
  destruct Hatt as (l1 & l2 & tail & -> & Hatt).
  exists (length (trace w) + 3), (connect_params (args.root_key a') l).
  destruct (sdk env WeaviateClient _ _) as [new|?].
  2:{ destruct Hatt as (_ & -> & _). destruct Ho as [-> _]. done. }
  destruct Hatt as (tail' & -> & Hatt).
  destruct (sdk env bool _ (is_ready new)) as [[]|?] eqn:E2.
  - exists new. split; [|by split].
    change (trace w ++ Print line :: (Print l1 :: Print l2 :: ?c :: ?t) ++ evs2)
      with (trace w ++ [Print line; Print l1; Print l2] ++ c :: t ++ evs2).
    rewrite app_assoc.
    replace (length (trace w) + 3) with (length (trace w ++ [Print line; Print l1; Print l2]))
      by (rewrite length_app; reflexivity).
    apply list_lookup_middle. reflexivity.
  - destruct Hatt as (? & ? & ? & _ & _ & -> & _). destruct Ho as [-> _]. done.
  - destruct Hatt as (_ & -> & _). destruct Ho as [-> _]. done.
Qed.

Lemma database_calls_need_a_ready_server_witness :
  connected_and_ready healthy_env (trace (run healthy_env (example_args Role_list)).2).
Proof.
  apply (database_calls_need_a_ready_server healthy_env (example_args Role_list)).
  vm_compute. lia.
Defined.
